(** * pgcopydb: schema dump/restore driver, extension-config copier and
      live-replay applier

    A shallow embedding of three source files of pgcopydb:

    - [dump_restore.c]  (module [DumpRestore])
    - [extensions.c]    (module [Extensions])
    - [ld_replay.c]     (module [LdReplay])

    The C functions return [bool] and act on the outside world (files of the
    work directory, external programs, SQL connections).  They are embedded as
    functions in a state monad over a [World] that holds the files and the
    ordered trace of the external actions that were performed.  The outcome of
    every external action is decided by an environment of oracles, so a
    theorem quantified over the environment covers every behaviour of the
    outside world.  Calls to the logger are left out: they have no effect on
    the values and actions the properties are about. *)

From Stdlib Require Import ZArith List String Ascii Bool Lia.
From stdpp Require Import base gmap strings list pretty.

Local Open Scope string_scope.
Local Open Scope list_scope.

(** ** A state monad with early return in the style of the C code *)

Definition M (W A : Type) : Type := W -> A * W.

Definition ret {W A} (a : A) : M W A := fun w => (a, w).

Definition bind {W A B} (m : M W A) (k : A -> M W B) : M W B :=
  fun w => let (a, w') := m w in k a w'.

Notation "x <- m ;; k" := (bind m (fun x => k))
  (at level 100, m at next level, right associativity).

(** [check c ;; k] is the C idiom [if (!c) { return false; } k]. *)
Definition orfail {W} (c : M W bool) (k : M W bool) : M W bool :=
  ok <- c ;; if ok then k else ret false.

Notation "'check' c ;; k" := (orfail c k)
  (at level 100, c at next level, right associativity).

(** ** dump_restore.c *)

Module DumpRestore.

(** The enumeration lives in a header; the code names four of its values and
    sends every other one to the [default] branch. *)
Inductive PostgresDumpSection :=
| PG_DUMP_SECTION_ALL
| PG_DUMP_SECTION_SCHEMA
| PG_DUMP_SECTION_PRE_DATA
| PG_DUMP_SECTION_POST_DATA
| PG_DUMP_SECTION_OTHER.

Record DumpPaths := {
  preFilename : string;
  postFilename : string;
  preListFilename : string;
  postListFilename : string
}.

Record DonePaths := {
  preDataDump : string;
  postDataDump : string;
  preDataRestore : string;
  postDataRestore : string
}.

Record CopyFilePaths := {
  idxdir : string;
  done : DonePaths
}.

Record SourceTable := {
  oid : N;
  nspname : string;
  relname : string
}.

Record SourceFilterSchema := {
  filter_nspname : string
}.

Record SourceFilters := {
  includeOnlySchemaList : list SourceFilterSchema
}.

Record RestoreOptions := {
  dropIfExists : bool
}.

(** One entry of the [pg_restore --list] output. *)
Record ArchiveContentItem := {
  dumpId : Z;
  catalogOid : N;
  objectOid : N;
  desc : string;
  restoreListName : string
}.

Record CopyDataSpec := {
  cfPaths : CopyFilePaths;
  dumpPaths : DumpPaths;
  source_pguri : string;
  target_pguri : string;
  filters : SourceFilters;
  restoreOptions : RestoreOptions;
  sourceTableArray : list SourceTable
}.

(** External actions, in the order they happen. *)
Inductive Event :=
| EvPgDump (section filename : string)
| EvPgRestoreList (dumpFilename : string)
| EvPgRestore (dumpFilename listFilename : string)
| EvSqlExecute (pguri sql : string)
| EvWriteFile (path contents : string).

Record World := {
  files : gmap string string;
  trace : list Event
}.

(** The outside world: whether each external action succeeds, given everything
    that happened so far. *)
Record Env := {
  pg_dump_db_ok : World -> string -> string -> bool;
  pg_restore_list_out : World -> string -> option (list ArchiveContentItem);
  pg_restore_db_ok : World -> string -> string -> bool;
  pgsql_init_ok : World -> string -> bool;
  pgsql_execute_ok : World -> string -> string -> bool;
  write_file_ok : World -> string -> string -> bool;
  createPQExpBuffer_ok : World -> bool;
  PQExpBufferBroken : World -> string -> bool;
  copydb_objectid_is_filtered_out_res : CopyDataSpec -> N -> string -> bool
}.

Section Driver.

Variable env : Env.

(** *** Helpers of the repository that live outside the three files *)

Definition MAXPGPATH : nat := 1024.

(** Modelled from the spec: [sformat] (string_utils) is [snprintf] into a
    buffer of [size] bytes; at most [size - 1] characters are kept. *)
Definition sformat (size : nat) (s : string) : string :=
  String.substring 0 (size - 1) s.

Definition file_exists (path : string) : M World bool :=
  fun w => (bool_decide (is_Some (files w !! path)), w).

(** Modelled from the spec: [write_file] (file_utils) creates or replaces the
    file; the spec requires marker creation to be atomic, so a write that
    fails leaves the directory as it was. *)
Definition write_file (data path : string) : M World bool :=
  fun w =>
    if write_file_ok env w data path
    then (true, {| files := <[path := data]> (files w);
                   trace := trace w ++ [EvWriteFile path data] |})
    else (false, w).

(** Modelled from the spec: [pg_dump_db] runs the external dumper; its output
    is one archive file. *)
Definition pg_dump_db (section filename : string) : M World bool :=
  fun w =>
    let w1 := {| files := files w; trace := trace w ++ [EvPgDump section filename] |} in
    if pg_dump_db_ok env w section filename
    then (true, {| files := <[filename := "archive"]> (files w1); trace := trace w1 |})
    else (false, w1).

Definition pg_restore_list (dumpFilename : string)
  : M World (option (list ArchiveContentItem)) :=
  fun w =>
    (pg_restore_list_out env w dumpFilename,
     {| files := files w; trace := trace w ++ [EvPgRestoreList dumpFilename] |}).

Definition pg_restore_db (dumpFilename listFilename : string) : M World bool :=
  fun w =>
    (pg_restore_db_ok env w dumpFilename listFilename,
     {| files := files w;
        trace := trace w ++ [EvPgRestore dumpFilename listFilename] |}).

Definition pgsql_init (pguri : string) : M World bool :=
  fun w => (pgsql_init_ok env w pguri, w).

Definition pgsql_execute (pguri sql : string) : M World bool :=
  fun w =>
    (pgsql_execute_ok env w pguri sql,
     {| files := files w; trace := trace w ++ [EvSqlExecute pguri sql] |}).

Definition broken (buf : string) : M World bool :=
  fun w => (PQExpBufferBroken env w buf, w).

Definition copydb_objectid_is_filtered_out
  (specs : CopyDataSpec) (o : N) (name : string) : M World bool :=
  ret (copydb_objectid_is_filtered_out_res env specs o name).

(** *** copydb_objectid_has_been_processed_already *)

Definition copydb_objectid_has_been_processed_already
  (specs : CopyDataSpec) (o : N) : M World bool :=
  let doneFile :=
    sformat MAXPGPATH (idxdir (cfPaths specs) +:+ "/" +:+ pretty o +:+ ".done") in
  file_exists doneFile.

(** *** copydb_dump_source_schema *)

Definition copydb_dump_source_schema
  (specs : CopyDataSpec) (snapshot : string) (section : PostgresDumpSection)
  : M World bool :=
  check (match section with
         | PG_DUMP_SECTION_SCHEMA | PG_DUMP_SECTION_PRE_DATA | PG_DUMP_SECTION_ALL =>
             check (skip <- file_exists (preDataDump (done (cfPaths specs))) ;;
                    if skip then ret true
                    else pg_dump_db "pre-data" (preFilename (dumpPaths specs))) ;;
             (* now write the doneFile to keep track *)
             write_file EmptyString (preDataDump (done (cfPaths specs)))
         | _ => ret true
         end) ;;
  check (match section with
         | PG_DUMP_SECTION_SCHEMA | PG_DUMP_SECTION_POST_DATA | PG_DUMP_SECTION_ALL =>
             check (skip <- file_exists (postDataDump (done (cfPaths specs))) ;;
                    if skip then ret true
                    else pg_dump_db "post-data" (postFilename (dumpPaths specs))) ;;
             (* now write the doneFile to keep track *)
             write_file EmptyString (postDataDump (done (cfPaths specs)))
         | _ => ret true
         end) ;;
  ret true.

(** *** copydb_target_drop_tables *)

(** The characters the format strings spell with an escape. *)
Definition dquote : string := String (ascii_of_nat 34) EmptyString.
Definition newline : string := String (ascii_of_nat 10) EmptyString.

(** [%s "%s"."%s"] *)
Definition fmt_drop_item (sep nsp rel : string) : string :=
  sep +:+ " " +:+ dquote +:+ nsp +:+ dquote +:+ "." +:+ dquote +:+ rel +:+ dquote.

(** The [for] loop over [tableArray->array], from index [tableIndex] on. *)
Fixpoint drop_tables_loop
  (tableIndex : nat) (array : list SourceTable) (query : string) : string :=
  match array with
  | [] => query
  | source :: rest =>
      drop_tables_loop (S tableIndex) rest
        (query +:+ fmt_drop_item (if Nat.eqb tableIndex 0 then " " else ",")
                                 (nspname source) (relname source))
  end.

Definition copydb_target_drop_tables (specs : CopyDataSpec) : M World bool :=
  let tableArray := sourceTableArray specs in
  if Nat.eqb (length tableArray) 0 then ret true
  else
    let query := drop_tables_loop 0 tableArray "DROP TABLE IF EXISTS" in
    let query := query +:+ "CASCADE" in
    (* memory allocation could have failed while building string *)
    isBroken <- broken query ;;
    if isBroken then ret false
    else
      check pgsql_init (target_pguri specs) ;;
      check pgsql_execute (target_pguri specs) query ;;
      ret true.

(** *** copydb_target_prepare_namespaces *)

(** [CREATE SCHEMA IF NOT EXISTS "%s";] *)
Definition fmt_create_schema (nsp : string) : string :=
  "CREATE SCHEMA IF NOT EXISTS " +:+ dquote +:+ nsp +:+ dquote +:+ ";".

Fixpoint prepare_namespaces_loop
  (array : list SourceFilterSchema) (query : string) : string :=
  match array with
  | [] => query
  | schema :: rest =>
      prepare_namespaces_loop rest
        (query +:+ fmt_create_schema (filter_nspname schema))
  end.

Definition copydb_target_prepare_namespaces (specs : CopyDataSpec) : M World bool :=
  let query :=
    prepare_namespaces_loop (includeOnlySchemaList (filters specs)) EmptyString in
  (* memory allocation could have failed while building string *)
  isBroken <- broken query ;;
  if isBroken then ret false
  else
    check pgsql_init (target_pguri specs) ;;
    check pgsql_execute (target_pguri specs) query ;;
    ret true.

(** *** copydb_write_restore_list *)

(** [%s%d; %u %u %s %s\n] *)
Definition fmt_list_item (prefix : string) (item : ArchiveContentItem) : string :=
  prefix +:+ pretty (dumpId item) +:+ "; " +:+
  pretty (catalogOid item) +:+ " " +:+ pretty (objectOid item) +:+ " " +:+
  desc item +:+ " " +:+ restoreListName item +:+ newline.

(** for each object in the list, comment when we already processed it *)
Fixpoint write_restore_list_loop
  (specs : CopyDataSpec) (array : list ArchiveContentItem) (listContents : string)
  : M World string :=
  match array with
  | [] => ret listContents
  | item :: rest =>
      let o := objectOid item in
      let name := restoreListName item in
      processed <- copydb_objectid_has_been_processed_already specs o ;;
      prefix <- (if processed then ret ";"
                 else
                   filtered <- copydb_objectid_is_filtered_out specs o name ;;
                   if filtered then ret ";" else ret EmptyString) ;;
      write_restore_list_loop specs rest (listContents +:+ fmt_list_item prefix item)
  end.

Definition copydb_write_restore_list
  (specs : CopyDataSpec) (section : PostgresDumpSection) : M World bool :=
  let names :=
    match section with
    | PG_DUMP_SECTION_PRE_DATA =>
        Some (preFilename (dumpPaths specs), preListFilename (dumpPaths specs))
    | PG_DUMP_SECTION_POST_DATA =>
        Some (postFilename (dumpPaths specs), postListFilename (dumpPaths specs))
    | _ => None
    end in
  match names with
  | None => ret false
  | Some (dumpFilename, listFilename) =>
      contents <- pg_restore_list dumpFilename ;;
      match contents with
      | None => ret false
      | Some contents =>
          (* edit our post.list file now *)
          check (fun w => (createPQExpBuffer_ok env w, w)) ;;
          listContents <- write_restore_list_loop specs contents EmptyString ;;
          (* memory allocation could have failed while building string *)
          isBroken <- broken listContents ;;
          if isBroken then ret false
          else
            check write_file listContents listFilename ;;
            ret true
      end
  end.

(** *** copydb_target_prepare_schema *)

Definition copydb_target_prepare_schema (specs : CopyDataSpec) : M World bool :=
  check file_exists (preFilename (dumpPaths specs)) ;;
  skip <- file_exists (preDataRestore (done (cfPaths specs))) ;;
  if skip then ret true
  else
    listed <- copydb_write_restore_list specs PG_DUMP_SECTION_PRE_DATA ;;
    if negb listed then ret true
    else
      check (if dropIfExists (restoreOptions specs)
             then copydb_target_drop_tables specs
             else ret true) ;;
      check (if Nat.ltb 0 (length (includeOnlySchemaList (filters specs)))
             then copydb_target_prepare_namespaces specs
             else ret true) ;;
      check pg_restore_db (preFilename (dumpPaths specs))
                          (preListFilename (dumpPaths specs)) ;;
      (* now write the doneFile to keep track *)
      check write_file EmptyString (preDataRestore (done (cfPaths specs))) ;;
      ret true.

(** *** copydb_target_finalize_schema *)

Definition copydb_target_finalize_schema (specs : CopyDataSpec) : M World bool :=
  check file_exists (postFilename (dumpPaths specs)) ;;
  skip <- file_exists (postDataRestore (done (cfPaths specs))) ;;
  if skip then ret true
  else
    listed <- copydb_write_restore_list specs PG_DUMP_SECTION_POST_DATA ;;
    if negb listed then ret true
    else
      check pg_restore_db (postFilename (dumpPaths specs))
                          (postListFilename (dumpPaths specs)) ;;
      (* now write the doneFile to keep track *)
      check write_file EmptyString (postDataRestore (done (cfPaths specs))) ;;
      ret true.

End Driver.

(** *** Vocabulary of the properties *)

(** The events a call added to the trace. *)
Definition new_events (w w' : World) : list Event :=
  drop (length (trace w)) (trace w').

Definition is_restore (e : Event) : bool :=
  match e with EvPgRestore _ _ => true | _ => false end.

Definition is_dump (e : Event) : bool :=
  match e with EvPgDump _ _ => true | _ => false end.

(** The events that come before the first call of the restorer. *)
Fixpoint before_restore (evs : list Event) : list Event :=
  match evs with
  | [] => []
  | e :: rest => if is_restore e then [] else e :: before_restore rest
  end.

(** The SQL statements sent to the database [pguri], in order. *)
Fixpoint sql_issued (pguri : string) (evs : list Event) : list string :=
  match evs with
  | [] => []
  | EvSqlExecute uri sql :: rest =>
      if String.eqb uri pguri then sql :: sql_issued pguri rest
      else sql_issued pguri rest
  | _ :: rest => sql_issued pguri rest
  end.

Definition is_drop_table (sql : string) : bool :=
  String.prefix "DROP TABLE IF EXISTS" sql.

Definition is_create_schema (sql : string) : bool :=
  String.prefix "CREATE SCHEMA IF NOT EXISTS" sql.

Definition marker_exists (w : World) (path : string) : Prop :=
  is_Some (files w !! path).

Fixpoint concat_strings (l : list string) : string :=
  match l with
  | [] => EmptyString
  | s :: rest => s +:+ concat_strings rest
  end.

(** The statement the claim describes: the tables of the run, each qualified
    by its schema and double-quoted, separated by commas, between
    [DROP TABLE IF EXISTS] and [CASCADE].  The white space is the one the
    format strings of the code give: two spaces before the first table, one
    after each comma, none before [CASCADE], which follows the closing quote
    of the last table. *)
Definition quoted_table (t : SourceTable) : string :=
  dquote +:+ nspname t +:+ dquote +:+ "." +:+ dquote +:+ relname t +:+ dquote.

Fixpoint comma_separated (l : list string) : string :=
  match l with
  | [] => EmptyString
  | [s] => s
  | s :: rest => s +:+ ", " +:+ comma_separated rest
  end.

Definition drop_statement (tables : list SourceTable) : string :=
  "DROP TABLE IF EXISTS  " +:+ comma_separated (map quoted_table tables) +:+ "CASCADE".

(** The statement the claim describes for one schema of the inclusion
    filter: [CREATE SCHEMA IF NOT EXISTS], the name of the schema between
    double quotes, and a semicolon. *)
Definition create_schema_statement (schema : SourceFilterSchema) : string :=
  "CREATE SCHEMA IF NOT EXISTS "
  +:+ String (ascii_of_nat 34) (filter_nspname schema
  +:+ String (ascii_of_nat 34) ";").

(** The statements of the schemas of the inclusion filter, one after the
    other in a single query. *)
Definition create_schema_statements (schemas : list SourceFilterSchema) : string :=
  concat_strings (map create_schema_statement schemas).

(** The done-marker of the index or constraint [o], in the index work
    directory. *)
Definition done_marker_path (specs : CopyDataSpec) (o : N) : string :=
  idxdir (cfPaths specs) +:+ "/" +:+ pretty o +:+ ".done".

(** An entry of the include-list is commented out when its object has a
    done-marker or the filters leave it out. *)
Definition entry_is_commented
  (env : Env) (specs : CopyDataSpec) (w : World) (item : ArchiveContentItem) : bool :=
  fst (copydb_objectid_has_been_processed_already specs (objectOid item) w)
  || copydb_objectid_is_filtered_out_res env specs (objectOid item) (restoreListName item).

(** The line of an entry as such: its five fields. *)
Definition verbatim_line (item : ArchiveContentItem) : string :=
  pretty (dumpId item) +:+ "; " +:+
  pretty (catalogOid item) +:+ " " +:+ pretty (objectOid item) +:+ " " +:+
  desc item +:+ " " +:+ restoreListName item +:+ newline.

Definition expected_line
  (env : Env) (specs : CopyDataSpec) (w : World) (item : ArchiveContentItem) : string :=
  if entry_is_commented env specs w item
  then ";" +:+ verbatim_line item
  else verbatim_line item.

Definition section_files (specs : CopyDataSpec) (section : PostgresDumpSection)
  : option (string * string) :=
  match section with
  | PG_DUMP_SECTION_PRE_DATA =>
      Some (preFilename (dumpPaths specs), preListFilename (dumpPaths specs))
  | PG_DUMP_SECTION_POST_DATA =>
      Some (postFilename (dumpPaths specs), postListFilename (dumpPaths specs))
  | _ => None
  end.

(** What [copydb_write_restore_list] does once the restorer has listed the
    archive. *)
Definition write_restore_list_result
  (env : Env) (specs : CopyDataSpec) (w : World)
  (dumpFilename listFilename : string) (contents : list ArchiveContentItem)
  : bool * World :=
  let w1 := {| files := files w;
               trace := trace w ++ [EvPgRestoreList dumpFilename] |} in
  let buf := concat_strings (map (expected_line env specs w) contents) in
  if createPQExpBuffer_ok env w1
  then if PQExpBufferBroken env w1 buf then (false, w1)
       else if write_file_ok env w1 buf listFilename
            then (true, {| files := <[listFilename := buf]> (files w1);
                           trace := trace w1 ++ [EvWriteFile listFilename buf] |})
            else (false, w1)
  else (false, w1).

Definition restore_invoked (w w' : World) : Prop :=
  existsb is_restore (new_events w w') = true.

(** The include-list the code writes for the archive [dumpFilename], when the
    restorer can list it. *)
Definition include_list (env : Env) (specs : CopyDataSpec) (w : World)
  (dumpFilename : string) : string :=
  match pg_restore_list_out env w dumpFilename with
  | Some contents => concat_strings (map (expected_line env specs w) contents)
  | None => EmptyString
  end.

(** The world in which a restore unit that went from [w] to [w'] called the
    restorer: the include-list [lines] is in [listFilename], and the actions
    the unit took before the restorer are in the trace. *)
Definition world_at_restore (w w' : World) (listFilename lines : string) : World :=
  {| files := <[listFilename := lines]> (files w);
     trace := trace w ++ before_restore (new_events w w') |}.

Fixpoint keep (p : string -> bool) (l : list string) : list string :=
  match l with
  | [] => []
  | s :: rest => if p s then s :: keep p rest else keep p rest
  end.

(** The [DROP TABLE] statements sent to the target before the restorer runs. *)
Definition drops_before_restore (specs : CopyDataSpec) (w w' : World) : list string :=
  keep is_drop_table
    (sql_issued (target_pguri specs) (before_restore (new_events w w'))).

(** The [CREATE SCHEMA] statements sent to the target before the restorer
    runs. *)
Definition creates_before_restore (specs : CopyDataSpec) (w w' : World) : list string :=
  keep is_create_schema
    (sql_issued (target_pguri specs) (before_restore (new_events w w'))).

(** The claim on [--drop-if-exists], as it is worded: whenever the pre-data
    restore is invoked, exactly one statement listing every table went before
    it if the option is set, and none if it is not. *)
Definition drop_if_exists_as_stated
  (env : Env) (specs : CopyDataSpec) (w : World) : Prop :=
  let w' := snd (copydb_target_prepare_schema env specs w) in
  restore_invoked w w' ->
  drops_before_restore specs w w'
  = if dropIfExists (restoreOptions specs)
    then [drop_statement (sourceTableArray specs)]
    else [].

(** The SQL the target receives before the restorer runs: the statement of
    [--drop-if-exists] when there are tables to drop, then the schemas of the
    inclusion filter when there are any. *)
Definition expected_sql_before_restore (specs : CopyDataSpec) : list string :=
  (if dropIfExists (restoreOptions specs)
      && negb (Nat.eqb (length (sourceTableArray specs)) 0)
   then [drop_statement (sourceTableArray specs)] else [])
  ++ (if Nat.ltb 0 (length (includeOnlySchemaList (filters specs)))
      then [create_schema_statements (includeOnlySchemaList (filters specs))]
      else []).

(** The gate of a dump unit [run], whose external tool is [pg_dump] of
    [toolSection] into [dumpFilename]:
    - with the marker there, the dumper is not run, the marker is written
      again and the unit succeeds exactly when that write does;
    - without it, a failure of the dumper fails the unit; a unit that succeeds
      wrote the marker as its last action; a unit that fails leaves no
      marker. *)
Definition dump_unit_gated
  (env : Env) (w : World) (run : World -> bool * World)
  (toolSection dumpFilename marker : string) : Prop :=
  let r := fst (run w) in
  let w' := snd (run w) in
  (marker_exists w marker ->
     existsb is_dump (new_events w w') = false
     /\ r = write_file_ok env w EmptyString marker)
  /\ (~ marker_exists w marker ->
        (pg_dump_db_ok env w toolSection dumpFilename = false -> r = false)
        /\ (r = true ->
              last (trace w') = Some (EvWriteFile marker EmptyString)
              /\ marker_exists w' marker)
        /\ (r = false -> ~ marker_exists w' marker)).

(** The marker of a restore unit [run] that restores [dumpFilename]:
    - without the dump file the unit fails at once;
    - with the dump file and the marker there, it succeeds at once;
    - when it ran the restorer and succeeds, it wrote the marker as its last
      action;
    - when it fails, it leaves no marker. *)
Definition restore_unit_marker
  (w : World) (run : World -> bool * World) (dumpFilename marker : string) : Prop :=
  let r := fst (run w) in
  let w' := snd (run w) in
  (~ marker_exists w dumpFilename -> run w = (false, w))
  /\ (marker_exists w dumpFilename -> marker_exists w marker -> run w = (true, w))
  /\ (restore_invoked w w' -> r = true ->
        last (trace w') = Some (EvWriteFile marker EmptyString)
        /\ marker_exists w' marker)
  /\ (~ marker_exists w marker -> r = false -> ~ marker_exists w' marker).

(** A restore unit [run] whose restorer fails, fails: when the unit called the
    restorer on [dumpFilename] and [listFilename] and the restorer failed
    there, the unit returns failure and that call is its last action. *)
Definition restore_unit_fails_with_restorer
  (env : Env) (specs : CopyDataSpec) (w : World) (run : World -> bool * World)
  (dumpFilename listFilename : string) : Prop :=
  let w' := snd (run w) in
  restore_invoked w w' ->
  pg_restore_db_ok env
    (world_at_restore w w' listFilename (include_list env specs w dumpFilename))
    dumpFilename listFilename = false ->
  fst (run w) = false
  /\ last (trace w') = Some (EvPgRestore dumpFilename listFilename).

(** The gate of a restore unit: its marker, and the failure of its
    restorer. *)
Definition restore_unit_gated
  (env : Env) (specs : CopyDataSpec) (w : World) (run : World -> bool * World)
  (dumpFilename listFilename marker : string) : Prop :=
  restore_unit_marker w run dumpFilename marker
  /\ restore_unit_fails_with_restorer env specs w run dumpFilename listFilename.

(** The claim on the gate, as it is worded: a unit whose marker exists skips
    the work, running neither the dumper nor the restorer, and returns
    success. *)
Definition marker_gate_as_stated
  (w : World) (run : World -> bool * World) (marker : string) : Prop :=
  marker_exists w marker ->
  fst (run w) = true
  /\ existsb is_dump (new_events w (snd (run w))) = false
  /\ existsb is_restore (new_events w (snd (run w))) = false.

(** *** A work directory and outside worlds to run the code on *)

Definition example_paths : CopyFilePaths :=
  {| idxdir := "/w/run/indexes";
     done := {| preDataDump := "/w/run/done/pre-data-dump";
                postDataDump := "/w/run/done/post-data-dump";
                preDataRestore := "/w/run/done/pre-data-restore";
                postDataRestore := "/w/run/done/post-data-restore" |} |}.

Definition example_dump_paths : DumpPaths :=
  {| preFilename := "/w/schema/pre.dump";
     postFilename := "/w/schema/post.dump";
     preListFilename := "/w/schema/pre.list";
     postListFilename := "/w/schema/post.list" |}.

Definition example_specs
  (drop : bool) (tables : list SourceTable) (schemas : list SourceFilterSchema)
  : CopyDataSpec :=
  {| cfPaths := example_paths;
     dumpPaths := example_dump_paths;
     source_pguri := "postgres://source/db";
     target_pguri := "postgres://target/db";
     filters := {| includeOnlySchemaList := schemas |};
     restoreOptions := {| dropIfExists := drop |};
     sourceTableArray := tables |}.

Definition example_tables : list SourceTable :=
  [ {| oid := 16384; nspname := "public"; relname := "t1" |};
    {| oid := 16390; nspname := "app"; relname := "t2" |} ].

Definition example_schemas : list SourceFilterSchema :=
  [ {| filter_nspname := "app" |}; {| filter_nspname := "audit" |} ].

Definition example_contents : list ArchiveContentItem :=
  [ {| dumpId := 215; catalogOid := 1259; objectOid := 16384;
       desc := "TABLE"; restoreListName := "public t1 owner" |};
    {| dumpId := 3310; catalogOid := 2606; objectOid := 16401;
       desc := "CONSTRAINT"; restoreListName := "public t1 t1_pkey owner" |};
    {| dumpId := 3311; catalogOid := 1259; objectOid := 16403;
       desc := "INDEX"; restoreListName := "secret idx owner" |} ].

(** Every external action succeeds; the filters leave out object 16403. *)
Definition env_ok : Env :=
  {| pg_dump_db_ok := fun _ _ _ => true;
     pg_restore_list_out := fun _ _ => Some example_contents;
     pg_restore_db_ok := fun _ _ _ => true;
     pgsql_init_ok := fun _ _ => true;
     pgsql_execute_ok := fun _ _ _ => true;
     write_file_ok := fun _ _ _ => true;
     createPQExpBuffer_ok := fun _ => true;
     PQExpBufferBroken := fun _ _ => false;
     copydb_objectid_is_filtered_out_res := fun _ o _ => N.eqb o 16403 |}.

(** As [env_ok], but the work directory cannot be written to. *)
Definition env_write_fails : Env :=
  {| pg_dump_db_ok := fun _ _ _ => true;
     pg_restore_list_out := fun _ _ => Some example_contents;
     pg_restore_db_ok := fun _ _ _ => true;
     pgsql_init_ok := fun _ _ => true;
     pgsql_execute_ok := fun _ _ _ => true;
     write_file_ok := fun _ _ _ => false;
     createPQExpBuffer_ok := fun _ => true;
     PQExpBufferBroken := fun _ _ => false;
     copydb_objectid_is_filtered_out_res := fun _ o _ => N.eqb o 16403 |}.

(** As [env_ok], but the external dumper and restorer fail. *)
Definition env_tools_fail : Env :=
  {| pg_dump_db_ok := fun _ _ _ => false;
     pg_restore_list_out := fun _ _ => Some example_contents;
     pg_restore_db_ok := fun _ _ _ => false;
     pgsql_init_ok := fun _ _ => true;
     pgsql_execute_ok := fun _ _ _ => true;
     write_file_ok := fun _ _ _ => true;
     createPQExpBuffer_ok := fun _ => true;
     PQExpBufferBroken := fun _ _ => false;
     copydb_objectid_is_filtered_out_res := fun _ o _ => N.eqb o 16403 |}.

(** A work directory that holds the given files, before anything happened. *)
Definition world_with (paths : list string) : World :=
  {| files := list_to_map (map (fun p => (p, EmptyString)) paths);
     trace := [] |}.

(** *** More vocabulary: files, orders of actions, resuming *)

(** Every file of [w] is still there in [w']. *)
Definition files_kept (w w' : World) : Prop :=
  forall p, marker_exists w p -> marker_exists w' p.

(** The actions of the pre-data restore, in the order the code takes them. *)
Definition prepare_schema_sequence (specs : CopyDataSpec) (lines : string)
  : list Event :=
  [EvPgRestoreList (preFilename (dumpPaths specs));
   EvWriteFile (preListFilename (dumpPaths specs)) lines]
  ++ map (EvSqlExecute (target_pguri specs)) (expected_sql_before_restore specs)
  ++ [EvPgRestore (preFilename (dumpPaths specs)) (preListFilename (dumpPaths specs));
      EvWriteFile (preDataRestore (done (cfPaths specs))) EmptyString].

Definition finalize_schema_sequence (specs : CopyDataSpec) (lines : string)
  : list Event :=
  [EvPgRestoreList (postFilename (dumpPaths specs));
   EvWriteFile (postListFilename (dumpPaths specs)) lines;
   EvPgRestore (postFilename (dumpPaths specs)) (postListFilename (dumpPaths specs));
   EvWriteFile (postDataRestore (done (cfPaths specs))) EmptyString].

(** The done-markers of the units a section is made of. *)
Definition section_markers (specs : CopyDataSpec) (section : PostgresDumpSection)
  : list string :=
  match section with
  | PG_DUMP_SECTION_SCHEMA | PG_DUMP_SECTION_ALL =>
      [preDataDump (done (cfPaths specs)); postDataDump (done (cfPaths specs))]
  | PG_DUMP_SECTION_PRE_DATA => [preDataDump (done (cfPaths specs))]
  | PG_DUMP_SECTION_POST_DATA => [postDataDump (done (cfPaths specs))]
  | PG_DUMP_SECTION_OTHER => []
  end.

(** As [env_ok], but the target refuses every SQL statement. *)
Definition env_sql_fails : Env :=
  {| pg_dump_db_ok := fun _ _ _ => true;
     pg_restore_list_out := fun _ _ => Some example_contents;
     pg_restore_db_ok := fun _ _ _ => true;
     pgsql_init_ok := fun _ _ => true;
     pgsql_execute_ok := fun _ _ _ => false;
     write_file_ok := fun _ _ _ => true;
     createPQExpBuffer_ok := fun _ => true;
     PQExpBufferBroken := fun _ _ => false;
     copydb_objectid_is_filtered_out_res := fun _ o _ => N.eqb o 16403 |}.

End DumpRestore.

(** ** extensions.c *)

Module Extensions.

Record SourceExtensionConfig := {
  nspname : string;
  relname : string;
  condition : string
}.

Record SourceExtension := {
  extname : string;
  config : list SourceExtensionConfig
}.

(** The fields of [CopyDataSpec] this file reads. *)
Record CopyDataSpec := {
  skipExtensions : bool;
  target_pguri : string;
  extensionArray : list SourceExtension
}.

Inductive Event :=
| EvFflush
| EvFork
| EvSqlExecute (sql : string)
| EvPgCopy (sql qname : string) (truncate : bool)
| EvPgsqlFinish.

(** What a call does to the process that runs it: it returns to its caller, or
    the process terminates in [exit]. *)
Inductive Outcome :=
| Returns (b : bool)
| Exits (code : Z).

Record Env := {
  fork_result : list Event -> Z;
  pgsql_init_ok : list Event -> string -> bool;
  pgsql_execute_ok : list Event -> string -> bool;
  pg_copy_ok : list Event -> string -> string -> bool
}.

(** Exit codes, as the spec's table of exit codes gives them. *)
Definition EXIT_CODE_QUIT : Z := 0.
Definition EXIT_CODE_INTERNAL_ERROR : Z := 12.

Definition BUFSIZE : nat := 1024.
Definition NAMEDATALEN : nat := 64.

Section Copier.

Variable env : Env.

Definition emit (e : Event) : M (list Event) unit :=
  fun tr => (tt, tr ++ [e]).

Definition fork : M (list Event) Z :=
  fun tr => (fork_result env tr, tr ++ [EvFork]).

Definition pgsql_init (pguri : string) : M (list Event) bool :=
  fun tr => (pgsql_init_ok env tr pguri, tr).

Definition pgsql_execute (sql : string) : M (list Event) bool :=
  fun tr => (pgsql_execute_ok env tr sql, tr ++ [EvSqlExecute sql]).

Definition pg_copy (sql qname : string) (truncate : bool) : M (list Event) bool :=
  fun tr => (pg_copy_ok env tr sql qname, tr ++ [EvPgCopy sql qname truncate]).

Definition sformat (size : nat) (s : string) : string :=
  String.substring 0 (size - 1) s.

Definition dquote : string := String (ascii_of_nat 34) EmptyString.

(** The inner [for] loop over [ext->config.array]; [false] is the
    [return false] that leaves the whole function. *)
Fixpoint copy_config_loop (array : list SourceExtensionConfig) : M (list Event) bool :=
  match array with
  | [] => ret true
  | config :: rest =>
      (* apply extcondition to the source table *)
      let qname :=
        sformat (NAMEDATALEN * 2 + 5)
          (dquote +:+ nspname config +:+ dquote +:+ "." +:+
           dquote +:+ relname config +:+ dquote) in
      let sql := "(SELECT * FROM " +:+ qname +:+ " " +:+ condition config +:+ ")" in
      let truncate := false in
      check pg_copy sql qname truncate ;;
      copy_config_loop rest
  end.

(** The outer [for] loop; the result is [None] after a [return false] and the
    count of errors otherwise. *)
Fixpoint copy_extensions_loop
  (createExtensions : bool) (array : list SourceExtension) (errors : nat)
  : M (list Event) (option nat) :=
  match array with
  | [] => ret (Some errors)
  | ext :: rest =>
      errors <- (if createExtensions
                 then
                   let sql :=
                     sformat BUFSIZE
                       ("create extension if not exists " +:+ dquote +:+
                        extname ext +:+ dquote +:+ " cascade") in
                   ok <- pgsql_execute sql ;;
                   if ok then ret errors else ret (S errors)
                 else ret errors) ;;
      (* do we have to take care of extensions config table? *)
      copied <- (if Nat.ltb 0 (length (config ext))
                 then copy_config_loop (config ext)
                 else ret true) ;;
      if copied then copy_extensions_loop createExtensions rest errors
      else ret None
  end.

Definition copydb_copy_extensions
  (copySpecs : CopyDataSpec) (createExtensions : bool) : M (list Event) bool :=
  check pgsql_init (target_pguri copySpecs) ;;
  res <- copy_extensions_loop createExtensions (extensionArray copySpecs) 0 ;;
  match res with
  | None => ret false
  | Some errors =>
      _ <- emit EvPgsqlFinish ;;
      ret (Nat.eqb errors 0)
  end.

Definition copydb_start_extension_data_process
  (specs : CopyDataSpec) : M (list Event) Outcome :=
  if skipExtensions specs then ret (Returns true)
  else
    (* Flush stdio channels just before fork, to avoid double-output problems. *)
    _ <- emit EvFflush ;;
    _ <- emit EvFflush ;;
    fpid <- fork ;;
    if Z.eqb fpid (-1) then ret (Returns false)
    else if Z.eqb fpid 0
    then
      (* child process runs the command *)
      let createExtensions := false in
      ok <- copydb_copy_extensions specs createExtensions ;;
      if ok then ret (Exits EXIT_CODE_QUIT)
      else ret (Exits EXIT_CODE_INTERNAL_ERROR)
    else
      (* fork succeeded, in parent: we want async behavior, do not wait *)
      ret (Returns true).

End Copier.

(** *** A run to try the code on *)

Definition example_specs : CopyDataSpec :=
  {| skipExtensions := false;
     target_pguri := "postgres://target/db";
     extensionArray :=
       [ {| extname := "postgis";
            config := [ {| nspname := "public"; relname := "spatial_ref_sys";
                           condition := "WHERE srid > 900000" |} ] |} ] |}.

(** The fork succeeds with the given result and the copy of every
    configuration table fails. *)
Definition env_copy_fails (fpid : Z) : Env :=
  {| fork_result := fun _ => fpid;
     pgsql_init_ok := fun _ _ => true;
     pgsql_execute_ok := fun _ _ => true;
     pg_copy_ok := fun _ _ _ => false |}.

(** *** More vocabulary: what the copy does *)

(** The qualified name of a configuration table, double-quoted. *)
Definition quoted_name (c : SourceExtensionConfig) : string :=
  dquote +:+ nspname c +:+ dquote +:+ "." +:+ dquote +:+ relname c +:+ dquote.

(** The copy of one configuration table: the rows its condition selects, into
    the table of the same name, which is not truncated. *)
Definition config_copy (c : SourceExtensionConfig) : Event :=
  let qname := sformat (NAMEDATALEN * 2 + 5) (quoted_name c) in
  EvPgCopy ("(SELECT * FROM " +:+ qname +:+ " " +:+ condition c +:+ ")") qname false.

Definition create_extension_sql (ext : SourceExtension) : string :=
  sformat BUFSIZE
    ("create extension if not exists " +:+ dquote +:+ extname ext +:+ dquote +:+
     " cascade").

Definition is_sql (e : Event) : bool :=
  match e with EvSqlExecute _ => true | _ => false end.

Definition is_finish (e : Event) : bool :=
  match e with EvPgsqlFinish => true | _ => false end.

(** Whether every copy among the events [evs], which follow the trace [tr],
    succeeded when it was attempted. *)
Fixpoint copies_succeed (env : Env) (tr evs : list Event) : bool :=
  match evs with
  | [] => true
  | e :: rest =>
      match e with
      | EvPgCopy sql qname _ => pg_copy_ok env tr sql qname
      | _ => true
      end && copies_succeed env (tr ++ [e]) rest
  end.

(** The events [evs], which follow the trace [tr], end with a copy that
    failed, and every copy before it succeeded. *)
Definition stopped_at_failed_copy (env : Env) (tr evs : list Event) : Prop :=
  exists done sql qname,
    evs = done ++ [EvPgCopy sql qname false]
    /\ copies_succeed env tr done = true
    /\ pg_copy_ok env (tr ++ done) sql qname = false.

(** The copy of a configuration table under its whole name: nothing of the
    quoted name is cut off. *)
Definition whole_copy (c : SourceExtensionConfig) : Event :=
  EvPgCopy ("(SELECT * FROM " +:+ quoted_name c +:+ " " +:+ condition c +:+ ")")
    (quoted_name c) false.

(** Both names of the table are shorter than [NAMEDATALEN], as the names of
    a Postgres catalog are. *)
Definition short_names (c : SourceExtensionConfig) : Prop :=
  String.length (nspname c) < NAMEDATALEN /\ String.length (relname c) < NAMEDATALEN.

(** The connection opens, every [create extension] fails and every copy
    succeeds. *)
Definition env_creates_fail : Env :=
  {| fork_result := fun _ => 0%Z;
     pgsql_init_ok := fun _ _ => true;
     pgsql_execute_ok := fun _ _ => false;
     pg_copy_ok := fun _ _ _ => true |}.

End Extensions.

(** ** ld_replay.c *)

Module LdReplay.

Local Open Scope Z_scope.

Definition XLogRecPtr := Z.
Definition InvalidXLogRecPtr : XLogRecPtr := 0.

Definition uint64_modulus : Z := 2 ^ 64.

(** Subtraction of two [uint64_t]. *)
Definition uint64_sub (a b : Z) : Z := (a - b) mod uint64_modulus.

(** The actions of a logical message.  The enumeration lives in a header; the
    code names nine of its values and sends every other one to the [default]
    branch. *)
Inductive StreamAction :=
| STREAM_ACTION_UNKNOWN
| STREAM_ACTION_BEGIN
| STREAM_ACTION_COMMIT
| STREAM_ACTION_INSERT
| STREAM_ACTION_UPDATE
| STREAM_ACTION_DELETE
| STREAM_ACTION_TRUNCATE
| STREAM_ACTION_MESSAGE
| STREAM_ACTION_SWITCH
| STREAM_ACTION_KEEPALIVE
| STREAM_ACTION_ENDPOS.

Record LogicalMessageMetadata := {
  action : StreamAction;
  xid : Z;
  lsn : XLogRecPtr;
  txnCommitLSN : XLogRecPtr
}.

(** The fields of [StreamSpecs] this file reads. *)
Record StreamSpecs := {
  stdIn : bool;
  system_timeline : Z;
  WalSegSz : Z;
  specs_endpos : XLogRecPtr
}.

(** The fields of [StreamApplyContext] this file reads or writes, and the
    ones the helpers it calls keep the replay progress in.  The LSN and
    [sentinelSyncTime] are [uint64_t]. *)
Record StreamApplyContext := {
  ctx_timeline : Z;
  ctx_WalSegSz : Z;
  apply : bool;
  endpos : XLogRecPtr;
  previousLSN : XLogRecPtr;
  replay_lsn : XLogRecPtr;
  reachedStartPos : bool;
  reachedEndPos : bool;
  sentinelQueryInProgress : bool;
  sentinelSyncTime : Z
}.

(** [ReplayStreamCtx ctx = { 0 }] *)
Definition zero_context : StreamApplyContext :=
  {| ctx_timeline := 0; ctx_WalSegSz := 0; apply := false;
     endpos := 0; previousLSN := 0; replay_lsn := 0;
     reachedStartPos := false; reachedEndPos := false;
     sentinelQueryInProgress := false; sentinelSyncTime := 0 |}.

Definition set_system (c : StreamApplyContext) (tl segsz : Z) : StreamApplyContext :=
  {| ctx_timeline := tl; ctx_WalSegSz := segsz; apply := apply c;
     endpos := endpos c; previousLSN := previousLSN c; replay_lsn := replay_lsn c;
     reachedStartPos := reachedStartPos c; reachedEndPos := reachedEndPos c;
     sentinelQueryInProgress := sentinelQueryInProgress c;
     sentinelSyncTime := sentinelSyncTime c |}.

Definition set_reachedEndPos (c : StreamApplyContext) (b : bool) : StreamApplyContext :=
  {| ctx_timeline := ctx_timeline c; ctx_WalSegSz := ctx_WalSegSz c; apply := apply c;
     endpos := endpos c; previousLSN := previousLSN c; replay_lsn := replay_lsn c;
     reachedStartPos := reachedStartPos c; reachedEndPos := b;
     sentinelQueryInProgress := sentinelQueryInProgress c;
     sentinelSyncTime := sentinelSyncTime c |}.

(** The calls the applier makes, in order. *)
Inductive Event :=
| EvWaitForSentinel
| EvReadContext
| EvSetupReplicationOrigin
| EvPgsqlInit
| EvReadLine
| EvApplySql (a : StreamAction) (line : string)
| EvFetchSyncSentinel
| EvSendSyncSentinel (now : Z)
| EvSleep (usec : Z)
| EvPgsqlFinish
| EvSyncSentinel (lsn : XLogRecPtr).

Inductive ReadResult :=
| ReadLine (line : string)
| ReadEOF
| ReadError.

(** The helpers of other files and of the system, over a state [X] of the
    outside world (the pipe, the clock, the two databases).  As in C, a helper
    returns its [bool] and leaves its changes in the context. *)
Record Helpers (X : Type) := {
  stream_apply_wait_for_sentinel :
    StreamSpecs -> StreamApplyContext -> X -> bool * StreamApplyContext * X;
  stream_read_context : StreamSpecs -> X -> bool * StreamSpecs * X;
  setupReplicationOrigin :
    StreamSpecs -> StreamApplyContext -> X -> bool * StreamApplyContext * X;
  pgsql_init : StreamApplyContext -> X -> bool * X;
  read_line : X -> ReadResult * X;
  parseSQLAction : string -> option LogicalMessageMetadata;
  stream_apply_sql :
    LogicalMessageMetadata -> string -> StreamApplyContext -> X ->
    bool * StreamApplyContext * X;
  time : X -> Z;
  stream_apply_fetch_sync_sentinel :
    StreamApplyContext -> X -> bool * StreamApplyContext * X;
  stream_apply_send_sync_sentinel :
    StreamApplyContext -> X -> bool * StreamApplyContext * X;
  stream_apply_sync_sentinel :
    StreamApplyContext -> X -> bool * StreamApplyContext * X;
  pgsql_finish : X -> X;
  pg_usleep : Z -> X -> X
}.

Arguments stream_apply_wait_for_sentinel {X}.
Arguments stream_read_context {X}.
Arguments setupReplicationOrigin {X}.
Arguments pgsql_init {X}.
Arguments read_line {X}.
Arguments parseSQLAction {X}.
Arguments stream_apply_sql {X}.
Arguments time {X}.
Arguments stream_apply_fetch_sync_sentinel {X}.
Arguments stream_apply_send_sync_sentinel {X}.
Arguments stream_apply_sync_sentinel {X}.
Arguments pgsql_finish {X}.
Arguments pg_usleep {X}.

Record RState (X : Type) := {
  context : StreamApplyContext;
  outside : X;
  events : list Event
}.

Arguments context {X}.
Arguments outside {X}.
Arguments events {X}.

Section Applier.

Context {X : Type}.
Variable H : Helpers X.

Local Abbreviation St := (RState X).

(** Call a helper that works on the context. *)
Definition call
  (h : StreamApplyContext -> X -> bool * StreamApplyContext * X) (e : Event)
  : M St bool :=
  fun st =>
    let '(ok, c, x) := h (context st) (outside st) in
    (ok, {| context := c; outside := x; events := events st ++ [e] |}).

(** Act on the outside world only. *)
Definition act (f : X -> X) (e : Event) : M St unit :=
  fun st =>
    (tt, {| context := context st; outside := f (outside st);
            events := events st ++ [e] |}).

Definition gets {A} (f : StreamApplyContext -> A) : M St A :=
  fun st => (f (context st), st).

Definition modify (f : StreamApplyContext -> StreamApplyContext) : M St unit :=
  fun st =>
    (tt, {| context := f (context st); outside := outside st; events := events st |}).

(** [uint64_t now = time(NULL)] *)
Definition time_now : M St Z :=
  fun st => (time H (outside st) mod uint64_modulus, st).

Definition is_progress_point (a : StreamAction) : bool :=
  match a with
  | STREAM_ACTION_COMMIT | STREAM_ACTION_KEEPALIVE => true
  | _ => false
  end.

(** [endpos != InvalidXLogRecPtr && endpos <= previousLSN] *)
Definition endpos_reached (c : StreamApplyContext) : bool :=
  negb (Z.eqb (endpos c) InvalidXLogRecPtr) && Z.leb (endpos c) (previousLSN c).

(** *** stream_replay_line

    The result is the returned [bool] and the value left in [*stop]. *)
Definition stream_replay_line (line : string) : M St (bool * bool) :=
  match parseSQLAction H line with
  | None => ret (false, false)
  | Some metadata =>
      applied <- call (stream_apply_sql H metadata line)
                      (EvApplySql (action metadata) line) ;;
      if negb applied then ret (false, false)
      else
        (* update progres on source database when needed *)
        reported <-
          (match action metadata with
           (* these actions are good points when to report progress *)
           | STREAM_ACTION_COMMIT | STREAM_ACTION_KEEPALIVE =>
               now <- time_now ;;
               inProgress <- gets sentinelQueryInProgress ;;
               if inProgress
               then call (stream_apply_fetch_sync_sentinel H) EvFetchSyncSentinel
               else
                 (* rate limit to 1 update per second *)
                 syncTime <- gets sentinelSyncTime ;;
                 if Z.ltb 1 (uint64_sub now syncTime)
                 then call (stream_apply_send_sync_sentinel H) (EvSendSyncSentinel now)
                 else ret true
           (* skip reporting progress in other cases *)
           | _ => ret true
           end) ;;
        if negb reported then ret (false, false)
        else
          (* When syncing with the pgcopydb sentinel we might receive a
             new endpos, and it might mean we're done already. *)
          reached <- gets (fun c => reachedEndPos c || endpos_reached c) ;;
          if reached
          then
            _ <- modify (fun c => set_reachedEndPos c true) ;;
            ret (true, true)
          else ret (true, false)
  end.

(** *** read_from_stream

    Modelled from the spec: [read_from_stream] is not in this file.  It calls
    the callback on each line read from the stream, fails when reading fails
    or when the callback fails, and stops reading when the callback sets
    [*stop] or the stream ends.  The stream may never end: [fuel] bounds the
    number of lines read, and [None] is a run that needs more. *)
Fixpoint read_from_stream (fuel : nat) (st : St) : option (bool * St) :=
  match fuel with
  | O => None
  | S fuel' =>
      let (r, x) := read_line H (outside st) in
      let st1 := {| context := context st; outside := x;
                    events := events st ++ [EvReadLine] |} in
      match r with
      | ReadError => Some (false, st1)
      | ReadEOF => Some (true, st1)
      | ReadLine line =>
          let '((ok, stop), st2) := stream_replay_line line st1 in
          if negb ok then Some (false, st2)
          else if stop then Some (true, st2)
          else read_from_stream fuel' st2
      end
  end.

(** The loop [while (context->sentinelQueryInProgress)]. *)
Fixpoint drain_sentinel_query (fuel : nat) (st : St) : option (bool * St) :=
  if sentinelQueryInProgress (context st)
  then
    match fuel with
    | O => None
    | S fuel' =>
        let (ok, st1) :=
          call (stream_apply_fetch_sync_sentinel H) EvFetchSyncSentinel st in
        if negb ok then Some (false, st1)
        else
          (* sleep 100ms between retries *)
          let (_, st2) := act (pg_usleep H (100 * 1000)) (EvSleep (100 * 1000)) st1 in
          drain_sentinel_query fuel' st2
    end
  else Some (true, st).

(** *** stream_apply_replay *)

(** The part of the function before the input is read: either it returns, or
    it goes on to read with the state it has set up. *)
Inductive Setup :=
| SetupReturns (b : bool) (st : St)
| SetupDone (st : St).

(** The function up to the call of [setupReplicationOrigin]; [false] means
    it has returned [false]. *)
Definition replay_origin (specs : StreamSpecs) (x : X) : bool * St :=
  let st0 := {| context := zero_context; outside := x; events := [] |} in
  if negb (stdIn specs) then (false, st0)
  else
    let (ok, st1) :=
      call (stream_apply_wait_for_sentinel H specs) EvWaitForSentinel st0 in
    if negb ok then (false, st1)
    else
      let '(ok, specs1, st2) :=
        if Z.eqb (system_timeline specs) 0
        then
          let '(ok, specs1, x2) := stream_read_context H specs (outside st1) in
          (ok, specs1, {| context := context st1; outside := x2;
                          events := events st1 ++ [EvReadContext] |})
        else (true, specs, st1) in
      if negb ok then (false, st2)
      else
        let (_, st3) :=
          modify (fun c => set_system c (system_timeline specs1) (WalSegSz specs1)) st2 in
        call (setupReplicationOrigin H specs1) EvSetupReplicationOrigin st3.

Definition replay_setup (specs : StreamSpecs) (x : X) : Setup :=
  let (ok, st4) := replay_origin specs x in
  if negb ok then SetupReturns false st4
  else if negb (Z.eqb (endpos (context st4)) InvalidXLogRecPtr)
          && Z.leb (endpos (context st4)) (previousLSN (context st4))
  then SetupReturns true st4
  else
    let (ok, x5) := pgsql_init H (context st4) (outside st4) in
    let st5 := {| context := context st4; outside := x5;
                  events := events st4 ++ [EvPgsqlInit] |} in
    if negb ok then SetupReturns false st5
    else SetupDone st5.

Definition stream_apply_replay (fuel : nat) (specs : StreamSpecs) (x : X)
  : option (bool * St) :=
  match replay_setup specs x with
  | SetupReturns b st => Some (b, st)
  | SetupDone st =>
      match read_from_stream fuel st with
      | None => None
      | Some (false, st1) => Some (false, st1)
      | Some (true, st1) =>
          (* When we are done reading our input stream and applying changes,
             we might still have a sentinel query in flight. *)
          match drain_sentinel_query fuel st1 with
          | None => None
          | Some (false, st2) => Some (false, st2)
          | Some (true, st2) =>
              (* we might still have to disconnect now *)
              let (_, st3) := act (pgsql_finish H) EvPgsqlFinish st2 in
              (* make sure to send a last round of sentinel update before exit *)
              let (ok, st4) :=
                call (stream_apply_sync_sentinel H)
                     (EvSyncSentinel (replay_lsn (context st3))) st3 in
              if negb ok then Some (false, st4)
              else Some (true, st4)
          end
      end
  end.

End Applier.

(** *** Vocabulary of the properties *)

Definition is_sync_event (e : Event) : bool :=
  match e with EvSyncSentinel _ => true | _ => false end.

Definition is_input_event (e : Event) : bool :=
  match e with EvReadLine | EvApplySql _ _ => true | _ => false end.

(** The claim on the final update, as it is worded: every exit of the applier
    has performed a final synchronous update of the sentinel. *)
Definition final_sync_on_every_exit
  {X} (H : Helpers X) (fuel : nat) (specs : StreamSpecs) (x : X) : Prop :=
  forall r st,
    stream_apply_replay H fuel specs x = Some (r, st) ->
    existsb is_sync_event (events st) = true.

(** [last] is the greatest of the commit-lsn [commits] that are not beyond
    [pos]. *)
Definition greatest_commit_upto (commits : list Z) (pos last : Z) : Prop :=
  In last commits /\ last <= pos /\
  forall c, In c commits -> c <= pos -> c <= last.

(** The commit-lsn [commit] lies beyond the end position of [c]. *)
Definition beyond_endpos (c : StreamApplyContext) (commit : XLogRecPtr) : bool :=
  negb (Z.eqb (endpos c) InvalidXLogRecPtr) && Z.ltb (endpos c) commit.

(** The input is a stream of transactions in the order of their commits:
    every line parses; a BEGIN comes when no transaction is open and carries
    a commit-lsn greater than [prev], the commit-lsn of the transaction
    before; a COMMIT closes the open transaction [txn] at the commit-lsn its
    BEGIN announced. *)
Fixpoint transactions_in_order
  (parse : string -> option LogicalMessageMetadata)
  (prev : XLogRecPtr) (txn : option XLogRecPtr) (lines : list string) : Prop :=
  match lines with
  | [] => True
  | line :: rest =>
      match parse line with
      | None => False
      | Some m =>
          match action m with
          | STREAM_ACTION_BEGIN =>
              txn = None /\ prev < txnCommitLSN m
              /\ transactions_in_order parse prev (Some (txnCommitLSN m)) rest
          | STREAM_ACTION_COMMIT =>
              txn = Some (lsn m)
              /\ transactions_in_order parse (lsn m) None rest
          | _ => transactions_in_order parse prev txn rest
          end
      end
  end.

(** The commit-lsn of the COMMIT lines among [lines], in order. *)
Fixpoint commits_of
  (parse : string -> option LogicalMessageMetadata) (lines : list string)
  : list XLogRecPtr :=
  match lines with
  | [] => []
  | line :: rest =>
      match parse line with
      | Some m =>
          match action m with
          | STREAM_ACTION_COMMIT => lsn m :: commits_of parse rest
          | _ => commits_of parse rest
          end
      | None => commits_of parse rest
      end
  end.

(** What the end position asks of the helpers, which are not in this file.
    [unread x] is what is left of the input, and [applying txn c x] says that
    the helpers are in order, with the transaction of commit-lsn [txn] open
    on the target ([None]: no transaction is open).
    - Reading takes the next line of the input.
    - Replaying a line leaves the input and [endpos] alone.
    - A BEGIN newer than the last applied commit-lsn opens its transaction,
      unless its commit-lsn lies beyond [endpos]: then the transaction is not
      applied and [reachedEndPos] is set.
    - The COMMIT of the open transaction makes its LSN the last applied
      commit-lsn, [previousLSN].
    - No other line, and no sentinel call, changes [previousLSN] or
      [reachedEndPos]; the sentinel calls leave [endpos] as it is. *)
Record helpers_respect_endpos {X} (H : Helpers X)
  (unread : X -> list string)
  (applying : option XLogRecPtr -> StreamApplyContext -> X -> Prop) : Prop := {
  next_line : forall txn c x,
    applying txn c x ->
    applying txn c (snd (read_line H x))
    /\ match fst (read_line H x) with
       | ReadLine line => unread x = line :: unread (snd (read_line H x))
       | ReadEOF => unread x = [] /\ unread (snd (read_line H x)) = []
       | ReadError => True
       end;
  begin_applied : forall m line c x,
    let r := stream_apply_sql H m line c x in
    applying None c x ->
    action m = STREAM_ACTION_BEGIN ->
    previousLSN c < txnCommitLSN m ->
    fst (fst r) = true ->
    unread (snd r) = unread x
    /\ endpos (snd (fst r)) = endpos c
    /\ previousLSN (snd (fst r)) = previousLSN c
    /\ (if beyond_endpos c (txnCommitLSN m)
        then reachedEndPos (snd (fst r)) = true
             /\ applying None (snd (fst r)) (snd r)
        else reachedEndPos (snd (fst r)) = reachedEndPos c
             /\ applying (Some (txnCommitLSN m)) (snd (fst r)) (snd r));
  commit_applied : forall m line c x,
    let r := stream_apply_sql H m line c x in
    applying (Some (lsn m)) c x ->
    action m = STREAM_ACTION_COMMIT ->
    fst (fst r) = true ->
    unread (snd r) = unread x
    /\ endpos (snd (fst r)) = endpos c
    /\ previousLSN (snd (fst r)) = lsn m
    /\ reachedEndPos (snd (fst r)) = reachedEndPos c
    /\ applying None (snd (fst r)) (snd r);
  other_applied : forall m line txn c x,
    let r := stream_apply_sql H m line c x in
    applying txn c x ->
    action m <> STREAM_ACTION_BEGIN ->
    action m <> STREAM_ACTION_COMMIT ->
    fst (fst r) = true ->
    unread (snd r) = unread x
    /\ endpos (snd (fst r)) = endpos c
    /\ previousLSN (snd (fst r)) = previousLSN c
    /\ reachedEndPos (snd (fst r)) = reachedEndPos c
    /\ applying txn (snd (fst r)) (snd r);
  fetch_keeps_position : forall txn c x,
    let r := stream_apply_fetch_sync_sentinel H c x in
    applying txn c x ->
    fst (fst r) = true ->
    unread (snd r) = unread x
    /\ endpos (snd (fst r)) = endpos c
    /\ previousLSN (snd (fst r)) = previousLSN c
    /\ reachedEndPos (snd (fst r)) = reachedEndPos c
    /\ applying txn (snd (fst r)) (snd r);
  send_keeps_position : forall txn c x,
    let r := stream_apply_send_sync_sentinel H c x in
    applying txn c x ->
    fst (fst r) = true ->
    unread (snd r) = unread x
    /\ endpos (snd (fst r)) = endpos c
    /\ previousLSN (snd (fst r)) = previousLSN c
    /\ reachedEndPos (snd (fst r)) = reachedEndPos c
    /\ applying txn (snd (fst r)) (snd r)
}.

(** The sentinel call [stream_replay_line] makes after it has replayed a line
    of action [a], with the context [c] the replay left and the clock at
    [now]. *)
Definition progress_call (a : StreamAction) (c : StreamApplyContext) (now : Z)
  : list Event :=
  if is_progress_point a
  then if sentinelQueryInProgress c then [EvFetchSyncSentinel]
       else if Z.ltb 1 (uint64_sub now (sentinelSyncTime c))
            then [EvSendSyncSentinel now]
            else []
  else [].

(** The end of [stream_replay_line]: the test of the end position. *)
Definition final_check {X} (st : RState X) : bool * bool * RState X :=
  if reachedEndPos (context st) || endpos_reached (context st)
  then ((true, true),
        {| context := set_reachedEndPos (context st) true;
           outside := outside st; events := events st |})
  else ((true, false), st).

(** The middle of [stream_replay_line]: the call [progress_call] stands
    for. *)
Definition after_progress_call {X} (H : Helpers X)
  (m : LogicalMessageMetadata) (st1 : RState X) : bool * RState X :=
  match progress_call (action m) (context st1)
          (time H (outside st1) mod uint64_modulus) with
  | EvFetchSyncSentinel :: _ =>
      call (stream_apply_fetch_sync_sentinel H) EvFetchSyncSentinel st1
  | EvSendSyncSentinel now :: _ =>
      call (stream_apply_send_sync_sentinel H) (EvSendSyncSentinel now) st1
  | _ => (true, st1)
  end.

(** Reading the trace for the pace of the sentinel updates: whether an update
    was sent and not yet drained, when the last one was sent, whether the
    last event is the replay of a COMMIT or KEEPALIVE, and whether every
    update so far was sent at such a point, with no other update pending and
    more than a second after the one before. *)
Record Pace := {
  pending : bool;
  last_send : option Z;
  at_progress_point : bool;
  paced : bool
}.

Definition pace_step (p : Pace) (e : Event) : Pace :=
  match e with
  | EvSendSyncSentinel now =>
      {| pending := true;
         last_send := Some now;
         at_progress_point := false;
         paced := paced p && at_progress_point p && negb (pending p)
                  && match last_send p with
                     | None => true
                     | Some t => Z.ltb (t + 1) now
                     end |}
  | EvFetchSyncSentinel =>
      {| pending := false; last_send := last_send p;
         at_progress_point := false; paced := paced p |}
  | EvApplySql a _ =>
      {| pending := pending p; last_send := last_send p;
         at_progress_point := is_progress_point a; paced := paced p |}
  | _ =>
      {| pending := pending p; last_send := last_send p;
         at_progress_point := false; paced := paced p |}
  end.

Definition pace_of (evs : list Event) : Pace :=
  fold_left pace_step evs
    {| pending := false; last_send := None; at_progress_point := false;
       paced := true |}.

(** Sentinel updates are initiated only at COMMIT and KEEPALIVE, more than a
    second apart, and never while another one is in flight. *)
Definition sentinel_updates_paced (evs : list Event) : Prop :=
  paced (pace_of evs) = true.

(** What the pace of a run rests on: the in-flight flag is set while an update
    is pending, an update that was drained was drained after it was sent, and
    the time of the last sync is not in the future. *)
Definition pace_invariant {X} (H : Helpers X) (st : RState X) : Prop :=
  sentinel_updates_paced (events st)
  /\ (pending (pace_of (events st)) = true ->
       sentinelQueryInProgress (context st) = true)
  /\ (sentinelQueryInProgress (context st) = false ->
       forall t, last_send (pace_of (events st)) = Some t ->
                 t <= sentinelSyncTime (context st))
  /\ 0 <= sentinelSyncTime (context st) <= time H (outside st)
  /\ (forall t, last_send (pace_of (events st)) = Some t -> t <= time H (outside st)).

(** What the pace asks of the helpers: the clock is a [uint64_t] that never
    goes back; replaying a line leaves the in-flight flag and the sync time
    alone; sending an update sets the flag; fetching its result records the
    time when it clears the flag. *)
Record helpers_keep_pace {X} (H : Helpers X) : Prop := {
  clock_range : forall x, 0 <= time H x < uint64_modulus;
  read_line_clock : forall x, time H x <= time H (snd (read_line H x));
  apply_clock : forall m l c x,
    time H x <= time H (snd (stream_apply_sql H m l c x));
  apply_frame : forall m l c x,
    sentinelQueryInProgress (snd (fst (stream_apply_sql H m l c x)))
    = sentinelQueryInProgress c
    /\ sentinelSyncTime (snd (fst (stream_apply_sql H m l c x)))
       = sentinelSyncTime c;
  send_clock : forall c x,
    time H x <= time H (snd (stream_apply_send_sync_sentinel H c x));
  send_sets_flag : forall c x,
    fst (fst (stream_apply_send_sync_sentinel H c x)) = true ->
    sentinelQueryInProgress (snd (fst (stream_apply_send_sync_sentinel H c x))) = true
    /\ sentinelSyncTime (snd (fst (stream_apply_send_sync_sentinel H c x)))
       = sentinelSyncTime c;
  fetch_clock : forall c x,
    time H x <= time H (snd (stream_apply_fetch_sync_sentinel H c x));
  fetch_records_time : forall c x,
    let c' := snd (fst (stream_apply_fetch_sync_sentinel H c x)) in
    let x' := snd (stream_apply_fetch_sync_sentinel H c x) in
    (sentinelSyncTime c' = sentinelSyncTime c
     \/ time H x <= sentinelSyncTime c' <= time H x')
    /\ (sentinelQueryInProgress c' = false ->
        time H x <= sentinelSyncTime c' <= time H x')
}.

(** *** An outside world to run the applier on *)

Record Outside := {
  pipe : list (option string);
  clock : Z;
  sentinel_apply : bool;
  sentinel_endpos : XLogRecPtr;
  sentinel_replay_lsn : XLogRecPtr;
  origin_lsn : XLogRecPtr;
  in_transaction : bool;
  committed : list XLogRecPtr
}.

Definition with_pipe (x : Outside) (p : list (option string)) (t : Z) : Outside :=
  {| pipe := p; clock := t; sentinel_apply := sentinel_apply x;
     sentinel_endpos := sentinel_endpos x;
     sentinel_replay_lsn := sentinel_replay_lsn x; origin_lsn := origin_lsn x;
     in_transaction := in_transaction x; committed := committed x |}.

Definition with_target (x : Outside) (txn : bool) (origin : XLogRecPtr)
  (commits : list XLogRecPtr) : Outside :=
  {| pipe := pipe x; clock := clock x; sentinel_apply := sentinel_apply x;
     sentinel_endpos := sentinel_endpos x;
     sentinel_replay_lsn := sentinel_replay_lsn x; origin_lsn := origin;
     in_transaction := txn; committed := commits |}.

Definition with_replay_lsn (x : Outside) (l : XLogRecPtr) : Outside :=
  {| pipe := pipe x; clock := clock x; sentinel_apply := sentinel_apply x;
     sentinel_endpos := sentinel_endpos x;
     sentinel_replay_lsn := l; origin_lsn := origin_lsn x;
     in_transaction := in_transaction x; committed := committed x |}.

Definition with_progress (c : StreamApplyContext) (prev replay : XLogRecPtr)
  : StreamApplyContext :=
  {| ctx_timeline := ctx_timeline c; ctx_WalSegSz := ctx_WalSegSz c; apply := apply c;
     endpos := endpos c; previousLSN := prev; replay_lsn := replay;
     reachedStartPos := reachedStartPos c; reachedEndPos := reachedEndPos c;
     sentinelQueryInProgress := sentinelQueryInProgress c;
     sentinelSyncTime := sentinelSyncTime c |}.

Definition with_sentinel (c : StreamApplyContext) (app : bool) (pos : XLogRecPtr)
  (inflight : bool) (syncTime : Z) : StreamApplyContext :=
  {| ctx_timeline := ctx_timeline c; ctx_WalSegSz := ctx_WalSegSz c; apply := app;
     endpos := pos; previousLSN := previousLSN c; replay_lsn := replay_lsn c;
     reachedStartPos := reachedStartPos c; reachedEndPos := reachedEndPos c;
     sentinelQueryInProgress := inflight;
     sentinelSyncTime := syncTime |}.

(** The lines of the examples and what [parseSQLAction] reads in them. *)
Definition message (a : StreamAction) (l commit : XLogRecPtr) : LogicalMessageMetadata :=
  {| action := a; xid := 0; lsn := l; txnCommitLSN := commit |}.

Definition example_lines : list (string * LogicalMessageMetadata) :=
  [ ("BEGIN 8/10", message STREAM_ACTION_BEGIN 8 10);
    ("INSERT 9", message STREAM_ACTION_INSERT 9 0);
    ("COMMIT 10", message STREAM_ACTION_COMMIT 10 10);
    ("BEGIN 18/20", message STREAM_ACTION_BEGIN 18 20);
    ("COMMIT 20", message STREAM_ACTION_COMMIT 20 20);
    ("BEGIN 22/30", message STREAM_ACTION_BEGIN 22 30);
    ("COMMIT 30", message STREAM_ACTION_COMMIT 30 30);
    ("BEGIN 38/40", message STREAM_ACTION_BEGIN 38 40);
    ("COMMIT 40", message STREAM_ACTION_COMMIT 40 40);
    ("KEEPALIVE 45", message STREAM_ACTION_KEEPALIVE 45 0) ].

Fixpoint lookup_line (table : list (string * LogicalMessageMetadata)) (line : string)
  : option LogicalMessageMetadata :=
  match table with
  | [] => None
  | (l, m) :: rest => if String.eqb l line then Some m else lookup_line rest line
  end.

(** Modelled from the spec: [stream_apply_sql] is not in this file.  The
    applier of the spec stops after the transaction with the greatest
    commit-lsn up to [endpos], and no transaction that commits beyond
    [endpos] is visible on the target: a BEGIN whose commit-lsn lies beyond
    [endpos] is not applied and sets [reachedEndPos].  Another BEGIN whose
    commit-lsn is at least [previousLSN] opens a transaction, and an older
    one is skipped as a duplicate; a COMMIT closes the transaction, advances
    the replication origin to its commit-lsn and makes it the last applied
    commit-lsn. *)
Definition example_apply_sql
  (m : LogicalMessageMetadata) (line : string) (c : StreamApplyContext) (x : Outside)
  : bool * StreamApplyContext * Outside :=
  match action m with
  | STREAM_ACTION_BEGIN =>
      if beyond_endpos c (txnCommitLSN m)
      then (true, set_reachedEndPos c true, x)
      else (true, c, with_target x (Z.leb (previousLSN c) (txnCommitLSN m))
                       (origin_lsn x) (committed x))
  | STREAM_ACTION_COMMIT =>
      if in_transaction x
      then (true, with_progress c (lsn m) (lsn m),
            with_target x false (lsn m) (committed x ++ [lsn m]))
      else (true, c, x)
  | _ => (true, c, x)
  end.

(** The clock as [time] reads it, a [uint64_t]. *)
Definition example_time (x : Outside) : Z :=
  Z.min (Z.max 0 (clock x)) (uint64_modulus - 1).

(** Modelled from the spec: the helpers of the sentinel are not in this file.
    The applier becomes ready when [sentinel.apply] is true; an asynchronous
    update sets the in-flight flag; fetching its result clears the flag,
    records the time and takes the [endpos] of the sentinel row; the
    synchronous update writes [replay_lsn] in one round-trip. *)
Definition example_helpers : Helpers Outside :=
  {| stream_apply_wait_for_sentinel := fun specs c x =>
       (sentinel_apply x,
        with_sentinel c (sentinel_apply x) (sentinel_endpos x) false 0, x);
     stream_read_context := fun specs x =>
       (true, {| stdIn := stdIn specs; system_timeline := 1;
                 WalSegSz := 16777216; specs_endpos := specs_endpos specs |}, x);
     setupReplicationOrigin := fun specs c x =>
       (true, with_progress c (origin_lsn x) (origin_lsn x), x);
     pgsql_init := fun c x => (true, x);
     read_line := fun x =>
       match pipe x with
       | [] => (ReadEOF, x)
       | None :: rest => (ReadError, with_pipe x rest (clock x + 1))
       | Some line :: rest => (ReadLine line, with_pipe x rest (clock x + 1))
       end;
     parseSQLAction := lookup_line example_lines;
     stream_apply_sql := example_apply_sql;
     time := example_time;
     stream_apply_fetch_sync_sentinel := fun c x =>
       (true,
        with_sentinel c (sentinel_apply x) (sentinel_endpos x) false (example_time x),
        x);
     stream_apply_send_sync_sentinel := fun c x =>
       (true,
        with_sentinel c (apply c) (endpos c) true (sentinelSyncTime c),
        with_replay_lsn x (replay_lsn c));
     stream_apply_sync_sentinel := fun c x =>
       (true,
        with_sentinel c (sentinel_apply x) (sentinel_endpos x) false (example_time x),
        with_replay_lsn x (replay_lsn c));
     pgsql_finish := fun x => x;
     pg_usleep := fun _ x => x |}.

Definition example_specs : StreamSpecs :=
  {| stdIn := true; system_timeline := 1; WalSegSz := 16777216; specs_endpos := 0 |}.

(** The source at time [1000], with [endpos] in the sentinel row, the origin
    of the target at [origin] and [lines] in the pipe. *)
Definition example_outside
  (pos origin : XLogRecPtr) (lines : list (option string)) : Outside :=
  {| pipe := lines; clock := 1000; sentinel_apply := true;
     sentinel_endpos := pos; sentinel_replay_lsn := 0; origin_lsn := origin;
     in_transaction := false; committed := [] |}.

Definition four_transactions : list (option string) :=
  [ Some "BEGIN 8/10"; Some "INSERT 9"; Some "COMMIT 10";
    Some "BEGIN 18/20"; Some "COMMIT 20";
    Some "BEGIN 22/30"; Some "COMMIT 30";
    Some "BEGIN 38/40"; Some "COMMIT 40"; Some "KEEPALIVE 45" ].

(** What is left in the pipe, up to the first line that cannot be read. *)
Fixpoint example_unread_lines (p : list (option string)) : list string :=
  match p with
  | Some line :: rest => line :: example_unread_lines rest
  | _ => []
  end.

Definition example_unread (x : Outside) : list string :=
  example_unread_lines (pipe x).

(** The context has the [endpos] of the sentinel row, and the target has a
    transaction open exactly when [txn] says so. *)
Definition example_applying
  (txn : option XLogRecPtr) (c : StreamApplyContext) (x : Outside) : Prop :=
  endpos c = sentinel_endpos x
  /\ in_transaction x = match txn with Some _ => true | None => false end.

(** The applier once it is set up, with nothing in flight. *)
Definition example_ready (x : Outside) : RState Outside :=
  {| context := with_sentinel zero_context true (sentinel_endpos x) false 0;
     outside := x;
     events := [EvWaitForSentinel; EvSetupReplicationOrigin; EvPgsqlInit] |}.

(** *** More vocabulary: the setup and the drain *)

Definition is_drain_event (e : Event) : bool :=
  match e with EvFetchSyncSentinel | EvSleep _ => true | _ => false end.

(** The calls of [stream_apply_replay] before it reads its input, in order;
    the stream context is read only when the timeline is not known. *)
Definition setup_sequence (specs : StreamSpecs) : list Event :=
  [EvWaitForSentinel]
  ++ (if Z.eqb (system_timeline specs) 0 then [EvReadContext] else [])
  ++ [EvSetupReplicationOrigin; EvPgsqlInit].

(** [stream_read_context] is called only when the timeline is not known. *)
Definition read_context_if_needed {X} (H : Helpers X) (specs : StreamSpecs) (x : X)
  : bool * StreamSpecs * X :=
  if Z.eqb (system_timeline specs) 0 then stream_read_context H specs x
  else (true, specs, x).

(** The clock reads the second of the last sync or the one after it, as
    [uint64_t]. *)
Definition held_back (now syncTime : Z) : bool :=
  Z.eqb now syncTime || Z.eqb now ((syncTime + 1) mod uint64_modulus).

(** The applier with an update of the sentinel in flight. *)
Definition example_inflight : RState Outside :=
  {| context := with_sentinel zero_context true 0 true 0;
     outside := example_outside 0 0 [];
     events := [] |}.

(** The applier with a clock that reads a time before the last sync. *)
Definition example_clock_behind : RState Outside :=
  {| context := with_sentinel zero_context true 0 false 1000;
     outside := with_pipe (example_outside 0 0 []) [] 5;
     events := [] |}.

(** A source whose sentinel does not allow applying. *)
Definition example_paused : Outside :=
  {| pipe := []; clock := 1000; sentinel_apply := false;
     sentinel_endpos := 0; sentinel_replay_lsn := 0; origin_lsn := 0;
     in_transaction := false; committed := [] |}.

End LdReplay.

(** * Properties of dump_restore.c *)

Module DumpRestoreProofs.

Import DumpRestore.

Lemma append_assoc (a b c : string) : (a +:+ b) +:+ c = a +:+ (b +:+ c).
Proof.
  induction a as [|ch a IH]; [reflexivity|].
  change (String ch ((a +:+ b) +:+ c) = String ch (a +:+ (b +:+ c))).
  now rewrite IH.
Qed.

Lemma append_empty_r (a : string) : a +:+ EmptyString = a.
Proof.
  induction a as [|ch a IH]; [reflexivity|].
  change (String ch (a +:+ EmptyString) = String ch a).
  now rewrite IH.
Qed.

(** ** The include-list *)

Lemma processed_already_reads_files specs o w w' :
  files w' = files w ->
  copydb_objectid_has_been_processed_already specs o w'
  = (fst (copydb_objectid_has_been_processed_already specs o w), w').
Proof.
  intros Hf. unfold copydb_objectid_has_been_processed_already, file_exists.
  simpl. now rewrite Hf.
Qed.

Lemma fmt_list_item_commented item :
  fmt_list_item ";" item = ";" +:+ verbatim_line item.
Proof. reflexivity. Qed.

Lemma fmt_list_item_verbatim item :
  fmt_list_item EmptyString item = verbatim_line item.
Proof. reflexivity. Qed.

Lemma write_restore_list_loop_lines env specs w array :
  forall acc w',
    files w' = files w ->
    write_restore_list_loop env specs array acc w'
    = (acc +:+ concat_strings (map (expected_line env specs w) array), w').
Proof.
  induction array as [|item rest IH]; intros acc w' Hf.
  - simpl. unfold ret. now rewrite append_empty_r.
  - cbn [write_restore_list_loop map concat_strings].
    unfold bind at 1.
    rewrite (processed_already_reads_files specs _ w w' Hf).
    unfold expected_line at 1, entry_is_commented.
    destruct (fst (copydb_objectid_has_been_processed_already specs
                     (objectOid item) w)) eqn:Hdone.
    + unfold bind, ret. rewrite IH by exact Hf.
      rewrite fmt_list_item_commented, append_assoc. reflexivity.
    + unfold bind, ret, copydb_objectid_is_filtered_out, ret. simpl orb.
      destruct (copydb_objectid_is_filtered_out_res env specs (objectOid item)
                  (restoreListName item)).
      * rewrite IH by exact Hf.
        rewrite fmt_list_item_commented, append_assoc. reflexivity.
      * rewrite IH by exact Hf.
        rewrite fmt_list_item_verbatim, append_assoc. reflexivity.
Qed.

Lemma write_restore_list_listed env specs section w dumpFilename listFilename contents :
  section_files specs section = Some (dumpFilename, listFilename) ->
  pg_restore_list_out env w dumpFilename = Some contents ->
  copydb_write_restore_list env specs section w
  = write_restore_list_result env specs w dumpFilename listFilename contents.
Proof.
  intros Hsec Hlist. unfold copydb_write_restore_list.
  assert (Hnames :
    match section with
    | PG_DUMP_SECTION_PRE_DATA =>
        Some (preFilename (dumpPaths specs), preListFilename (dumpPaths specs))
    | PG_DUMP_SECTION_POST_DATA =>
        Some (postFilename (dumpPaths specs), postListFilename (dumpPaths specs))
    | _ => None
    end = Some (dumpFilename, listFilename)).
  { destruct section; exact Hsec. }
  rewrite Hnames. clear Hnames.
  unfold bind at 1. unfold pg_restore_list. rewrite Hlist.
  unfold write_restore_list_result, orfail at 1. unfold bind at 1. cbv zeta.
  destruct (createPQExpBuffer_ok env _); [|reflexivity].
  unfold bind at 1.
  rewrite (write_restore_list_loop_lines env specs w contents EmptyString)
    by reflexivity.
  change (EmptyString +:+ ?s) with s.
  unfold bind at 1, broken.
  destruct (PQExpBufferBroken env _ _); [reflexivity|].
  unfold orfail, bind, write_file.
  destruct (write_file_ok env _ _ _); reflexivity.
Qed.

Lemma substring_whole (s : string) : forall n,
  (String.length s <= n)%nat -> String.substring 0 n s = s.
Proof.
  induction s as [|ch s IH]; intros n Hn.
  - destruct n; reflexivity.
  - destruct n as [|n]; [simpl in Hn; lia|].
    simpl. rewrite IH by (simpl in Hn; lia). reflexivity.
Qed.

Lemma processed_already_is_done_marker specs o w :
  (String.length (done_marker_path specs o) < MAXPGPATH)%nat ->
  fst (copydb_objectid_has_been_processed_already specs o w) = true
  <-> marker_exists w (done_marker_path specs o).
Proof.
  intros Hlen. unfold copydb_objectid_has_been_processed_already, file_exists,
    sformat, marker_exists.
  fold (done_marker_path specs o). cbn [fst].
  rewrite substring_whole by lia. apply bool_decide_eq_true.
Qed.

(** C3. When the include-list of a section is written, the file holds one line
    per archive entry, in order: the line of an entry whose object-oid has a
    done-marker in the index directory, or which the filters leave out, is the
    entry's line prefixed with [;]; the line of any other entry is the entry's
    line as such, made of its dumpId, catalogOid, objectOid, description and
    restore-list name. *)
Theorem C3_restore_list_comments_processed_or_filtered
  (env : Env) (specs : CopyDataSpec) (section : PostgresDumpSection) (w : World)
  (dumpFilename listFilename : string) (contents : list ArchiveContentItem) :
  section_files specs section = Some (dumpFilename, listFilename) ->
  pg_restore_list_out env w dumpFilename = Some contents ->
  fst (copydb_write_restore_list env specs section w) = true ->
  files (snd (copydb_write_restore_list env specs section w)) !! listFilename
  = Some (concat_strings (map (expected_line env specs w) contents))
  /\ (forall item, In item contents ->
        (String.length (done_marker_path specs (objectOid item)) < MAXPGPATH)%nat ->
        (marker_exists w (done_marker_path specs (objectOid item))
         \/ copydb_objectid_is_filtered_out_res env specs
              (objectOid item) (restoreListName item) = true ->
         expected_line env specs w item = ";" +:+ verbatim_line item)
        /\ (~ marker_exists w (done_marker_path specs (objectOid item)) ->
            copydb_objectid_is_filtered_out_res env specs
              (objectOid item) (restoreListName item) = false ->
            expected_line env specs w item = verbatim_line item)).
Proof.
  intros Hsec Hlist Hok. split.
  - rewrite (write_restore_list_listed _ _ _ _ _ _ _ Hsec Hlist) in *.
    unfold write_restore_list_result in *.
    destruct (createPQExpBuffer_ok env _); [|discriminate].
    destruct (PQExpBufferBroken env _ _); [discriminate|].
    destruct (write_file_ok env _ _ _); [|discriminate].
    simpl. apply lookup_insert_eq.
  - intros item _ Hlen.
    pose proof (processed_already_is_done_marker specs (objectOid item) w Hlen)
      as Hmarker.
    unfold expected_line, entry_is_commented.
    destruct (fst (copydb_objectid_has_been_processed_already specs
                     (objectOid item) w)) eqn:Hdone.
    + split; [reflexivity|]. intros Hno. exfalso. apply Hno, Hmarker. reflexivity.
    + split.
      * intros [Hm|Hf]; [apply Hmarker in Hm; discriminate|].
        rewrite Hf. reflexivity.
      * intros _ Hf. rewrite Hf. reflexivity.
Qed.

(** ** The statements sent to the target *)

Lemma drop_tables_loop_tail rest : forall n q,
  drop_tables_loop (S n) rest q
  = q +:+ concat_strings (map (fun t => ", " +:+ quoted_table t) rest).
Proof.
  induction rest as [|t rest IH]; intros n q.
  - simpl. now rewrite append_empty_r.
  - cbn [drop_tables_loop map concat_strings Nat.eqb].
    rewrite IH, append_assoc. reflexivity.
Qed.

Lemma comma_separated_cons t rest :
  comma_separated (map quoted_table (t :: rest))
  = quoted_table t +:+ concat_strings (map (fun t => ", " +:+ quoted_table t) rest).
Proof.
  revert t. induction rest as [|t' rest IH]; intros t.
  - simpl. now rewrite append_empty_r.
  - change (comma_separated (map quoted_table (t :: t' :: rest)))
      with (quoted_table t +:+ ", " +:+ comma_separated (map quoted_table (t' :: rest))).
    rewrite IH. cbn [map concat_strings]. now rewrite append_assoc.
Qed.

Lemma drop_query_form tables :
  tables <> [] ->
  drop_tables_loop 0 tables "DROP TABLE IF EXISTS" +:+ "CASCADE"
  = drop_statement tables.
Proof.
  destruct tables as [|t rest]; [congruence|]. intros _.
  cbn [drop_tables_loop Nat.eqb]. rewrite drop_tables_loop_tail.
  unfold drop_statement. rewrite comma_separated_cons.
  unfold fmt_drop_item, quoted_table. rewrite !append_assoc. reflexivity.
Qed.

Lemma fmt_create_schema_statement s :
  fmt_create_schema (filter_nspname s) = create_schema_statement s.
Proof. reflexivity. Qed.

Lemma prepare_namespaces_loop_statements l : forall q,
  prepare_namespaces_loop l q = q +:+ create_schema_statements l.
Proof.
  induction l as [|s l IH]; intros q.
  - simpl. now rewrite append_empty_r.
  - cbn [prepare_namespaces_loop]. rewrite IH, fmt_create_schema_statement.
    unfold create_schema_statements. cbn [map concat_strings].
    now rewrite append_assoc.
Qed.

Lemma is_drop_table_drop_statement tables :
  is_drop_table (drop_statement tables) = true.
Proof. reflexivity. Qed.

Lemma is_create_schema_drop_statement tables :
  is_create_schema (drop_statement tables) = false.
Proof. reflexivity. Qed.

Lemma is_create_schema_statements s l :
  is_create_schema (create_schema_statements (s :: l)) = true.
Proof. reflexivity. Qed.

Lemma is_drop_table_create_statements s l :
  is_drop_table (create_schema_statements (s :: l)) = false.
Proof. reflexivity. Qed.

Lemma drop_tables_result env specs w :
  copydb_target_drop_tables env specs w
  = if Nat.eqb (length (sourceTableArray specs)) 0 then (true, w)
    else
      let q := drop_statement (sourceTableArray specs) in
      if PQExpBufferBroken env w q then (false, w)
      else if pgsql_init_ok env w (target_pguri specs)
           then (pgsql_execute_ok env w (target_pguri specs) q,
                 {| files := files w;
                    trace := trace w ++ [EvSqlExecute (target_pguri specs) q] |})
           else (false, w).
Proof.
  unfold copydb_target_drop_tables.
  destruct (sourceTableArray specs) as [|t rest] eqn:Ht; [reflexivity|].
  rewrite drop_query_form by congruence.
  cbn [length Nat.eqb]. cbv zeta.
  unfold bind, broken, orfail, pgsql_init, pgsql_execute, bind, ret.
  destruct (PQExpBufferBroken env w _); [reflexivity|].
  destruct (pgsql_init_ok env w _); [|reflexivity].
  destruct (pgsql_execute_ok env w _ _); reflexivity.
Qed.

Lemma prepare_namespaces_result env specs w :
  copydb_target_prepare_namespaces env specs w
  = let q := create_schema_statements (includeOnlySchemaList (filters specs)) in
    if PQExpBufferBroken env w q then (false, w)
    else if pgsql_init_ok env w (target_pguri specs)
         then (pgsql_execute_ok env w (target_pguri specs) q,
               {| files := files w;
                  trace := trace w ++ [EvSqlExecute (target_pguri specs) q] |})
         else (false, w).
Proof.
  unfold copydb_target_prepare_namespaces.
  rewrite prepare_namespaces_loop_statements.
  change (EmptyString +:+ ?s) with s. cbv zeta.
  unfold bind, broken, orfail, pgsql_init, pgsql_execute, bind, ret.
  destruct (PQExpBufferBroken env w _); [reflexivity|].
  destruct (pgsql_init_ok env w _); [|reflexivity].
  destruct (pgsql_execute_ok env w _ _); reflexivity.
Qed.

Lemma new_events_app w w' evs :
  trace w' = trace w ++ evs -> new_events w w' = evs.
Proof. intros Ht. unfold new_events. rewrite Ht. apply drop_app_length. Qed.

Lemma write_restore_list_events env specs section w :
  exists evs,
    trace (snd (copydb_write_restore_list env specs section w)) = trace w ++ evs
    /\ existsb is_restore evs = false
    /\ (forall uri rest, sql_issued uri (before_restore (evs ++ rest))
                         = sql_issued uri (before_restore rest))
    /\ (forall rest, existsb is_restore (evs ++ rest) = existsb is_restore rest).
Proof.
  destruct (section_files specs section) as [[d l]|] eqn:Hsec.
  - destruct (pg_restore_list_out env w d) as [contents|] eqn:Hlist.
    + rewrite (write_restore_list_listed _ _ _ _ _ _ _ Hsec Hlist).
      unfold write_restore_list_result.
      destruct (createPQExpBuffer_ok env _);
        [destruct (PQExpBufferBroken env _ _);
          [|destruct (write_file_ok env _ _ _)]|]; simpl;
        try (exists [EvPgRestoreList d]; repeat split; reflexivity).
      exists [EvPgRestoreList d; EvWriteFile l
                (concat_strings (map (expected_line env specs w) contents))].
      rewrite <- app_assoc. repeat split; reflexivity.
    + exists [EvPgRestoreList d]. unfold copydb_write_restore_list.
      replace (match section with
               | PG_DUMP_SECTION_PRE_DATA =>
                   Some (preFilename (dumpPaths specs), preListFilename (dumpPaths specs))
               | PG_DUMP_SECTION_POST_DATA =>
                   Some (postFilename (dumpPaths specs), postListFilename (dumpPaths specs))
               | _ => None
               end) with (Some (d, l)) by (destruct section; exact (eq_sym Hsec) || discriminate).
      unfold bind, pg_restore_list. rewrite Hlist. repeat split; reflexivity.
  - exists []. unfold copydb_write_restore_list.
    destruct section; try discriminate; simpl; rewrite app_nil_r; repeat split; reflexivity.
Qed.

Lemma new_events_self w : new_events w w = [].
Proof. unfold new_events. apply drop_all. Qed.

Ltac leaf Htr Hsql Hex :=
  unfold new_events; cbn [snd trace files]; rewrite ?Htr, <- ?app_assoc;
  rewrite drop_app_length, ?Hsql, ?Hex; cbn [app before_restore is_restore
    existsb sql_issued orb]; rewrite ?String.eqb_refl;
  try discriminate; try reflexivity.

Lemma prepare_schema_sql env specs w :
  restore_invoked w (snd (copydb_target_prepare_schema env specs w)) ->
  sql_issued (target_pguri specs)
    (before_restore (new_events w (snd (copydb_target_prepare_schema env specs w))))
  = expected_sql_before_restore specs.
Proof.
  unfold restore_invoked, expected_sql_before_restore.
  unfold copydb_target_prepare_schema, orfail, bind, file_exists, ret.
  destruct (bool_decide _); [|cbn [snd]; rewrite new_events_self; discriminate].
  destruct (bool_decide _); [cbn [snd]; rewrite new_events_self; discriminate|].
  destruct (write_restore_list_events env specs PG_DUMP_SECTION_PRE_DATA w)
    as (evs & Htr & Hnr & Hsql & Hex).
  destruct (copydb_write_restore_list env specs PG_DUMP_SECTION_PRE_DATA w)
    as [listed w1].
  cbn [snd] in Htr.
  destruct listed; cbn [negb].
  2: { cbn [snd]. rewrite (new_events_app _ _ _ Htr), Hnr. discriminate. }
  destruct (dropIfExists (restoreOptions specs));
  destruct (Nat.ltb 0 (length (includeOnlySchemaList (filters specs))));
  rewrite ?drop_tables_result, ?prepare_namespaces_result; cbv zeta;
  destruct (Nat.eqb (length (sourceTableArray specs)) 0);
  cbn [andb negb app];
  repeat match goal with
    | |- context [if ?c then _ else _] => destruct c
    end;
  rewrite ?drop_tables_result, ?prepare_namespaces_result; cbv zeta;
  repeat match goal with
    | |- context [if ?c then _ else _] => destruct c
    end;
  unfold pg_restore_db, write_file;
  repeat match goal with
    | |- context [if ?c then _ else _] => destruct c
    end;
  leaf Htr Hsql Hex; rewrite Hnr; discriminate.
Qed.

(** ** The done-markers *)

Lemma dump_unit_pre env specs snapshot w :
  preDataDump (done (cfPaths specs)) <> preFilename (dumpPaths specs) ->
  dump_unit_gated env w
    (copydb_dump_source_schema env specs snapshot PG_DUMP_SECTION_PRE_DATA)
    "pre-data" (preFilename (dumpPaths specs)) (preDataDump (done (cfPaths specs))).
Proof.
  intros Hne. unfold dump_unit_gated, marker_exists, copydb_dump_source_schema.
  unfold orfail, bind, file_exists, ret, pg_dump_db, write_file. cbv zeta.
  case_bool_decide as Hm.
  - split; [intros _|intros Hn; contradiction].
    destruct (write_file_ok env w _ _) eqn:Hw; cbn [fst snd trace];
      unfold new_events; cbn [trace]; rewrite ?drop_app_length, ?drop_all; auto.
  - split; [intros Hn; contradiction|intros _].
    destruct (pg_dump_db_ok env w _ _) eqn:Hd; cbn [fst snd trace files].
    + destruct (write_file_ok env _ _ _) eqn:Hw; cbn [fst snd trace files].
      * repeat split; try discriminate.
        -- apply last_snoc.
        -- rewrite lookup_insert_eq. eauto.
      * repeat split; try discriminate. intros _.
        rewrite lookup_insert_ne by congruence. exact Hm.
    + repeat split; try discriminate; auto.
Qed.

Lemma write_restore_list_files env specs section w d l p :
  section_files specs section = Some (d, l) ->
  p <> l ->
  files (snd (copydb_write_restore_list env specs section w)) !! p = files w !! p.
Proof.
  intros Hsec Hp.
  destruct (pg_restore_list_out env w d) as [contents|] eqn:Hlist.
  - rewrite (write_restore_list_listed _ _ _ _ _ _ _ Hsec Hlist).
    unfold write_restore_list_result.
    destruct (createPQExpBuffer_ok env _);
      [destruct (PQExpBufferBroken env _ _);
        [|destruct (write_file_ok env _ _ _)]|]; cbn [snd files]; try reflexivity.
    apply lookup_insert_ne. congruence.
  - unfold copydb_write_restore_list.
    replace (match section with
             | PG_DUMP_SECTION_PRE_DATA =>
                 Some (preFilename (dumpPaths specs), preListFilename (dumpPaths specs))
             | PG_DUMP_SECTION_POST_DATA =>
                 Some (postFilename (dumpPaths specs), postListFilename (dumpPaths specs))
             | _ => None
             end) with (Some (d, l)) by (destruct section; exact (eq_sym Hsec) || discriminate).
    unfold bind, pg_restore_list. rewrite Hlist. reflexivity.
Qed.

Lemma restore_marker_pre env specs w :
  preDataRestore (done (cfPaths specs)) <> preListFilename (dumpPaths specs) ->
  restore_unit_marker w (copydb_target_prepare_schema env specs)
    (preFilename (dumpPaths specs)) (preDataRestore (done (cfPaths specs))).
Proof.
  intros Hne. unfold restore_unit_marker, restore_invoked, marker_exists.
  unfold copydb_target_prepare_schema, orfail, bind, file_exists, ret. cbv zeta.
  case_bool_decide as Hd.
  2: { repeat split; try contradiction; try discriminate; auto. }
  case_bool_decide as Hm.
  1: { repeat split; try contradiction; try discriminate; auto;
       match goal with
       | Hx : existsb is_restore (new_events _ _) = true |- _ =>
           cbn [snd] in Hx; rewrite new_events_self in Hx; discriminate Hx
       end. }
  destruct (write_restore_list_events env specs PG_DUMP_SECTION_PRE_DATA w)
    as (evs & Htr & Hnr & Hsql & Hex).
  pose proof (write_restore_list_files env specs PG_DUMP_SECTION_PRE_DATA w _ _
                (preDataRestore (done (cfPaths specs))) eq_refl Hne) as Hfiles.
  destruct (copydb_write_restore_list env specs PG_DUMP_SECTION_PRE_DATA w)
    as [listed w1].
  cbn [snd] in Htr, Hfiles.
  split; [intros; contradiction|]. split; [intros; contradiction|].
  destruct listed; cbn [negb].
  2: { cbn [fst snd]. rewrite (new_events_app _ _ _ Htr), Hnr.
       split; [discriminate|]. intros _. discriminate. }
  destruct (dropIfExists (restoreOptions specs));
  destruct (Nat.ltb 0 (length (includeOnlySchemaList (filters specs))));
  rewrite ?drop_tables_result, ?prepare_namespaces_result; cbv zeta;
  destruct (Nat.eqb (length (sourceTableArray specs)) 0);
  repeat match goal with
    | |- context [if ?c then _ else _] => destruct c
    end;
  rewrite ?drop_tables_result, ?prepare_namespaces_result; cbv zeta;
  repeat match goal with
    | |- context [if ?c then _ else _] => destruct c
    end;
  unfold pg_restore_db, write_file;
  repeat match goal with
    | |- context [if ?c then _ else _] => destruct c
    end;
  cbn [fst snd trace files].
  all: split;
    [intros Hx Hr;
     first [discriminate Hr
           |split; [apply last_snoc | rewrite lookup_insert_eq; eauto]]
    |intros _ Hr; first [discriminate Hr | rewrite Hfiles; exact Hm]].
Qed.


Lemma dump_unit_post env specs snapshot w :
  postDataDump (done (cfPaths specs)) <> postFilename (dumpPaths specs) ->
  dump_unit_gated env w
    (copydb_dump_source_schema env specs snapshot PG_DUMP_SECTION_POST_DATA)
    "post-data" (postFilename (dumpPaths specs)) (postDataDump (done (cfPaths specs))).
Proof.
  intros Hne. unfold dump_unit_gated, marker_exists, copydb_dump_source_schema.
  unfold orfail, bind, file_exists, ret, pg_dump_db, write_file. cbv zeta.
  case_bool_decide as Hm.
  - split; [intros _|intros Hn; contradiction].
    destruct (write_file_ok env w _ _) eqn:Hw; cbn [fst snd trace];
      unfold new_events; cbn [trace]; rewrite ?drop_app_length, ?drop_all; auto.
  - split; [intros Hn; contradiction|intros _].
    destruct (pg_dump_db_ok env w _ _) eqn:Hd; cbn [fst snd trace files].
    + destruct (write_file_ok env _ _ _) eqn:Hw; cbn [fst snd trace files].
      * repeat split; try discriminate.
        -- apply last_snoc.
        -- rewrite lookup_insert_eq. eauto.
      * repeat split; try discriminate. intros _.
        rewrite lookup_insert_ne by congruence. exact Hm.
    + repeat split; try discriminate; auto.
Qed.

Lemma restore_marker_post env specs w :
  postDataRestore (done (cfPaths specs)) <> postListFilename (dumpPaths specs) ->
  restore_unit_marker w (copydb_target_finalize_schema env specs)
    (postFilename (dumpPaths specs)) (postDataRestore (done (cfPaths specs))).
Proof.
  intros Hne. unfold restore_unit_marker, restore_invoked, marker_exists.
  unfold copydb_target_finalize_schema, orfail, bind, file_exists, ret. cbv zeta.
  case_bool_decide as Hd.
  2: { repeat split; try contradiction; try discriminate; auto. }
  case_bool_decide as Hm.
  1: { repeat split; try contradiction; try discriminate; auto;
       match goal with
       | Hx : existsb is_restore (new_events _ _) = true |- _ =>
           cbn [snd] in Hx; rewrite new_events_self in Hx; discriminate Hx
       end. }
  destruct (write_restore_list_events env specs PG_DUMP_SECTION_POST_DATA w)
    as (evs & Htr & Hnr & Hsql & Hex).
  pose proof (write_restore_list_files env specs PG_DUMP_SECTION_POST_DATA w _ _
                (postDataRestore (done (cfPaths specs))) eq_refl Hne) as Hfiles.
  destruct (copydb_write_restore_list env specs PG_DUMP_SECTION_POST_DATA w)
    as [listed w1].
  cbn [snd] in Htr, Hfiles.
  split; [intros; contradiction|]. split; [intros; contradiction|].
  destruct listed; cbn [negb].
  2: { cbn [fst snd]. rewrite (new_events_app _ _ _ Htr), Hnr.
       split; [discriminate|]. intros _. discriminate. }
  unfold pg_restore_db, write_file;
  repeat match goal with
    | |- context [if ?c then _ else _] => destruct c
    end;
  cbn [fst snd trace files].
  all: split;
    [intros Hx Hr;
     first [discriminate Hr
           |split; [apply last_snoc | rewrite lookup_insert_eq; eauto]]
    |intros _ Hr; first [discriminate Hr | rewrite Hfiles; exact Hm]].
Qed.

Lemma write_restore_list_cases env specs section w :
  match section_files specs section with
  | None => copydb_write_restore_list env specs section w = (false, w)
  | Some (d, l) =>
      match pg_restore_list_out env w d with
      | None =>
          copydb_write_restore_list env specs section w
          = (false, {| files := files w; trace := trace w ++ [EvPgRestoreList d] |})
      | Some contents =>
          copydb_write_restore_list env specs section w
          = write_restore_list_result env specs w d l contents
      end
  end.
Proof.
  destruct (section_files specs section) as [[d l]|] eqn:Hsec.
  - destruct (pg_restore_list_out env w d) as [contents|] eqn:Hlist.
    + exact (write_restore_list_listed _ _ _ _ _ _ _ Hsec Hlist).
    + destruct section; try discriminate Hsec; inversion Hsec; subst;
        unfold copydb_write_restore_list, bind, pg_restore_list;
        rewrite Hlist; reflexivity.
  - destruct section; try discriminate Hsec; reflexivity.
Qed.

Ltac split_ifs :=
  repeat match goal with
    | |- context [if ?c then _ else _] => destruct c
    end.

Ltac events_of_run :=
  unfold new_events; cbn [fst snd trace files];
  rewrite <- ?app_assoc; rewrite ?drop_app_length, ?drop_all;
  cbn [app map andb negb].

Lemma restorer_failure_pre env specs w :
  restore_unit_fails_with_restorer env specs w (copydb_target_prepare_schema env specs)
    (preFilename (dumpPaths specs)) (preListFilename (dumpPaths specs)).
Proof.
  unfold restore_unit_fails_with_restorer, restore_invoked, world_at_restore, include_list.
  unfold copydb_target_prepare_schema, orfail, bind, file_exists, ret. cbv zeta.
  destruct (bool_decide _);
    [|cbn [snd]; rewrite new_events_self; discriminate].
  destruct (bool_decide _);
    [cbn [snd]; rewrite new_events_self; discriminate|].
  pose proof (write_restore_list_cases env specs PG_DUMP_SECTION_PRE_DATA w) as Hc.
  cbn [section_files] in Hc.
  destruct (pg_restore_list_out env w (preFilename (dumpPaths specs)))
    as [contents|]; rewrite Hc; clear Hc.
  2: { cbn [negb]. events_of_run. discriminate. }
  unfold write_restore_list_result. cbv zeta.
  destruct (createPQExpBuffer_ok env _);
    [|cbn [negb]; events_of_run; discriminate].
  destruct (PQExpBufferBroken env _ _);
    [cbn [negb]; events_of_run; discriminate|].
  destruct (write_file_ok env _ _ _);
    [|cbn [negb]; events_of_run; discriminate].
  cbn [negb].
  destruct (Nat.eqb (length (sourceTableArray specs)) 0) eqn:Hcount;
  destruct (dropIfExists (restoreOptions specs));
  destruct (Nat.ltb 0 (length (includeOnlySchemaList (filters specs))));
  cbv beta; cbn [andb negb app map];
  rewrite ?drop_tables_result, ?prepare_namespaces_result; cbv zeta;
  rewrite ?Hcount;
  split_ifs;
  rewrite ?drop_tables_result, ?prepare_namespaces_result; cbv zeta;
  rewrite ?Hcount;
  split_ifs;
  unfold pg_restore_db, write_file;
  cbn [files trace];
  rewrite <- ?app_assoc; cbn [app];
  match goal with
  | |- context [pg_restore_db_ok env ?w0 ?d ?l] =>
      destruct (pg_restore_db_ok env w0 d l) eqn:Hres
  | _ => idtac
  end;
  split_ifs; events_of_run; cbn [existsb is_restore before_restore orb];
  try discriminate.
  all: try (intros _ Hf; rewrite Hf in Hres; discriminate Hres).
  all: intros _ _; split; [reflexivity|]; rewrite last_app; reflexivity.
Qed.

Lemma restorer_failure_post env specs w :
  restore_unit_fails_with_restorer env specs w (copydb_target_finalize_schema env specs)
    (postFilename (dumpPaths specs)) (postListFilename (dumpPaths specs)).
Proof.
  unfold restore_unit_fails_with_restorer, restore_invoked, world_at_restore, include_list.
  unfold copydb_target_finalize_schema, orfail, bind, file_exists, ret. cbv zeta.
  destruct (bool_decide _);
    [|cbn [snd]; rewrite new_events_self; discriminate].
  destruct (bool_decide _);
    [cbn [snd]; rewrite new_events_self; discriminate|].
  pose proof (write_restore_list_cases env specs PG_DUMP_SECTION_POST_DATA w) as Hc.
  cbn [section_files] in Hc.
  destruct (pg_restore_list_out env w (postFilename (dumpPaths specs)))
    as [contents|]; rewrite Hc; clear Hc.
  2: { cbn [negb]. events_of_run. discriminate. }
  unfold write_restore_list_result. cbv zeta.
  destruct (createPQExpBuffer_ok env _);
    [|cbn [negb]; events_of_run; discriminate].
  destruct (PQExpBufferBroken env _ _);
    [cbn [negb]; events_of_run; discriminate|].
  destruct (write_file_ok env _ _ _);
    [|cbn [negb]; events_of_run; discriminate].
  cbn [negb].
  unfold pg_restore_db, write_file;
  cbn [files trace];
  rewrite <- ?app_assoc; cbn [app];
  match goal with
  | |- context [pg_restore_db_ok env ?w0 ?d ?l] =>
      destruct (pg_restore_db_ok env w0 d l) eqn:Hres
  end;
  split_ifs; events_of_run; cbn [existsb is_restore before_restore orb];
  try discriminate.
  all: try (intros _ Hf; rewrite Hf in Hres; discriminate Hres).
  all: intros _ _; split; [reflexivity|]; rewrite last_app; reflexivity.
Qed.


Lemma restore_unit_pre env specs w :
  preDataRestore (done (cfPaths specs)) <> preListFilename (dumpPaths specs) ->
  restore_unit_gated env specs w (copydb_target_prepare_schema env specs)
    (preFilename (dumpPaths specs)) (preListFilename (dumpPaths specs))
    (preDataRestore (done (cfPaths specs))).
Proof.
  intros Hne. split.
  - exact (restore_marker_pre env specs w Hne).
  - exact (restorer_failure_pre env specs w).
Qed.

Lemma restore_unit_post env specs w :
  postDataRestore (done (cfPaths specs)) <> postListFilename (dumpPaths specs) ->
  restore_unit_gated env specs w (copydb_target_finalize_schema env specs)
    (postFilename (dumpPaths specs)) (postListFilename (dumpPaths specs))
    (postDataRestore (done (cfPaths specs))).
Proof.
  intros Hne. split.
  - exact (restore_marker_post env specs w Hne).
  - exact (restorer_failure_post env specs w).
Qed.

Lemma keep_drops_expected specs :
  keep is_drop_table (expected_sql_before_restore specs)
  = if dropIfExists (restoreOptions specs)
       && negb (Nat.eqb (length (sourceTableArray specs)) 0)
    then [drop_statement (sourceTableArray specs)]
    else [].
Proof.
  unfold expected_sql_before_restore.
  destruct (dropIfExists (restoreOptions specs) && _);
    destruct (includeOnlySchemaList (filters specs)); reflexivity.
Qed.

Lemma keep_creates_expected specs :
  keep is_create_schema (expected_sql_before_restore specs)
  = if Nat.ltb 0 (length (includeOnlySchemaList (filters specs)))
    then [create_schema_statements (includeOnlySchemaList (filters specs))]
    else [].
Proof.
  unfold expected_sql_before_restore.
  destruct (dropIfExists (restoreOptions specs) && _);
    destruct (includeOnlySchemaList (filters specs)); reflexivity.
Qed.

(** ** Runs of the examples *)

Example drop_statement_of_example_tables :
  drop_statement example_tables
  = "DROP TABLE IF EXISTS  " +:+ dquote +:+ "public" +:+ dquote +:+ "." +:+
    dquote +:+ "t1" +:+ dquote +:+ ", " +:+ dquote +:+ "app" +:+ dquote +:+ "." +:+
    dquote +:+ "t2" +:+ dquote +:+ "CASCADE".
Proof. reflexivity. Qed.

Example create_schema_statements_of_example_schemas :
  create_schema_statements example_schemas
  = "CREATE SCHEMA IF NOT EXISTS " +:+ dquote +:+ "app" +:+ dquote +:+ ";" +:+
    "CREATE SCHEMA IF NOT EXISTS " +:+ dquote +:+ "audit" +:+ dquote +:+ ";".
Proof. reflexivity. Qed.

Example prepare_schema_run :
  let run := copydb_target_prepare_schema env_ok
               (example_specs true example_tables example_schemas)
               (world_with ["/w/schema/pre.dump"]) in
  fst run = true
  /\ map (fun e => match e with
                   | EvPgDump _ _ => "pg_dump"
                   | EvPgRestoreList _ => "pg_restore --list"
                   | EvPgRestore _ _ => "pg_restore"
                   | EvSqlExecute _ _ => "sql"
                   | EvWriteFile path _ => path
                   end) (trace (snd run))
     = ["pg_restore --list"; "/w/schema/pre.list"; "sql"; "sql"; "pg_restore";
        "/w/run/done/pre-data-restore"]
  /\ sql_issued "postgres://target/db" (trace (snd run))
     = [drop_statement example_tables; create_schema_statements example_schemas].
Proof. vm_compute. repeat split; reflexivity. Qed.

Example dump_unit_fails_without_marker :
  let run := copydb_dump_source_schema env_tools_fail
               (example_specs false example_tables []) "snapshot"
               PG_DUMP_SECTION_PRE_DATA (world_with []) in
  fst run = false
  /\ trace (snd run) = [EvPgDump "pre-data" "/w/schema/pre.dump"]
  /\ files (snd run) !! "/w/run/done/pre-data-dump" = None.
Proof. vm_compute. repeat split; reflexivity. Qed.

Example dump_schema_runs_both_units :
  let run := copydb_dump_source_schema env_ok
               (example_specs false example_tables []) "snapshot"
               PG_DUMP_SECTION_SCHEMA
               (world_with ["/w/run/done/pre-data-dump"]) in
  fst run = true
  /\ trace (snd run)
     = [EvWriteFile "/w/run/done/pre-data-dump" EmptyString;
        EvPgDump "post-data" "/w/schema/post.dump";
        EvWriteFile "/w/run/done/post-data-dump" EmptyString].
Proof. vm_compute. repeat split; reflexivity. Qed.

(** ** The claims *)

Lemma C3_restore_list_comments_processed_or_filtered_witness :
  files (snd (copydb_write_restore_list env_ok (example_specs false example_tables [])
                PG_DUMP_SECTION_POST_DATA
                (world_with ["/w/schema/post.dump"; "/w/run/indexes/16401.done"])))
    !! "/w/schema/post.list"
  = Some ("215; 1259 16384 TABLE public t1 owner" +:+ newline +:+
          ";3310; 2606 16401 CONSTRAINT public t1 t1_pkey owner" +:+ newline +:+
          ";3311; 1259 16403 INDEX secret idx owner" +:+ newline).
Proof.
  destruct (C3_restore_list_comments_processed_or_filtered
              env_ok (example_specs false example_tables [])
              PG_DUMP_SECTION_POST_DATA
              (world_with ["/w/schema/post.dump"; "/w/run/indexes/16401.done"])
              "/w/schema/post.dump" "/w/schema/post.list" example_contents
              eq_refl eq_refl eq_refl) as [Hfile _].
  rewrite Hfile. vm_compute. reflexivity.
Defined.

(** C4. The code at the failing input: the work directory cannot be written
    to, so writing the include-list fails in both sections, and yet both
    [copydb_target_prepare_schema] and [copydb_target_finalize_schema] return
    success, having run no restore and written no marker. *)
Theorem C4_list_write_failure_reported_as_success :
  let specs := example_specs false example_tables [] in
  let w := world_with ["/w/schema/pre.dump"; "/w/schema/post.dump"] in
  fst (copydb_write_restore_list env_write_fails specs PG_DUMP_SECTION_PRE_DATA w) = false
  /\ fst (copydb_target_prepare_schema env_write_fails specs w) = true
  /\ trace (snd (copydb_target_prepare_schema env_write_fails specs w))
     = [EvPgRestoreList "/w/schema/pre.dump"]
  /\ fst (copydb_write_restore_list env_write_fails specs PG_DUMP_SECTION_POST_DATA w) = false
  /\ fst (copydb_target_finalize_schema env_write_fails specs w) = true
  /\ trace (snd (copydb_target_finalize_schema env_write_fails specs w))
     = [EvPgRestoreList "/w/schema/post.dump"].
Proof. vm_compute. repeat split; reflexivity. Qed.

(** C5, as it is worded, fails when the run has no table: the restore is
    invoked, [--drop-if-exists] is set, and no statement at all was sent. *)
Lemma C5_counterexample_no_table :
  ~ drop_if_exists_as_stated env_ok (example_specs true [] [])
      (world_with ["/w/schema/pre.dump"]).
Proof.
  unfold drop_if_exists_as_stated. intros Hc.
  assert (Hrun : restore_invoked (world_with ["/w/schema/pre.dump"])
            (snd (copydb_target_prepare_schema env_ok (example_specs true [] [])
                    (world_with ["/w/schema/pre.dump"])))).
  { vm_compute. reflexivity. }
  specialize (Hc Hrun). vm_compute in Hc. discriminate Hc.
Qed.

(** C5 (amended). Whenever the pre-data restore is invoked: if
    [--drop-if-exists] is set and the source table array is not empty, exactly
    one statement [DROP TABLE IF EXISTS ... CASCADE] was sent to the target
    before it, and it lists every table of the array, qualified by its schema
    and double-quoted; if the option is not set, or the array is empty, no
    such statement was sent. *)
Theorem C5_drop_if_exists_one_statement_when_tables
  (env : Env) (specs : CopyDataSpec) (w : World) :
  restore_invoked w (snd (copydb_target_prepare_schema env specs w)) ->
  drops_before_restore specs w (snd (copydb_target_prepare_schema env specs w))
  = if dropIfExists (restoreOptions specs)
       && negb (Nat.eqb (length (sourceTableArray specs)) 0)
    then [drop_statement (sourceTableArray specs)]
    else [].
Proof.
  intros Hrun. unfold drops_before_restore.
  rewrite (prepare_schema_sql env specs w Hrun). apply keep_drops_expected.
Qed.

Lemma C5_drop_if_exists_one_statement_when_tables_witness :
  drops_before_restore (example_specs true example_tables example_schemas)
    (world_with ["/w/schema/pre.dump"])
    (snd (copydb_target_prepare_schema env_ok
            (example_specs true example_tables example_schemas)
            (world_with ["/w/schema/pre.dump"])))
  = [drop_statement example_tables].
Proof.
  apply (C5_drop_if_exists_one_statement_when_tables env_ok
           (example_specs true example_tables example_schemas)
           (world_with ["/w/schema/pre.dump"])).
  vm_compute. reflexivity.
Defined.



(** C8. Whenever the pre-data restore is invoked: if the include-only-schema
    list is not empty, the target received before it one query made of a
    statement for each schema of the list, in order, each of them
    [CREATE SCHEMA IF NOT EXISTS], the name of the schema between double
    quotes, and a semicolon; if the list is empty, it received no such
    statement. *)
Theorem C8_create_schema_for_each_included_schema
  (env : Env) (specs : CopyDataSpec) (w : World) :
  restore_invoked w (snd (copydb_target_prepare_schema env specs w)) ->
  creates_before_restore specs w (snd (copydb_target_prepare_schema env specs w))
  = if Nat.ltb 0 (length (includeOnlySchemaList (filters specs)))
    then [create_schema_statements (includeOnlySchemaList (filters specs))]
    else [].
Proof.
  intros Hrun. unfold creates_before_restore.
  rewrite (prepare_schema_sql env specs w Hrun). apply keep_creates_expected.
Qed.

Lemma C8_create_schema_for_each_included_schema_witness :
  creates_before_restore (example_specs true example_tables example_schemas)
    (world_with ["/w/schema/pre.dump"])
    (snd (copydb_target_prepare_schema env_ok
            (example_specs true example_tables example_schemas)
            (world_with ["/w/schema/pre.dump"])))
  = [create_schema_statements example_schemas].
Proof.
  apply (C8_create_schema_for_each_included_schema env_ok
           (example_specs true example_tables example_schemas)
           (world_with ["/w/schema/pre.dump"])).
  vm_compute. reflexivity.
Defined.

(** C10. With an empty source table array [copydb_target_drop_tables] returns
    success and leaves the world as it was: no SQL statement is executed on
    the target. *)
Theorem C10_drop_tables_empty_array_is_noop
  (env : Env) (specs : CopyDataSpec) (w : World) :
  sourceTableArray specs = [] ->
  copydb_target_drop_tables env specs w = (true, w).
Proof.
  intros Hempty. unfold copydb_target_drop_tables. rewrite Hempty. reflexivity.
Qed.

Lemma C10_drop_tables_empty_array_is_noop_witness :
  copydb_target_drop_tables env_ok (example_specs true [] [])
    (world_with ["/w/schema/pre.dump"])
  = (true, world_with ["/w/schema/pre.dump"]).
Proof.
  apply (C10_drop_tables_empty_array_is_noop env_ok (example_specs true [] [])
           (world_with ["/w/schema/pre.dump"])).
  reflexivity.
Defined.



Example restore_units_fail_with_the_restorer :
  let specs := example_specs false example_tables [] in
  let w := world_with ["/w/schema/pre.dump"; "/w/schema/post.dump"] in
  copydb_target_prepare_schema env_tools_fail specs w
  = (false, {| files := <["/w/schema/pre.list" :=
                           include_list env_tools_fail specs w "/w/schema/pre.dump"]>
                          (files w);
               trace := [EvPgRestoreList "/w/schema/pre.dump";
                         EvWriteFile "/w/schema/pre.list"
                           (include_list env_tools_fail specs w "/w/schema/pre.dump");
                         EvPgRestore "/w/schema/pre.dump" "/w/schema/pre.list"] |})
  /\ fst (copydb_target_finalize_schema env_tools_fail specs w) = false
  /\ files (snd (copydb_target_finalize_schema env_tools_fail specs w))
       !! "/w/run/done/post-data-restore" = None.
Proof. vm_compute. repeat split; reflexivity. Qed.

End DumpRestoreProofs.

(** * Properties of extensions.c *)

Module ExtensionsProofs.

Import Extensions.

Local Open Scope Z_scope.

(** C9. In the process that called it, once [fork] has succeeded,
    [copydb_start_extension_data_process] returns success right after the
    fork: it waits for nothing and runs no part of the copy, whatever becomes
    of the copy in the child.  In the child the call never returns to a
    caller: the process exits, with the internal-error code when the copy of
    the configuration tables fails. *)
Theorem C9_fork_and_detach_returns_success
  (env : Env) (specs : CopyDataSpec) (tr : list Event) :
  skipExtensions specs = false ->
  let fpid := fork_result env ((tr ++ [EvFflush]) ++ [EvFflush]) in
  (fpid <> -1 -> fpid <> 0 ->
     copydb_start_extension_data_process env specs tr
     = (Returns true, ((tr ++ [EvFflush]) ++ [EvFflush]) ++ [EvFork]))
  /\ (fpid = 0 ->
        exists tr',
          copydb_start_extension_data_process env specs tr
          = (Exits (if fst (copydb_copy_extensions env specs false
                              (((tr ++ [EvFflush]) ++ [EvFflush]) ++ [EvFork]))
                    then EXIT_CODE_QUIT else EXIT_CODE_INTERNAL_ERROR), tr')).
Proof.
  intros Hskip fpid. unfold copydb_start_extension_data_process.
  rewrite Hskip. unfold bind, emit, fork. fold fpid. split.
  - intros Hfail Hchild.
    destruct (Z.eqb_spec fpid (-1)) as [->|_]; [contradiction|].
    destruct (Z.eqb_spec fpid 0) as [->|_]; [contradiction|].
    reflexivity.
  - intros Hchild. rewrite Hchild.
    change (0 =? -1) with false. change (0 =? 0) with true. cbv iota beta.
    destruct (copydb_copy_extensions env specs false _) as [ok tr'].
    exists tr'. destruct ok; reflexivity.
Qed.

Lemma C9_fork_and_detach_returns_success_witness :
  copydb_start_extension_data_process (env_copy_fails 4242) example_specs []
  = (Returns true, [EvFflush; EvFflush; EvFork]).
Proof.
  destruct (C9_fork_and_detach_returns_success (env_copy_fails 4242)
              example_specs [] eq_refl) as [Hparent _].
  apply Hparent; discriminate.
Defined.

Example child_exits_with_internal_error :
  copydb_start_extension_data_process (env_copy_fails 0) example_specs []
  = (Exits 12,
     [EvFflush; EvFflush; EvFork;
      EvPgCopy
        ("(SELECT * FROM " +:+ dquote +:+ "public" +:+ dquote +:+ "." +:+
         dquote +:+ "spatial_ref_sys" +:+ dquote +:+ " WHERE srid > 900000)")
        (dquote +:+ "public" +:+ dquote +:+ "." +:+
         dquote +:+ "spatial_ref_sys" +:+ dquote)
        false]).
Proof. vm_compute. reflexivity. Qed.

End ExtensionsProofs.

(** * Properties of ld_replay.c *)

Module LdReplayProofs.

Import LdReplay.

Local Open Scope Z_scope.

(** ** The pace of the sentinel updates *)

Section Generic.
Context {X : Type}.
Variable H : Helpers X.

Lemma stream_replay_line_steps line m st :
  parseSQLAction H line = Some m ->
  stream_replay_line H line st
  = let (applied, st1) :=
      call (stream_apply_sql H m line) (EvApplySql (action m) line) st in
    if negb applied then ((false, false), st1)
    else
      let (reported, st2) := after_progress_call H m st1 in
      if negb reported then ((false, false), st2)
      else final_check st2.
Proof.
  intros Hp. unfold stream_replay_line. rewrite Hp.
  unfold bind at 1.
  destruct (call (stream_apply_sql H m line) (EvApplySql (action m) line) st)
    as [applied st1].
  destruct applied; [|reflexivity]. cbn [negb].
  unfold bind at 1.
  assert (Hprog :
    (match action m with
     | STREAM_ACTION_COMMIT | STREAM_ACTION_KEEPALIVE =>
         now <- time_now H;;
         inProgress <- gets sentinelQueryInProgress;;
         (if inProgress
          then call (stream_apply_fetch_sync_sentinel H) EvFetchSyncSentinel
          else
           syncTime <- gets sentinelSyncTime;;
           (if 1 <? uint64_sub now syncTime
            then call (stream_apply_send_sync_sentinel H) (EvSendSyncSentinel now)
            else ret true))
     | _ => ret true
     end) st1 = after_progress_call H m st1).
  { unfold after_progress_call, progress_call.
    destruct (action m); cbn [is_progress_point]; try reflexivity;
      unfold bind, time_now, gets, ret;
      destruct (sentinelQueryInProgress (context st1)); try reflexivity;
      destruct (1 <? uint64_sub _ _); reflexivity. }
  rewrite Hprog. destruct (after_progress_call H m st1) as [reported st2].
  destruct reported; [|reflexivity]. cbn [negb].
  unfold final_check, bind, gets, modify, ret.
  destruct (reachedEndPos (context st2) || endpos_reached (context st2)); reflexivity.
Qed.


Lemma pace_of_snoc evs e : pace_of (evs ++ [e]) = pace_step (pace_of evs) e.
Proof. unfold pace_of. now rewrite fold_left_app. Qed.

Lemma uint64_sub_small now t :
  0 <= t <= now -> now < uint64_modulus -> uint64_sub now t = now - t.
Proof. intros Ht Hn. unfold uint64_sub. apply Z.mod_small. lia. Qed.

Hypothesis Hpace : helpers_keep_pace H.

Lemma read_line_keeps_pace st :
  pace_invariant H st ->
  pace_invariant H
    {| context := context st; outside := snd (read_line H (outside st));
       events := events st ++ [EvReadLine] |}.
Proof.
  intros (Hp & Hpend & Hlast & Hsync & Hnow).
  pose proof (read_line_clock H Hpace (outside st)) as Hclk.
  unfold pace_invariant, sentinel_updates_paced. cbn [context outside events].
  rewrite pace_of_snoc. cbn [pace_step pending last_send paced].
  repeat split; auto; try lia.
  intros t Ht. specialize (Hnow t Ht). lia.
Qed.

Lemma apply_keeps_pace m line st :
  pace_invariant H st ->
  pace_invariant H
    (snd (call (stream_apply_sql H m line) (EvApplySql (action m) line) st)).
Proof.
  intros (Hp & Hpend & Hlast & Hsync & Hnow).
  pose proof (apply_clock H Hpace m line (context st) (outside st)) as Hclk.
  pose proof (apply_frame H Hpace m line (context st) (outside st)) as [Hflag Htime].
  unfold call.
  destruct (stream_apply_sql H m line (context st) (outside st)) as [[ok c1] x1].
  cbn [fst snd] in *.
  unfold pace_invariant, sentinel_updates_paced. cbn [context outside events].
  rewrite pace_of_snoc. cbn [pace_step pending last_send paced].
  rewrite Hflag, Htime. repeat split; auto; try lia.
  intros t Ht. specialize (Hnow t Ht). lia.
Qed.

Lemma apply_at_progress_point m line st :
  at_progress_point
    (pace_of (events (snd (call (stream_apply_sql H m line)
                             (EvApplySql (action m) line) st))))
  = is_progress_point (action m).
Proof.
  unfold call.
  destruct (stream_apply_sql H m line (context st) (outside st)) as [[ok c1] x1].
  cbn [snd events]. rewrite pace_of_snoc. reflexivity.
Qed.

Lemma progress_call_keeps_pace m st1 :
  pace_invariant H st1 ->
  at_progress_point (pace_of (events st1)) = is_progress_point (action m) ->
  sentinel_updates_paced (events (snd (after_progress_call H m st1)))
  /\ (fst (after_progress_call H m st1) = true ->
      pace_invariant H (snd (after_progress_call H m st1))).
Proof.
  intros Hinv Hat. pose proof Hinv as (Hp & Hpend & Hlast & Hsync & Hnow).
  pose proof (clock_range H Hpace (outside st1)) as Hrange.
  unfold after_progress_call, progress_call.
  destruct (is_progress_point (action m)) eqn:Hpt; [|split; auto].
  rewrite Z.mod_small by exact Hrange.
  destruct (sentinelQueryInProgress (context st1)) eqn:Hflag.
  - (* drain the update in flight *)
    pose proof (fetch_clock H Hpace (context st1) (outside st1)) as Hclk.
    pose proof (fetch_records_time H Hpace (context st1) (outside st1)) as [Hrec Hclr].
    unfold call.
    destruct (stream_apply_fetch_sync_sentinel H (context st1) (outside st1))
      as [[ok c2] x2].
    cbn [fst snd context outside events] in *.
    unfold pace_invariant, sentinel_updates_paced. cbn [context outside events].
    rewrite pace_of_snoc. cbn [pace_step pending last_send paced].
    split; [exact Hp|]. intros _. repeat split; auto; try discriminate; try lia.
    all: try (destruct Hrec; lia).
    + intros Hc t Ht. specialize (Hclr Hc). specialize (Hnow t Ht). lia.
    + intros t Ht. specialize (Hnow t Ht). lia.
  - destruct (1 <? uint64_sub (time H (outside st1)) (sentinelSyncTime (context st1)))
      eqn:Hrate; [|split; auto].
    (* send a new update *)
    rewrite uint64_sub_small in Hrate by lia.
    apply Z.ltb_lt in Hrate.
    pose proof (send_clock H Hpace (context st1) (outside st1)) as Hclk.
    pose proof (send_sets_flag H Hpace (context st1) (outside st1)) as Hset.
    unfold call.
    destruct (stream_apply_send_sync_sentinel H (context st1) (outside st1))
      as [[ok c2] x2].
    cbn [fst snd context outside events] in *.
    assert (Hpaced :
      paced (pace_step (pace_of (events st1))
               (EvSendSyncSentinel (time H (outside st1)))) = true).
    { cbn [pace_step paced]. rewrite Hp, Hat. cbn [andb].
      destruct (pending (pace_of (events st1))) eqn:Hpd.
      - specialize (Hpend eq_refl). congruence.
      - cbn [negb andb].
        destruct (last_send (pace_of (events st1))) as [t|] eqn:Hls; [|reflexivity].
        specialize (Hlast eq_refl t eq_refl). apply Z.ltb_lt. lia. }
    unfold pace_invariant, sentinel_updates_paced. cbn [context outside events].
    rewrite pace_of_snoc. split; [exact Hpaced|]. intros Hok.
    destruct (Hset Hok) as [Hc2 Ht2].
    cbn [pace_step pending last_send].
    repeat split; auto; try lia; try congruence.
    all: try (intros t Ht; inversion Ht; subst; lia).
Qed.

Lemma final_check_keeps_pace st :
  pace_invariant H st -> pace_invariant H (snd (final_check st)).
Proof.
  intros Hinv. unfold final_check.
  destruct (reachedEndPos (context st) || endpos_reached (context st)); exact Hinv.
Qed.

Lemma replay_line_keeps_pace line st :
  pace_invariant H st ->
  sentinel_updates_paced (events (snd (stream_replay_line H line st)))
  /\ (fst (fst (stream_replay_line H line st)) = true ->
      pace_invariant H (snd (stream_replay_line H line st))).
Proof.
  intros Hinv.
  destruct (parseSQLAction H line) as [m|] eqn:Hparse.
  - rewrite (stream_replay_line_steps line m st Hparse).
    pose proof (apply_keeps_pace m line st Hinv) as Hinv1.
    pose proof (apply_at_progress_point m line st) as Hat.
    destruct (call (stream_apply_sql H m line) (EvApplySql (action m) line) st)
      as [applied st1].
    cbn [snd] in *.
    destruct applied; cbn [negb].
    + destruct (progress_call_keeps_pace m st1 Hinv1 Hat) as [Hp2 Hinv2].
      destruct (after_progress_call H m st1) as [reported st2].
      cbn [fst snd] in *.
      destruct reported; cbn [negb].
      * specialize (Hinv2 eq_refl).
        pose proof (final_check_keeps_pace st2 Hinv2) as Hinv3.
        split; [apply Hinv3|intros _; exact Hinv3].
      * split; [exact Hp2|discriminate].
    + split; [apply Hinv1|discriminate].
  - unfold stream_replay_line. rewrite Hparse. unfold ret. cbn [fst snd].
    split; [apply Hinv|discriminate].
Qed.

Lemma read_from_stream_paced fuel : forall st r st',
  pace_invariant H st ->
  read_from_stream H fuel st = Some (r, st') ->
  sentinel_updates_paced (events st').
Proof.
  induction fuel as [|fuel IH]; intros st r st' Hinv Hrun; [discriminate|].
  cbn [read_from_stream] in Hrun.
  pose proof (read_line_keeps_pace st Hinv) as Hinv1.
  destruct (read_line H (outside st)) as [res x1]. cbn [snd] in Hinv1.
  destruct res as [line| |].
  - destruct (replay_line_keeps_pace line _ Hinv1) as [Hp2 Hinv2].
    destruct (stream_replay_line H line _) as [[ok stop] st2].
    cbn [fst snd] in *.
    destruct ok; cbn [negb] in Hrun.
    + destruct stop.
      * inversion Hrun; subst. exact Hp2.
      * apply (IH st2 r st' (Hinv2 eq_refl) Hrun).
    + inversion Hrun; subst. exact Hp2.
  - inversion Hrun; subst. apply Hinv1.
  - inversion Hrun; subst. apply Hinv1.
Qed.

End Generic.

(** ** The exits of the applier *)

Section Exits.
Context {X : Type}.
Variable H : Helpers X.

Lemma call_events h e (st : RState X) :
  events (snd (call h e st)) = events st ++ [e].
Proof.
  unfold call. destruct (h (context st) (outside st)) as [[ok c] x]. reflexivity.
Qed.

Lemma no_sync_snoc evs e :
  existsb is_sync_event evs = false -> is_sync_event e = false ->
  existsb is_sync_event (evs ++ [e]) = false.
Proof. intros He Hn. rewrite existsb_app, He. cbn. now rewrite Hn. Qed.

Lemma after_progress_call_no_sync m (st : RState X) :
  existsb is_sync_event (events st) = false ->
  existsb is_sync_event (events (snd (after_progress_call H m st))) = false.
Proof.
  intros Hn. unfold after_progress_call.
  destruct (progress_call _ _ _) as [|[] ?]; try exact Hn;
    rewrite call_events; apply no_sync_snoc; auto.
Qed.

Lemma final_check_events (st : RState X) :
  events (snd (final_check st)) = events st.
Proof.
  unfold final_check.
  destruct (reachedEndPos (context st) || endpos_reached (context st)); reflexivity.
Qed.

Lemma stream_replay_line_no_sync line (st : RState X) :
  existsb is_sync_event (events st) = false ->
  existsb is_sync_event (events (snd (stream_replay_line H line st))) = false.
Proof.
  intros Hn. destruct (parseSQLAction H line) as [m|] eqn:Hparse.
  - rewrite (stream_replay_line_steps H line m st Hparse).
    pose proof (call_events (stream_apply_sql H m line)
                  (EvApplySql (action m) line) st) as Hev.
    destruct (call (stream_apply_sql H m line) (EvApplySql (action m) line) st)
      as [applied st1].
    cbn [snd] in Hev.
    assert (Hn1 : existsb is_sync_event (events st1) = false).
    { rewrite Hev. apply no_sync_snoc; auto. }
    destruct applied; cbn [negb]; [|exact Hn1].
    pose proof (after_progress_call_no_sync m st1 Hn1) as Hn2.
    destruct (after_progress_call H m st1) as [reported st2]. cbn [snd] in Hn2.
    destruct reported; cbn [negb]; [|exact Hn2].
    now rewrite final_check_events.
  - unfold stream_replay_line. rewrite Hparse. exact Hn.
Qed.

Lemma read_from_stream_no_sync fuel : forall (st : RState X) r st',
  existsb is_sync_event (events st) = false ->
  read_from_stream H fuel st = Some (r, st') ->
  existsb is_sync_event (events st') = false.
Proof.
  induction fuel as [|fuel IH]; intros st r st' Hn Hrun; [discriminate|].
  cbn [read_from_stream] in Hrun.
  destruct (read_line H (outside st)) as [res x1].
  assert (Hn1 : existsb is_sync_event (events st ++ [EvReadLine]) = false)
    by (apply no_sync_snoc; auto).
  destruct res as [line| |].
  - pose proof (stream_replay_line_no_sync line
                  {| context := context st; outside := x1;
                     events := events st ++ [EvReadLine] |} Hn1) as Hn2.
    destruct (stream_replay_line H line _) as [[ok stop] st2]. cbn [snd] in Hn2.
    destruct ok; cbn [negb] in Hrun.
    + destruct stop.
      * inversion Hrun; subst. exact Hn2.
      * apply (IH st2 r st' Hn2 Hrun).
    + inversion Hrun; subst. exact Hn2.
  - inversion Hrun; subst. exact Hn1.
  - inversion Hrun; subst. exact Hn1.
Qed.

Lemma drain_sentinel_query_no_sync fuel : forall (st : RState X) r st',
  existsb is_sync_event (events st) = false ->
  drain_sentinel_query H fuel st = Some (r, st') ->
  existsb is_sync_event (events st') = false.
Proof.
  induction fuel as [|fuel IH]; intros st r st' Hn Hrun.
  - cbn [drain_sentinel_query] in Hrun.
    destruct (sentinelQueryInProgress (context st)); [discriminate|].
    inversion Hrun; subst. exact Hn.
  - cbn [drain_sentinel_query] in Hrun.
    destruct (sentinelQueryInProgress (context st)).
    + pose proof (call_events (stream_apply_fetch_sync_sentinel H)
                    EvFetchSyncSentinel st) as Hev.
      destruct (call (stream_apply_fetch_sync_sentinel H) EvFetchSyncSentinel st)
        as [ok st1].
      cbn [snd] in Hev.
      assert (Hn1 : existsb is_sync_event (events st1) = false).
      { rewrite Hev. apply no_sync_snoc; auto. }
      destruct ok; cbn [negb] in Hrun.
      * unfold act in Hrun.
        refine (IH _ r st' _ Hrun). cbn [events]. apply no_sync_snoc; auto.
      * inversion Hrun; subst. exact Hn1.
    + inversion Hrun; subst. exact Hn.
Qed.

Lemma replay_origin_events specs x :
  existsb is_sync_event (events (snd (replay_origin H specs x))) = false
  /\ existsb is_input_event (events (snd (replay_origin H specs x))) = false.
Proof.
  unfold replay_origin.
  destruct (stdIn specs); cbn [negb]; [|split; reflexivity].
  unfold call, modify. cbn [context outside events].
  destruct (stream_apply_wait_for_sentinel H specs zero_context x) as [[ok1 c1] x1].
  destruct ok1; cbn [negb]; [|split; reflexivity].
  destruct (system_timeline specs =? 0); cbn [context outside events].
  - destruct (stream_read_context H specs x1) as [[ok2 specs1] x2].
    destruct ok2; cbn [negb context outside events]; [|split; reflexivity].
    destruct (setupReplicationOrigin H specs1 _ x2) as [[ok3 c3] x3].
    split; reflexivity.
  - cbn [negb context outside events].
    destruct (setupReplicationOrigin H specs _ x1) as [[ok3 c3] x3].
    split; reflexivity.
Qed.

Lemma replay_setup_no_sync specs x :
  match replay_setup H specs x with
  | SetupReturns _ st | SetupDone st => existsb is_sync_event (events st) = false
  end.
Proof.
  unfold replay_setup.
  destruct (replay_origin_events specs x) as [Hn _].
  destruct (replay_origin H specs x) as [ok st4]. cbn [snd] in Hn.
  destruct ok; cbn [negb]; [|exact Hn].
  destruct (negb (endpos (context st4) =? InvalidXLogRecPtr)
            && (endpos (context st4) <=? previousLSN (context st4))); [exact Hn|].
  destruct (pgsql_init H (context st4) (outside st4)) as [ok5 x5].
  destruct ok5; cbn [negb events]; apply no_sync_snoc; auto.
Qed.

(** C2 (amended). The final synchronous update of the sentinel is performed
    on one exit, and on that exit it is always performed: once the setup is
    done, the input stream was read without error and the sentinel query in
    flight, if any, was drained without error, the function disconnects and
    then makes the synchronous update, which is its last action and the only
    synchronous update of the run; it writes the [replay_lsn] the replay
    reached, and the function returns what the update returns.  Every other
    exit performs no synchronous update at all: the exits on error, and the
    one exit with success among them, the early one at startup when [endpos]
    had already been reached. *)
Theorem C2_final_sync_only_after_successful_replay
  (fuel : nat) (specs : StreamSpecs) (x : X) :
  (forall st0 st1 st2 : RState X,
     replay_setup H specs x = SetupDone st0 ->
     read_from_stream H fuel st0 = Some (true, st1) ->
     drain_sentinel_query H fuel st1 = Some (true, st2) ->
     let synced :=
       stream_apply_sync_sentinel H (context st2) (pgsql_finish H (outside st2)) in
     stream_apply_replay H fuel specs x
     = Some (fst (fst synced),
             {| context := snd (fst synced);
                outside := snd synced;
                events := events st2
                          ++ [EvPgsqlFinish;
                              EvSyncSentinel (replay_lsn (context st2))] |})
     /\ existsb is_sync_event (events st2) = false)
  /\ (forall (r : bool) (st : RState X),
        stream_apply_replay H fuel specs x = Some (r, st) ->
        (exists st0 st1 st2,
            replay_setup H specs x = SetupDone st0
            /\ read_from_stream H fuel st0 = Some (true, st1)
            /\ drain_sentinel_query H fuel st1 = Some (true, st2))
        \/ (existsb is_sync_event (events st) = false
            /\ (r = true -> replay_setup H specs x = SetupReturns true st))).
Proof.
  pose proof (replay_setup_no_sync specs x) as Hn0.
  split.
  - intros st0 st1 st2 Hsetup Hread Hdrain. cbv zeta.
    rewrite Hsetup in Hn0.
    pose proof (read_from_stream_no_sync fuel st0 true st1 Hn0 Hread) as Hn1.
    pose proof (drain_sentinel_query_no_sync fuel st1 true st2 Hn1 Hdrain) as Hn2.
    split; [|exact Hn2].
    unfold stream_apply_replay. rewrite Hsetup, Hread, Hdrain.
    unfold act, call. cbn [context outside events].
    destruct (stream_apply_sync_sentinel H (context st2)
                (pgsql_finish H (outside st2))) as [[ok3 c3] x3].
    cbn [fst snd]. rewrite <- app_assoc.
    destruct ok3; reflexivity.
  - intros r st Hrun. unfold stream_apply_replay in Hrun.
    destruct (replay_setup H specs x) as [b st0|st0] eqn:Hsetup.
    + right. inversion Hrun; subst. split; [exact Hn0|intros ->; reflexivity].
    + destruct (read_from_stream H fuel st0) as [[ok1 st1]|] eqn:Hread;
        [|discriminate].
      pose proof (read_from_stream_no_sync fuel st0 ok1 st1 Hn0 Hread) as Hn1.
      destruct ok1.
      * destruct (drain_sentinel_query H fuel st1) as [[ok2 st2]|] eqn:Hdrain;
          [|discriminate].
        pose proof (drain_sentinel_query_no_sync fuel st1 ok2 st2 Hn1 Hdrain) as Hn2.
        destruct ok2.
        -- left. exists st0, st1, st2. repeat split; auto.
        -- right. inversion Hrun; subst. split; [exact Hn2|discriminate].
      * right. inversion Hrun; subst. split; [exact Hn1|discriminate].
Qed.

End Exits.

(** ** Stopping at the end position *)

Section Stop.
Context {X : Type}.
Variable H : Helpers X.
Variable unread : X -> list string.
Variable applying : option XLogRecPtr -> StreamApplyContext -> X -> Prop.
Hypothesis Hresp : helpers_respect_endpos H unread applying.

Local Abbreviation parse := (parseSQLAction H).

Lemma commits_of_app l1 l2 :
  commits_of parse (l1 ++ l2) = commits_of parse l1 ++ commits_of parse l2.
Proof.
  induction l1 as [|line l1 IH]; [reflexivity|].
  cbn [app commits_of]. destruct (parse line) as [m|]; [|exact IH].
  destruct (action m); try exact IH. cbn [app]. now rewrite IH.
Qed.

Lemma commits_after lines : forall prev txn,
  transactions_in_order parse prev txn lines ->
  forall c, In c (commits_of parse lines) ->
            match txn with None => prev < c | Some t => t <= c end.
Proof.
  induction lines as [|line rest IH]; intros prev txn Hord c Hin; [contradiction|].
  cbn [transactions_in_order commits_of] in Hord, Hin.
  destruct (parse line) as [m|]; [|contradiction].
  destruct (action m);
    try exact (IH prev txn Hord c Hin).
  - destruct Hord as (-> & Hlt & Hrest).
    specialize (IH prev (Some (txnCommitLSN m)) Hrest c Hin). cbn in IH. lia.
  - destruct Hord as (-> & Hrest). destruct Hin as [<-|Hin]; [lia|].
    specialize (IH (lsn m) None Hrest c Hin). cbn in IH. lia.
Qed.

(** The sentinel call after a line keeps the position. *)
Lemma progress_keeps_position m txn (st1 st2 : RState X) :
  applying txn (context st1) (outside st1) ->
  after_progress_call H m st1 = (true, st2) ->
  unread (outside st2) = unread (outside st1)
  /\ endpos (context st2) = endpos (context st1)
  /\ previousLSN (context st2) = previousLSN (context st1)
  /\ reachedEndPos (context st2) = reachedEndPos (context st1)
  /\ applying txn (context st2) (outside st2).
Proof.
  intros Happ. unfold after_progress_call.
  destruct (progress_call _ _ _) as [|[] ?];
    try (intros Heq; inversion Heq; subst; repeat split; auto; fail).
  - unfold call.
    pose proof (fetch_keeps_position H unread applying Hresp txn
                  (context st1) (outside st1) Happ) as Hk.
    cbv zeta in Hk.
    destruct (stream_apply_fetch_sync_sentinel H (context st1) (outside st1))
      as [[ok c] x].
    intros Heq; inversion Heq; subst. cbn [context outside]. apply Hk. reflexivity.
  - unfold call.
    pose proof (send_keeps_position H unread applying Hresp txn
                  (context st1) (outside st1) Happ) as Hk.
    cbv zeta in Hk.
    destruct (stream_apply_send_sync_sentinel H (context st1) (outside st1))
      as [[ok c] x].
    intros Heq; inversion Heq; subst. cbn [context outside]. apply Hk. reflexivity.
Qed.

Lemma final_check_result (sta st2 : RState X) stop :
  final_check sta = ((true, stop), st2) ->
  stop = reachedEndPos (context sta) || endpos_reached (context sta)
  /\ outside st2 = outside sta
  /\ endpos (context st2) = endpos (context sta)
  /\ previousLSN (context st2) = previousLSN (context sta)
  /\ reachedEndPos (context st2) = stop
  /\ (stop = false -> st2 = sta).
Proof.
  unfold final_check.
  destruct (reachedEndPos (context sta) || endpos_reached (context sta)) eqn:Hc;
    intros Heq; inversion Heq; subst; cbn [context outside set_reachedEndPos
      endpos previousLSN reachedEndPos]; repeat split; auto; try discriminate.
  apply orb_false_elim in Hc. tauto.
Qed.

(** One line of the input, replayed. *)
Lemma replay_line_position line m (st st2 : RState X) stop :
  parse line = Some m ->
  stream_replay_line H line st = ((true, stop), st2) ->
  exists c1 x1,
    stream_apply_sql H m line (context st) (outside st) = (true, c1, x1)
    /\ forall txn, applying txn c1 x1 ->
         unread (outside st2) = unread x1
         /\ endpos (context st2) = endpos c1
         /\ previousLSN (context st2) = previousLSN c1
         /\ stop = reachedEndPos c1 || endpos_reached c1
         /\ reachedEndPos (context st2) = stop
         /\ (stop = false -> applying txn (context st2) (outside st2)).
Proof.
  intros Hparse Hline.
  rewrite (stream_replay_line_steps H line m st Hparse) in Hline.
  unfold call in Hline.
  destruct (stream_apply_sql H m line (context st) (outside st)) as [[ok c1] x1].
  destruct ok; cbn [negb] in Hline; [|discriminate].
  exists c1, x1. split; [reflexivity|]. intros txn Happ.
  destruct (after_progress_call H m _) as [reported sta] eqn:Hprog.
  destruct reported; cbn [negb] in Hline; [|discriminate].
  destruct (progress_keeps_position m txn
              {| context := c1; outside := x1;
                 events := events st ++ [EvApplySql (action m) line] |} sta
              Happ Hprog)
    as (Hu & He & Hp & Hr & Ha).
  cbn [context outside] in Hu, He, Hp, Hr.
  destruct (final_check_result _ _ _ Hline) as (Hs & Ho & He2 & Hp2 & Hr2 & Hsame).
  rewrite Ho, He2, Hp2, Hu, He, Hp. repeat split; auto.
  - rewrite Hs, Hr. unfold endpos_reached. now rewrite He, Hp.
  - intros Hstop. rewrite (Hsame Hstop). exact Ha.
Qed.

Lemma endpos_reached_iff (c : StreamApplyContext) :
  endpos c <> 0 ->
  (endpos_reached c = true <-> endpos c <= previousLSN c).
Proof.
  intros He. unfold endpos_reached, InvalidXLogRecPtr.
  destruct (Z.eqb_spec (endpos c) 0); [contradiction|].
  cbn [negb andb]. apply Z.leb_le.
Qed.

Lemma beyond_endpos_iff (c : StreamApplyContext) (commit : Z) :
  endpos c <> 0 ->
  (beyond_endpos c commit = true <-> endpos c < commit).
Proof.
  intros He. unfold beyond_endpos, InvalidXLogRecPtr.
  destruct (Z.eqb_spec (endpos c) 0); [contradiction|].
  cbn [negb andb]. apply Z.ltb_lt.
Qed.

Lemma read_respects_endpos fuel : forall (st : RState X) txn,
  applying txn (context st) (outside st) ->
  endpos (context st) <> 0 ->
  reachedEndPos (context st) = false ->
  previousLSN (context st) < endpos (context st) ->
  (forall t, txn = Some t -> previousLSN (context st) < t <= endpos (context st)) ->
  transactions_in_order parse (previousLSN (context st)) txn (unread (outside st)) ->
  (length (unread (outside st)) < fuel)%nat ->
  exists r st',
    read_from_stream H fuel st = Some (r, st')
    /\ (r = true ->
        exists done,
          unread (outside st) = done ++ unread (outside st')
          /\ endpos (context st') = endpos (context st)
          /\ previousLSN (context st) <= previousLSN (context st') <= endpos (context st)
          /\ (forall c, In c (commits_of parse done) -> c <= previousLSN (context st'))
          /\ (previousLSN (context st') = previousLSN (context st)
              \/ In (previousLSN (context st')) (commits_of parse done))
          /\ (reachedEndPos (context st') = true ->
              forall c, In c (commits_of parse (unread (outside st'))) ->
                        endpos (context st) < c)
          /\ (reachedEndPos (context st') = false ->
              unread (outside st') = []
              /\ previousLSN (context st') < endpos (context st))).
Proof.
  induction fuel as [|fuel IH]; intros st txn Happ He Hflag Hlt Htxn Hord Hfuel;
    [lia|].
  cbn [read_from_stream].
  destruct (next_line H unread applying Hresp txn (context st) (outside st) Happ)
    as [Happ1 Hnext].
  destruct (read_line H (outside st)) as [res x1]. cbn [fst snd] in Happ1, Hnext.
  destruct res as [line| |].
  2: { (* the input has ended *)
       destruct Hnext as [Hu Hu1]. eexists true, _. split; [reflexivity|].
       intros _. cbn [context outside]. exists []. rewrite Hu, Hu1.
       repeat split; auto; try lia; try contradiction. }
  2: { eexists false, _. split; [reflexivity|discriminate]. }
  rewrite Hnext in Hord, Hfuel. cbn [transactions_in_order length] in Hord, Hfuel.
  destruct (parse line) as [m|] eqn:Hparse; [|contradiction].
  destruct (stream_replay_line H line _) as [[ok stop] st2] eqn:Hline.
  destruct ok; cbn [negb];
    [|eexists false, _; split; [reflexivity|discriminate]].
  destruct (replay_line_position line m _ st2 stop Hparse Hline)
    as (c1 & xa & Happly & Hpos).
  cbn [context outside] in Happly. rewrite Hnext.
  assert (Hcommits : forall rest,
            action m <> STREAM_ACTION_COMMIT ->
            commits_of parse (line :: rest) = commits_of parse rest).
  { intros rest Hnc. cbn [commits_of]. rewrite Hparse.
    destruct (action m); try reflexivity. contradiction. }
  assert (Hother :
    action m <> STREAM_ACTION_BEGIN -> action m <> STREAM_ACTION_COMMIT ->
    transactions_in_order parse (previousLSN (context st)) txn (unread x1) ->
    exists r st',
      (if stop then Some (true, st2) else read_from_stream H fuel st2)
      = Some (r, st')
      /\ (r = true ->
          exists done,
            line :: unread x1 = done ++ unread (outside st')
            /\ endpos (context st') = endpos (context st)
            /\ previousLSN (context st) <= previousLSN (context st')
               <= endpos (context st)
            /\ (forall c, In c (commits_of parse done) ->
                          c <= previousLSN (context st'))
            /\ (previousLSN (context st') = previousLSN (context st)
                \/ In (previousLSN (context st')) (commits_of parse done))
            /\ (reachedEndPos (context st') = true ->
                forall c, In c (commits_of parse (unread (outside st'))) ->
                          endpos (context st) < c)
            /\ (reachedEndPos (context st') = false ->
                unread (outside st') = []
                /\ previousLSN (context st') < endpos (context st)))).
  { intros Hnb Hnc Hrest.
    pose proof (other_applied H unread applying Hresp m line txn (context st) x1)
      as Ho.
    cbv zeta in Ho. rewrite Happly in Ho. cbn [fst snd] in Ho.
    destruct (Ho Happ1 Hnb Hnc eq_refl) as (Hu & He1 & Hp1 & Hr1 & Ha1).
    destruct (Hpos txn Ha1) as (Hu2 & He2 & Hp2 & Hstop & Hr2 & Ha2).
    assert (Hgo : stop = false).
    { rewrite Hstop, Hr1, Hflag. cbn [orb].
      destruct (endpos_reached c1) eqn:Hreach; [|reflexivity].
      apply endpos_reached_iff in Hreach; [lia|congruence]. }
    clear Hstop. rewrite Hgo in Hr2, Ha2 |- *. clear Hgo.
    destruct (IH st2 txn (Ha2 eq_refl)) as (r & st' & Hrun & Hres).
    { congruence. }
    { exact Hr2. }
    { rewrite He2, He1, Hp2, Hp1. exact Hlt. }
    { intros t Ht. rewrite He2, He1, Hp2, Hp1. exact (Htxn t Ht). }
    { rewrite Hp2, Hp1, Hu2, Hu. exact Hrest. }
    { rewrite Hu2, Hu. lia. }
    exists r, st'. split; [exact Hrun|]. intros Hr.
    destruct (Hres Hr) as (done & Hd & Hrest').
    exists (line :: done).
    rewrite Hcommits by exact Hnc.
    rewrite He2, He1, Hp2, Hp1, Hu2, Hu in *.
    split; [cbn [app]; congruence|]. exact Hrest'. }
  destruct (action m) eqn:Ha;
    try (apply Hother; [discriminate|discriminate|exact Hord]); clear Hother.
  - (* BEGIN *)
    destruct Hord as (-> & Hnew & Hrest).
    pose proof (begin_applied H unread applying Hresp m line (context st) x1) as Hb.
    cbv zeta in Hb. rewrite Happly in Hb. cbn [fst snd] in Hb.
    destruct (Hb Happ1 Ha Hnew eq_refl) as (Hu & He1 & Hp1 & Hbeyond).
    destruct (beyond_endpos (context st) (txnCommitLSN m)) eqn:Hb1.
    + (* its commit lies beyond the end position *)
      apply beyond_endpos_iff in Hb1; [|exact He].
      destruct Hbeyond as [Hr1 Ha1].
      destruct (Hpos None Ha1) as (Hu2 & He2 & Hp2 & Hstop & Hr2 & Ha2).
      rewrite Hr1 in Hstop. cbn [orb] in Hstop. subst stop.
      exists true, st2. split; [reflexivity|]. intros _.
      exists [line]. rewrite Hcommits by discriminate.
      rewrite Hu2, Hu, He2, He1, Hp2, Hp1, Hr2.
      repeat split; auto; try lia; try contradiction; try discriminate.
      intros _ c Hin.
      pose proof (commits_after _ _ _ Hrest c Hin) as Hge. cbn in Hge. lia.
    + destruct Hbeyond as [Hr1 Ha1].
      assert (Hle : txnCommitLSN m <= endpos (context st)).
      { destruct (Z.le_gt_cases (txnCommitLSN m) (endpos (context st)))
          as [Hle|Hgt]; [exact Hle|].
        apply (beyond_endpos_iff _ _ He) in Hgt. congruence. }
      destruct (Hpos _ Ha1) as (Hu2 & He2 & Hp2 & Hstop & Hr2 & Ha2).
      assert (Hgo : stop = false).
      { rewrite Hstop, Hr1, Hflag. cbn [orb].
        destruct (endpos_reached c1) eqn:Hreach; [|reflexivity].
        apply endpos_reached_iff in Hreach; [lia|congruence]. }
      clear Hstop. rewrite Hgo in Hr2, Ha2 |- *. clear Hgo.
      destruct (IH st2 (Some (txnCommitLSN m)) (Ha2 eq_refl))
        as (r & st' & Hrun & Hres).
      { congruence. }
      { exact Hr2. }
      { rewrite He2, He1, Hp2, Hp1. exact Hlt. }
      { intros t Ht. inversion Ht; subst t. rewrite He2, He1, Hp2, Hp1. lia. }
      { rewrite Hp2, Hp1, Hu2, Hu. exact Hrest. }
      { rewrite Hu2, Hu. lia. }
      exists r, st'. split; [exact Hrun|]. intros Hr.
      destruct (Hres Hr) as (done & Hd & Hrest').
      exists (line :: done). rewrite Hcommits by discriminate.
      rewrite He2, He1, Hp2, Hp1, Hu2, Hu in *.
      split; [cbn [app]; congruence|]. exact Hrest'.
  - (* COMMIT *)
    destruct Hord as (-> & Hrest).
    destruct (Htxn (lsn m) eq_refl) as [Hnew Hle].
    pose proof (commit_applied H unread applying Hresp m line (context st) x1) as Hc.
    cbv zeta in Hc. rewrite Happly in Hc. cbn [fst snd] in Hc.
    destruct (Hc Happ1 Ha eq_refl) as (Hu & He1 & Hp1 & Hr1 & Ha1).
    destruct (Hpos None Ha1) as (Hu2 & He2 & Hp2 & Hstop & Hr2 & Ha2).
    assert (Hhead : forall rest,
              commits_of parse (line :: rest) = lsn m :: commits_of parse rest).
    { intros rest. cbn [commits_of]. now rewrite Hparse, Ha. }
    rewrite Hr1, Hflag in Hstop. cbn [orb] in Hstop.
    destruct stop.
    + (* the end position is reached *)
      symmetry in Hstop. apply endpos_reached_iff in Hstop; [|congruence].
      exists true, st2. split; [reflexivity|]. intros _.
      exists [line]. rewrite Hhead.
      rewrite Hu2, Hu, He2, He1, Hp2, Hp1, Hr2.
      repeat split; auto; try lia; try discriminate.
      * intros c [<-|[]]. lia.
      * right. left. reflexivity.
      * intros _ c Hin.
        pose proof (commits_after _ _ _ Hrest c Hin) as Hge. cbn in Hge. lia.
    + symmetry in Hstop.
      assert (Hbelow : lsn m < endpos (context st)).
      { destruct (Z.lt_ge_cases (lsn m) (endpos (context st))) as [Hb|Hb];
          [exact Hb|].
        assert (Hreach : endpos_reached c1 = true)
          by (apply endpos_reached_iff; [congruence|lia]).
        congruence. }
      destruct (IH st2 None (Ha2 eq_refl)) as (r & st' & Hrun & Hres).
      { congruence. }
      { exact Hr2. }
      { rewrite He2, He1, Hp2, Hp1. exact Hbelow. }
      { intros t Ht. discriminate Ht. }
      { rewrite Hp2, Hp1, Hu2, Hu. exact Hrest. }
      { rewrite Hu2, Hu. lia. }
      exists r, st'. split; [exact Hrun|]. intros Hr.
      destruct (Hres Hr) as (done & Hd & Hrest').
      exists (line :: done). rewrite Hhead.
      rewrite He2, He1, Hp2, Hp1, Hu2, Hu in *.
      destruct Hrest' as (He' & Hmono & Hall & Hlast & Hleft & Hend).
      split; [cbn [app]; congruence|].
      split; [exact He'|]. split; [lia|].
      split; [intros c [<-|Hin]; [lia|exact (Hall c Hin)]|].
      split; [destruct Hlast as [Heq|Hin];
              [right; left; congruence|right; right; exact Hin]|].
      split; [exact Hleft|exact Hend].
Qed.

Lemma read_stops_at_greatest_commit fuel (st : RState X) :
  applying None (context st) (outside st) ->
  endpos (context st) <> InvalidXLogRecPtr ->
  reachedEndPos (context st) = false ->
  previousLSN (context st) < endpos (context st) ->
  transactions_in_order parse (previousLSN (context st)) None
    (unread (outside st)) ->
  (length (unread (outside st)) < fuel)%nat ->
  exists r st',
    read_from_stream H fuel st = Some (r, st')
    /\ (r = true ->
        let commits := commits_of parse (unread (outside st)) in
        let e := endpos (context st) in
        let last := previousLSN (context st') in
        if reachedEndPos (context st')
        then (greatest_commit_upto commits e last
              \/ (last = previousLSN (context st)
                  /\ forall c, In c commits -> e < c))
             /\ exists done,
                  unread (outside st) = done ++ unread (outside st')
                  /\ (forall c, In c commits -> c <= e ->
                                In c (commits_of parse done))
                  /\ (forall c, In c (commits_of parse (unread (outside st'))) ->
                                e < c)
        else unread (outside st') = []
             /\ forall c, In c commits -> c < e).
Proof.
  intros Happ He Hflag Hlt Hord Hfuel.
  destruct (read_respects_endpos fuel st None Happ He Hflag Hlt) as
    (r & st' & Hrun & Hres); [discriminate|exact Hord|exact Hfuel|].
  exists r, st'. split; [exact Hrun|]. intros Hr. cbv zeta.
  destruct (Hres Hr) as (done & Hd & He' & Hmono & Hall & Hlast & Hleft & Hend).
  assert (Hnew : forall c, In c (commits_of parse (unread (outside st))) ->
                           previousLSN (context st) < c).
  { intros c Hin. exact (commits_after _ _ _ Hord c Hin). }
  rewrite Hd, commits_of_app in Hnew |- *.
  destruct (reachedEndPos (context st')).
  - specialize (Hleft eq_refl). split.
    + destruct Hlast as [Hsame|Hin].
      * right. split; [exact Hsame|]. intros c Hc.
        apply in_app_or in Hc as [Hc|Hc]; [|exact (Hleft c Hc)].
        specialize (Hall c Hc). specialize (Hnew c (in_or_app _ _ _ (or_introl Hc))).
        lia.
      * left. split; [apply in_or_app; left; exact Hin|]. split; [lia|].
        intros c Hc Hle. apply in_app_or in Hc as [Hc|Hc]; [exact (Hall c Hc)|].
        specialize (Hleft c Hc). lia.
    + exists done. split; [reflexivity|]. split; [|exact Hleft].
      intros c Hc Hle. apply in_app_or in Hc as [Hc|Hc]; [exact Hc|].
      specialize (Hleft c Hc). lia.
  - destruct (Hend eq_refl) as [Hnil Hbelow]. split; [exact Hnil|].
    intros c Hc. rewrite Hnil in Hc. cbn [commits_of] in Hc. rewrite app_nil_r in Hc.
    specialize (Hall c Hc). lia.
Qed.

End Stop.

(** ** The end position *)

Section EndPosition.
Context {X : Type}.
Variable H : Helpers X.

Lemma replay_line_ends_in_final_check line (st1 : RState X) stop st2 :
  stream_replay_line H line st1 = ((true, stop), st2) ->
  exists sta, final_check sta = ((true, stop), st2).
Proof.
  intros Hline. destruct (parseSQLAction H line) as [m|] eqn:Hparse.
  - rewrite (stream_replay_line_steps H line m st1 Hparse) in Hline.
    destruct (call (stream_apply_sql H m line) (EvApplySql (action m) line) st1)
      as [applied sta1].
    destruct applied; cbn [negb] in Hline; [|discriminate].
    destruct (after_progress_call H m sta1) as [reported sta2].
    destruct reported; cbn [negb] in Hline; [|discriminate].
    exists sta2. exact Hline.
  - unfold stream_replay_line in Hline. rewrite Hparse in Hline. discriminate.
Qed.

Lemma final_check_stop (sta st2 : RState X) stop :
  final_check sta = ((true, stop), st2) ->
  (endpos_reached (context st2) = true -> stop = true)
  /\ (stop = true -> reachedEndPos (context st2) = true)
  /\ (stop = false -> endpos_reached (context st2) = false).
Proof.
  unfold final_check.
  destruct (reachedEndPos (context sta) || endpos_reached (context sta)) eqn:Hc;
    intros Heq; inversion Heq; subst; cbn [context].
  - repeat split; auto; discriminate.
  - apply orb_false_elim in Hc as [_ Hc]. rewrite Hc.
    repeat split; auto; discriminate.
Qed.


Lemma after_progress_call_events m (st1 : RState X) :
  events (snd (after_progress_call H m st1))
  = events st1 ++ progress_call (action m) (context st1)
                    (time H (outside st1) mod uint64_modulus).
Proof.
  unfold after_progress_call, progress_call.
  destruct (is_progress_point (action m)); [|now rewrite app_nil_r].
  destruct (sentinelQueryInProgress (context st1)); [apply call_events|].
  destruct (1 <? uint64_sub _ _); [apply call_events|now rewrite app_nil_r].
Qed.

(** C6.  After a line is replayed, [stream_replay_line] makes the sentinel
    call [progress_call] describes and no other: none unless the line is a
    COMMIT or a KEEPALIVE; at such a line, when an update is in flight it
    fetches its result and sends nothing, and otherwise it sends an update
    only if more than one second passed since the last sync.  With helpers
    that keep the in-flight flag and the sync time as they are meant, every
    run of the reader is paced: each update is sent right after the replay of
    a COMMIT or a KEEPALIVE, more than a second after the update before, and
    never while another update was sent and not yet fetched. *)
Theorem C6_sentinel_updates_paced :
  (forall (line : string) (m : LogicalMessageMetadata) (st : RState X),
     parseSQLAction H line = Some m ->
     let replayed :=
       call (stream_apply_sql H m line) (EvApplySql (action m) line) st in
     fst replayed = true ->
     events (snd (stream_replay_line H line st))
     = events (snd replayed)
       ++ progress_call (action m) (context (snd replayed))
            (time H (outside (snd replayed)) mod uint64_modulus))
  /\ (helpers_keep_pace H ->
      forall (fuel : nat) (st : RState X) (r : bool) (st' : RState X),
        pace_invariant H st ->
        read_from_stream H fuel st = Some (r, st') ->
        sentinel_updates_paced (events st')).
Proof.
  split.
  - intros line m st Hparse replayed Hok. subst replayed.
    rewrite (stream_replay_line_steps H line m st Hparse).
    destruct (call (stream_apply_sql H m line) (EvApplySql (action m) line) st)
      as [applied st1].
    cbn [fst snd] in *. subst applied. cbn [negb].
    pose proof (after_progress_call_events m st1) as Hev.
    destruct (after_progress_call H m st1) as [reported st2]. cbn [snd] in Hev.
    destruct reported; cbn [negb snd]; [|exact Hev].
    now rewrite final_check_events.
  - intros Hpace fuel st r st' Hinv Hrun.
    exact (read_from_stream_paced H Hpace fuel st r st' Hinv Hrun).
Qed.

End EndPosition.

Lemma example_helpers_keep_pace : helpers_keep_pace example_helpers.
Proof.
  constructor; cbn [time read_line stream_apply_sql stream_apply_send_sync_sentinel
                    stream_apply_fetch_sync_sentinel example_helpers].
  - intros x. unfold example_time, uint64_modulus. lia.
  - intros x. destruct (pipe x) as [|[l|] rest]; cbn [snd];
      unfold example_time, with_pipe; cbn [clock]; lia.
  - intros m l c x. unfold example_apply_sql.
    destruct (action m); try (cbn [snd]; lia);
      try destruct (beyond_endpos c _);
      try destruct (in_transaction x); cbn [snd];
      unfold example_time, with_target; cbn [clock]; lia.
  - intros m l c x. unfold example_apply_sql.
    destruct (action m); try (split; reflexivity);
      try destruct (beyond_endpos c _);
      try destruct (in_transaction x); split; reflexivity.
  - intros c x. cbn [snd]. unfold example_time, with_replay_lsn. cbn [clock]. lia.
  - intros c x _. split; reflexivity.
  - intros c x. cbn [snd]. lia.
  - intros c x. cbn [fst snd with_sentinel sentinelSyncTime sentinelQueryInProgress].
    split; [right|intros _]; lia.
Qed.

Lemma example_helpers_respect_endpos :
  helpers_respect_endpos example_helpers example_unread example_applying.
Proof.
  constructor; cbn [read_line stream_apply_sql stream_apply_send_sync_sentinel
                    stream_apply_fetch_sync_sentinel example_helpers].
  - intros txn c x [He Ht]. unfold example_unread, example_applying.
    destruct (pipe x) as [|[l|] rest] eqn:Hp; cbn [fst snd pipe with_pipe
      sentinel_endpos in_transaction example_unread_lines]; auto.
    rewrite Hp. auto.
  - intros m line c x [He Ht] Ha Hnew. unfold example_apply_sql.
    rewrite Ha. unfold example_unread, example_applying.
    destruct (beyond_endpos c (txnCommitLSN m)); intros _;
      cbn [fst snd pipe with_target set_reachedEndPos endpos previousLSN
           reachedEndPos sentinel_endpos in_transaction];
      repeat split; auto; apply Z.leb_le; lia.
  - intros m line c x [He Ht] Ha. unfold example_apply_sql.
    rewrite Ha, Ht. intros _. unfold example_unread, example_applying.
    cbn [fst snd pipe with_target with_progress endpos previousLSN
         reachedEndPos sentinel_endpos in_transaction]. repeat split; auto.
  - intros m line txn c x [He Ht] Hnb Hnc. unfold example_apply_sql.
    destruct (action m); try contradiction; intros _;
      cbn [fst snd]; repeat split; auto.
  - intros txn c x [He Ht] _. unfold example_unread, example_applying.
    cbn [fst snd with_sentinel endpos previousLSN reachedEndPos].
    repeat split; auto.
  - intros txn c x [He Ht] _. unfold example_unread, example_applying.
    cbn [fst snd with_sentinel with_replay_lsn endpos previousLSN reachedEndPos
         pipe sentinel_endpos in_transaction]. repeat split; auto.
Qed.

Lemma example_ready_invariant x :
  pace_invariant example_helpers (example_ready x).
Proof.
  unfold pace_invariant, sentinel_updates_paced, example_ready.
  cbn. unfold example_time, uint64_modulus.
  repeat split; try discriminate; lia.
Qed.

(** ** Runs of the examples *)

Example replay_without_endpos :
  match stream_apply_replay example_helpers 100 example_specs
          (example_outside 0 0 four_transactions) with
  | Some (r, st) =>
      r = true
      /\ committed (outside st) = [10; 20; 30; 40]
      /\ sentinel_replay_lsn (outside st) = 40
      /\ last (events st) = Some (EvSyncSentinel 40)
  | None => False
  end.
Proof. vm_compute. repeat split; reflexivity. Qed.

Example replay_up_to_endpos :
  match stream_apply_replay example_helpers 100 example_specs
          (example_outside 30 0 four_transactions) with
  | Some (r, st) =>
      r = true
      /\ committed (outside st) = [10; 20; 30]
      /\ pipe (outside st)
         = [Some "BEGIN 38/40"; Some "COMMIT 40"; Some "KEEPALIVE 45"]
      /\ last (events st) = Some (EvSyncSentinel 30)
  | None => False
  end.
Proof. vm_compute. repeat split; reflexivity. Qed.


(** C2, as it is worded, fails on an error exit: reading the second line of
    the input fails, the applier returns [false] and no synchronous update of
    the sentinel was performed. *)
Lemma C2_counterexample_read_failure :
  ~ final_sync_on_every_exit example_helpers 100 example_specs
      (example_outside 0 0 [Some "BEGIN 8/10"; None]).
Proof.
  intros Hc.
  set (run := stream_apply_replay example_helpers 100 example_specs
                (example_outside 0 0 [Some "BEGIN 8/10"; None])).
  set (st := match run with Some (_, st) => st | None => example_ready (example_outside 0 0 []) end).
  assert (Hrun : run = Some (false, st)) by (vm_compute; reflexivity).
  specialize (Hc false st Hrun). vm_compute in Hc. discriminate Hc.
Qed.

Lemma C2_final_sync_only_after_successful_replay_witness :
  match stream_apply_replay example_helpers 100 example_specs
          (example_outside 25 0 four_transactions) with
  | Some (r, st) =>
      r = true
      /\ last (events st) = Some (EvSyncSentinel 20)
      /\ length (filter (fun e => is_sync_event e = true) (events st)) = 1%nat
  | None => False
  end.
Proof.
  set (x := example_outside 25 0 four_transactions).
  set (ready := example_ready (example_outside 0 0 [])).
  set (st0 := match replay_setup example_helpers example_specs x with
              | SetupDone st => st
              | SetupReturns _ _ => ready
              end).
  set (st1 := match read_from_stream example_helpers 100 st0 with
              | Some (_, st) => st
              | None => ready
              end).
  set (st2 := match drain_sentinel_query example_helpers 100 st1 with
              | Some (_, st) => st
              | None => ready
              end).
  assert (Hsetup : replay_setup example_helpers example_specs x = SetupDone st0)
    by (vm_compute; reflexivity).
  assert (Hread : read_from_stream example_helpers 100 st0 = Some (true, st1))
    by (vm_compute; reflexivity).
  assert (Hdrain : drain_sentinel_query example_helpers 100 st1 = Some (true, st2))
    by (vm_compute; reflexivity).
  destruct (C2_final_sync_only_after_successful_replay example_helpers 100
              example_specs x) as [Hsync _].
  destruct (Hsync st0 st1 st2 Hsetup Hread Hdrain) as [Hrun _].
  rewrite Hrun. vm_compute. repeat split; reflexivity.
Defined.

Lemma C6_sentinel_updates_paced_witness :
  match read_from_stream example_helpers 100
          (example_ready (example_outside 0 0 four_transactions)) with
  | Some (_, st') => sentinel_updates_paced (events st')
  | None => False
  end.
Proof.
  destruct (C6_sentinel_updates_paced example_helpers) as [_ Hpaced].
  specialize (Hpaced example_helpers_keep_pace 100%nat
                (example_ready (example_outside 0 0 four_transactions))).
  destruct (read_from_stream example_helpers 100
              (example_ready (example_outside 0 0 four_transactions)))
    as [[r st']|] eqn:Hrun.
  - apply (Hpaced r st' (example_ready_invariant _) eq_refl).
  - vm_compute in Hrun. discriminate Hrun.
Defined.

End LdReplayProofs.

(** * More on dump_restore.c: files, order of actions, resuming *)

Module DumpRestoreBehaviour.

Import DumpRestore DumpRestoreProofs.

Lemma files_kept_refl w : files_kept w w.
Proof. intros p Hp. exact Hp. Qed.

Lemma files_kept_insert w w1 p d tr :
  files_kept w w1 ->
  files_kept w {| files := <[p := d]> (files w1); trace := tr |}.
Proof.
  intros Hk q Hq. unfold marker_exists. cbn [files].
  apply lookup_insert_is_Some'. right. apply Hk, Hq.
Qed.

Lemma files_kept_same w w1 tr :
  files_kept w w1 -> files_kept w {| files := files w1; trace := tr |}.
Proof. intros Hk q Hq. apply Hk, Hq. Qed.

Ltac kept :=
  first
    [ assumption
    | apply files_kept_refl
    | let q := fresh "q" in
      let Hq := fresh "Hq" in
      intros q Hq; unfold marker_exists in *; cbn [files];
      repeat (apply lookup_insert_is_Some'; right);
      first [ exact Hq
            | match goal with Hk : files_kept _ _ |- _ => exact (Hk q Hq) end ] ].

Lemma write_restore_list_keeps_files env specs section w :
  files_kept w (snd (copydb_write_restore_list env specs section w)).
Proof.
  pose proof (write_restore_list_cases env specs section w) as Hc.
  destruct (section_files specs section) as [[d l]|].
  - destruct (pg_restore_list_out env w d) as [contents|]; rewrite Hc.
    + unfold write_restore_list_result.
      repeat match goal with |- context [if ?c then _ else _] => destruct c end;
        cbn [snd]; kept.
    + cbn [snd]. kept.
  - rewrite Hc. kept.
Qed.

Lemma drop_tables_keeps_files env specs w :
  files_kept w (snd (copydb_target_drop_tables env specs w)).
Proof.
  rewrite drop_tables_result. cbv zeta.
  repeat match goal with |- context [if ?c then _ else _] => destruct c end;
    cbn [snd]; kept.
Qed.

Lemma prepare_namespaces_keeps_files env specs w :
  files_kept w (snd (copydb_target_prepare_namespaces env specs w)).
Proof.
  rewrite prepare_namespaces_result. cbv zeta.
  repeat match goal with |- context [if ?c then _ else _] => destruct c end;
    cbn [snd]; kept.
Qed.

Lemma dump_source_schema_keeps_files env specs snapshot section w :
  files_kept w (snd (copydb_dump_source_schema env specs snapshot section w)).
Proof.
  unfold copydb_dump_source_schema, orfail, bind, file_exists, ret, pg_dump_db,
    write_file.
  destruct section; cbv zeta;
    repeat match goal with |- context [if ?c then _ else _] => destruct c end;
    cbn [snd files trace]; kept.
Qed.

Lemma prepare_schema_keeps_files env specs w :
  files_kept w (snd (copydb_target_prepare_schema env specs w)).
Proof.
  unfold copydb_target_prepare_schema, orfail, bind, file_exists, ret.
  destruct (bool_decide _); [|kept].
  destruct (bool_decide _); [kept|].
  pose proof (write_restore_list_keeps_files env specs PG_DUMP_SECTION_PRE_DATA w)
    as Hk.
  destruct (copydb_write_restore_list env specs PG_DUMP_SECTION_PRE_DATA w)
    as [listed w1].
  cbn [snd] in Hk. destruct listed; cbn [negb]; [|exact Hk].
  destruct (dropIfExists (restoreOptions specs));
  destruct (Nat.ltb 0 (length (includeOnlySchemaList (filters specs))));
  rewrite ?drop_tables_result, ?prepare_namespaces_result; cbv zeta;
  destruct (Nat.eqb (length (sourceTableArray specs)) 0);
  repeat match goal with
    | |- context [if ?c then _ else _] => destruct c
    end;
  rewrite ?drop_tables_result, ?prepare_namespaces_result; cbv zeta;
  repeat match goal with
    | |- context [if ?c then _ else _] => destruct c
    end;
  unfold pg_restore_db, write_file;
  repeat match goal with
    | |- context [if ?c then _ else _] => destruct c
    end;
  cbn [snd files trace]; kept.
Qed.

Lemma finalize_schema_keeps_files env specs w :
  files_kept w (snd (copydb_target_finalize_schema env specs w)).
Proof.
  unfold copydb_target_finalize_schema, orfail, bind, file_exists, ret.
  destruct (bool_decide _); [|kept].
  destruct (bool_decide _); [kept|].
  pose proof (write_restore_list_keeps_files env specs PG_DUMP_SECTION_POST_DATA w)
    as Hk.
  destruct (copydb_write_restore_list env specs PG_DUMP_SECTION_POST_DATA w)
    as [listed w1].
  cbn [snd] in Hk. destruct listed; cbn [negb]; [|exact Hk].
  unfold pg_restore_db, write_file;
  repeat match goal with
    | |- context [if ?c then _ else _] => destruct c
    end;
  cbn [snd files trace]; kept.
Qed.

(** X1. No function of the driver removes a file of the work directory: a
    file that exists before a call exists after it. *)
Theorem X1_driver_never_removes_a_file
  (env : Env) (specs : CopyDataSpec) (snapshot : string)
  (section : PostgresDumpSection) (w : World) (p : string) :
  marker_exists w p ->
  marker_exists (snd (copydb_dump_source_schema env specs snapshot section w)) p
  /\ marker_exists (snd (copydb_write_restore_list env specs section w)) p
  /\ marker_exists (snd (copydb_target_drop_tables env specs w)) p
  /\ marker_exists (snd (copydb_target_prepare_namespaces env specs w)) p
  /\ marker_exists (snd (copydb_target_prepare_schema env specs w)) p
  /\ marker_exists (snd (copydb_target_finalize_schema env specs w)) p.
Proof.
  intros Hp. repeat split.
  - exact (dump_source_schema_keeps_files env specs snapshot section w p Hp).
  - exact (write_restore_list_keeps_files env specs section w p Hp).
  - exact (drop_tables_keeps_files env specs w p Hp).
  - exact (prepare_namespaces_keeps_files env specs w p Hp).
  - exact (prepare_schema_keeps_files env specs w p Hp).
  - exact (finalize_schema_keeps_files env specs w p Hp).
Qed.

Ltac prepare_steps specs :=
  let Hcount := fresh "Hcount" in
  destruct (Nat.eqb (length (sourceTableArray specs)) 0) eqn:Hcount;
  destruct (dropIfExists (restoreOptions specs));
  destruct (Nat.ltb 0 (length (includeOnlySchemaList (filters specs))));
  cbv beta; cbn [andb negb app map];
  rewrite ?drop_tables_result, ?prepare_namespaces_result; cbv zeta;
  rewrite ?Hcount;
  split_ifs;
  rewrite ?drop_tables_result, ?prepare_namespaces_result; cbv zeta;
  rewrite ?Hcount;
  split_ifs;
  unfold pg_restore_db, write_file;
  split_ifs.

Lemma prefix_of_nil {A} (l : list A) : [] `prefix_of` l.
Proof. exists l. reflexivity. Qed.

(** X2. The pre-data restore takes its actions in one order: it lists the
    archive, writes the include-list, drops the tables, creates the schemas,
    runs the restorer and writes the done-marker.  Whatever happens, what it
    did is a beginning of that sequence.  A run that called the restorer and
    returns success took the whole sequence; a run whose restorer fails
    returns failure and stops at that call. *)
Theorem X2_prepare_schema_order_of_actions
  (env : Env) (specs : CopyDataSpec) (w : World) :
  let run := copydb_target_prepare_schema env specs w in
  let sequence :=
    prepare_schema_sequence specs
      (include_list env specs w (preFilename (dumpPaths specs))) in
  new_events w (snd run) `prefix_of` sequence
  /\ (restore_invoked w (snd run) -> fst run = true ->
        new_events w (snd run) = sequence)
  /\ restore_unit_fails_with_restorer env specs w
       (copydb_target_prepare_schema env specs)
       (preFilename (dumpPaths specs)) (preListFilename (dumpPaths specs)).
Proof.
  cbv zeta. split; [|split; [|exact (restorer_failure_pre env specs w)]].
  - unfold prepare_schema_sequence, expected_sql_before_restore, include_list.
    unfold copydb_target_prepare_schema, orfail, bind, file_exists, ret.
    destruct (bool_decide _);
      [|cbn [snd]; rewrite new_events_self; apply prefix_of_nil].
    destruct (bool_decide _);
      [cbn [snd]; rewrite new_events_self; apply prefix_of_nil|].
    pose proof (write_restore_list_cases env specs PG_DUMP_SECTION_PRE_DATA w) as Hc.
    cbn [section_files] in Hc.
    destruct (pg_restore_list_out env w (preFilename (dumpPaths specs)))
      as [contents|]; rewrite Hc; clear Hc.
    2: { cbn [negb]. events_of_run. eexists; reflexivity. }
    unfold write_restore_list_result. cbv zeta.
    destruct (createPQExpBuffer_ok env _);
      [|cbn [negb]; events_of_run; eexists; reflexivity].
    destruct (PQExpBufferBroken env _ _);
      [cbn [negb]; events_of_run; eexists; reflexivity|].
    destruct (write_file_ok env _ _ _);
      [|cbn [negb]; events_of_run; eexists; reflexivity].
    cbn [negb].
    prepare_steps specs; events_of_run; eexists; reflexivity.
  - unfold restore_invoked.
    unfold prepare_schema_sequence, expected_sql_before_restore, include_list.
    unfold copydb_target_prepare_schema, orfail, bind, file_exists, ret.
    destruct (bool_decide _);
      [|cbn [snd]; rewrite new_events_self; discriminate].
    destruct (bool_decide _);
      [cbn [snd]; rewrite new_events_self; discriminate|].
    pose proof (write_restore_list_cases env specs PG_DUMP_SECTION_PRE_DATA w) as Hc.
    cbn [section_files] in Hc.
    destruct (pg_restore_list_out env w (preFilename (dumpPaths specs)))
      as [contents|]; rewrite Hc; clear Hc.
    2: { cbn [negb]. events_of_run. discriminate. }
    unfold write_restore_list_result. cbv zeta.
    destruct (createPQExpBuffer_ok env _);
      [|cbn [negb]; events_of_run; discriminate].
    destruct (PQExpBufferBroken env _ _);
      [cbn [negb]; events_of_run; discriminate|].
    destruct (write_file_ok env _ _ _);
      [|cbn [negb]; events_of_run; discriminate].
    cbn [negb].
    prepare_steps specs; events_of_run; cbn [existsb is_restore orb];
      try discriminate; intros _ Hr; first [discriminate Hr | reflexivity].
Qed.

(** X3. The post-data restore takes its actions in one order and stops at the
    first that fails: it lists the archive, writes the include-list, runs the
    restorer and writes the done-marker.  It sends no SQL to any database,
    whatever the options. *)
Theorem X3_finalize_schema_order_of_actions
  (env : Env) (specs : CopyDataSpec) (w : World) :
  new_events w (snd (copydb_target_finalize_schema env specs w))
  `prefix_of`
  finalize_schema_sequence specs
    (include_list env specs w (postFilename (dumpPaths specs)))
  /\ forall uri,
       sql_issued uri
         (new_events w (snd (copydb_target_finalize_schema env specs w))) = [].
Proof.
  unfold finalize_schema_sequence, include_list.
  unfold copydb_target_finalize_schema, orfail, bind, file_exists, ret.
  destruct (bool_decide _);
    [|cbn [snd]; rewrite new_events_self; split; [apply prefix_of_nil|reflexivity]].
  destruct (bool_decide _);
    [cbn [snd]; rewrite new_events_self; split; [apply prefix_of_nil|reflexivity]|].
  pose proof (write_restore_list_cases env specs PG_DUMP_SECTION_POST_DATA w) as Hc.
  cbn [section_files] in Hc.
  destruct (pg_restore_list_out env w (postFilename (dumpPaths specs)))
    as [contents|]; rewrite Hc; clear Hc.
  2: { cbn [negb]. events_of_run. split; [eexists|]; reflexivity. }
  unfold write_restore_list_result. cbv zeta.
  destruct (createPQExpBuffer_ok env _);
    [|cbn [negb]; events_of_run; split; [eexists|]; reflexivity].
  destruct (PQExpBufferBroken env _ _);
    [cbn [negb]; events_of_run; split; [eexists|]; reflexivity|].
  destruct (write_file_ok env _ _ _);
    [|cbn [negb]; events_of_run; split; [eexists|]; reflexivity].
  cbn [negb]. unfold pg_restore_db, write_file. split_ifs;
    events_of_run; (split; [eexists|]; reflexivity).
Qed.

Lemma prepare_schema_skips env specs w :
  marker_exists w (preFilename (dumpPaths specs)) ->
  marker_exists w (preDataRestore (done (cfPaths specs))) ->
  copydb_target_prepare_schema env specs w = (true, w).
Proof.
  intros Hd Hm. unfold copydb_target_prepare_schema, orfail, bind, file_exists, ret.
  rewrite !bool_decide_eq_true_2 by assumption. reflexivity.
Qed.

Lemma finalize_schema_skips env specs w :
  marker_exists w (postFilename (dumpPaths specs)) ->
  marker_exists w (postDataRestore (done (cfPaths specs))) ->
  copydb_target_finalize_schema env specs w = (true, w).
Proof.
  intros Hd Hm. unfold copydb_target_finalize_schema, orfail, bind, file_exists, ret.
  rewrite !bool_decide_eq_true_2 by assumption. reflexivity.
Qed.

Ltac marker_written :=
  let Hx := fresh "Hx" in
  let Hr := fresh "Hr" in
  cbn [fst snd files]; intros Hx Hr;
  first [ discriminate Hr
        | unfold marker_exists; cbn [files]; rewrite lookup_insert_eq; eauto ].

Lemma prepare_schema_restored env specs w :
  restore_invoked w (snd (copydb_target_prepare_schema env specs w)) ->
  fst (copydb_target_prepare_schema env specs w) = true ->
  marker_exists (snd (copydb_target_prepare_schema env specs w))
    (preDataRestore (done (cfPaths specs)))
  /\ marker_exists w (preFilename (dumpPaths specs)).
Proof.
  intros Hx Hr. split.
  - revert Hx Hr. unfold restore_invoked.
    unfold copydb_target_prepare_schema, orfail, bind, file_exists, ret.
    destruct (bool_decide _); [|intros _ Hr; discriminate Hr].
    destruct (bool_decide _);
      [cbn [snd]; rewrite new_events_self; intros Hx; discriminate Hx|].
    destruct (write_restore_list_events env specs PG_DUMP_SECTION_PRE_DATA w)
      as (evs & Htr & Hnr & Hsql & Hex).
    destruct (copydb_write_restore_list env specs PG_DUMP_SECTION_PRE_DATA w)
      as [listed w1].
    cbn [snd] in Htr.
    destruct listed; cbn [negb].
    2: { cbn [fst snd]. rewrite (new_events_app _ _ _ Htr), Hnr. discriminate. }
    prepare_steps specs; marker_written.
  - revert Hx. unfold restore_invoked.
    unfold copydb_target_prepare_schema, orfail, bind, file_exists, ret.
    case_bool_decide as Hd; [intros _; exact Hd|].
    cbn [snd]. rewrite new_events_self. discriminate.
Qed.

Lemma finalize_schema_restored env specs w :
  restore_invoked w (snd (copydb_target_finalize_schema env specs w)) ->
  fst (copydb_target_finalize_schema env specs w) = true ->
  marker_exists (snd (copydb_target_finalize_schema env specs w))
    (postDataRestore (done (cfPaths specs)))
  /\ marker_exists w (postFilename (dumpPaths specs)).
Proof.
  intros Hx Hr. split.
  - revert Hx Hr. unfold restore_invoked.
    unfold copydb_target_finalize_schema, orfail, bind, file_exists, ret.
    destruct (bool_decide _); [|intros _ Hr; discriminate Hr].
    destruct (bool_decide _);
      [cbn [snd]; rewrite new_events_self; intros Hx; discriminate Hx|].
    destruct (write_restore_list_events env specs PG_DUMP_SECTION_POST_DATA w)
      as (evs & Htr & Hnr & Hsql & Hex).
    destruct (copydb_write_restore_list env specs PG_DUMP_SECTION_POST_DATA w)
      as [listed w1].
    cbn [snd] in Htr.
    destruct listed; cbn [negb].
    2: { cbn [fst snd]. rewrite (new_events_app _ _ _ Htr), Hnr. discriminate. }
    unfold pg_restore_db, write_file; split_ifs; marker_written.
  - revert Hx. unfold restore_invoked.
    unfold copydb_target_finalize_schema, orfail, bind, file_exists, ret.
    case_bool_decide as Hd; [intros _; exact Hd|].
    cbn [snd]. rewrite new_events_self. discriminate.
Qed.

(** X4. Resuming after a restore: once a restore unit has run the restorer
    and succeeded, calling it again on the work directory it left does
    nothing and returns success. *)
Theorem X4_restore_rerun_is_noop
  (env env' : Env) (specs : CopyDataSpec) (w : World) :
  (restore_invoked w (snd (copydb_target_prepare_schema env specs w)) ->
   fst (copydb_target_prepare_schema env specs w) = true ->
   let w' := snd (copydb_target_prepare_schema env specs w) in
   copydb_target_prepare_schema env' specs w' = (true, w'))
  /\ (restore_invoked w (snd (copydb_target_finalize_schema env specs w)) ->
      fst (copydb_target_finalize_schema env specs w) = true ->
      let w' := snd (copydb_target_finalize_schema env specs w) in
      copydb_target_finalize_schema env' specs w' = (true, w')).
Proof.
  split; intros Hx Hr w'.
  - destruct (prepare_schema_restored env specs w Hx Hr) as [Hm Hd].
    apply prepare_schema_skips; [|exact Hm].
    exact (prepare_schema_keeps_files env specs w _ Hd).
  - destruct (finalize_schema_restored env specs w Hx Hr) as [Hm Hd].
    apply finalize_schema_skips; [|exact Hm].
    exact (finalize_schema_keeps_files env specs w _ Hd).
Qed.

Ltac inserted :=
  unfold marker_exists; cbn [files];
  repeat (apply lookup_insert_is_Some'; first [left; reflexivity | right]);
  try assumption.

Lemma dump_success_leaves_markers env specs snapshot section w :
  fst (copydb_dump_source_schema env specs snapshot section w) = true ->
  Forall (marker_exists (snd (copydb_dump_source_schema env specs snapshot section w)))
    (section_markers specs section).
Proof.
  unfold copydb_dump_source_schema, orfail, bind, file_exists, ret, pg_dump_db,
    write_file.
  destruct section; cbv zeta; cbn [section_markers]; split_ifs;
    cbn [fst snd files trace]; intros Hr; try discriminate Hr;
    repeat constructor; inserted.
Qed.

Lemma dump_skips_with_markers env specs snapshot section w :
  Forall (marker_exists w) (section_markers specs section) ->
  existsb is_dump
    (new_events w (snd (copydb_dump_source_schema env specs snapshot section w)))
  = false.
Proof.
  unfold copydb_dump_source_schema, orfail, bind, file_exists, ret, pg_dump_db,
    write_file.
  destruct section; cbv zeta; cbn [section_markers]; intros Hall;
    repeat match goal with
      | Hf : Forall _ (_ :: _) |- _ => inversion Hf; subst; clear Hf
      | Hf : Forall _ [] |- _ => clear Hf
      end;
    repeat (rewrite bool_decide_eq_true_2 by inserted); cbn [fst snd];
    repeat (match goal with
            | |- context [if write_file_ok ?e ?w ?d ?p then _ else _] =>
                destruct (write_file_ok e w d p)
            end;
            cbn [fst snd files trace];
            repeat (rewrite bool_decide_eq_true_2 by inserted));
    events_of_run; reflexivity.
Qed.

(** X5. Resuming after a dump: when [copydb_dump_source_schema] succeeds, the
    done-marker of every unit of the section exists, and calling it again on
    the work directory it left runs the dumper for no unit. *)
Theorem X5_dump_rerun_skips_the_dumper
  (env env' : Env) (specs : CopyDataSpec) (snapshot : string)
  (section : PostgresDumpSection) (w : World) :
  fst (copydb_dump_source_schema env specs snapshot section w) = true ->
  let w' := snd (copydb_dump_source_schema env specs snapshot section w) in
  Forall (marker_exists w') (section_markers specs section)
  /\ existsb is_dump
       (new_events w'
          (snd (copydb_dump_source_schema env' specs snapshot section w')))
     = false.
Proof.
  intros Hr w'.
  pose proof (dump_success_leaves_markers env specs snapshot section w Hr) as Hm.
  split; [exact Hm|]. apply dump_skips_with_markers. exact Hm.
Qed.

(** X6. When the pre-data dump fails, a dump of the whole schema stops there:
    it returns [false], the post-data dump is not attempted and no marker is
    written. *)
Theorem X6_failed_pre_data_dump_stops_the_dump
  (env : Env) (specs : CopyDataSpec) (snapshot : string)
  (section : PostgresDumpSection) (w : World) :
  section = PG_DUMP_SECTION_SCHEMA \/ section = PG_DUMP_SECTION_ALL ->
  ~ marker_exists w (preDataDump (done (cfPaths specs))) ->
  pg_dump_db_ok env w "pre-data" (preFilename (dumpPaths specs)) = false ->
  copydb_dump_source_schema env specs snapshot section w
  = (false,
     {| files := files w;
        trace := trace w ++ [EvPgDump "pre-data" (preFilename (dumpPaths specs))] |}).
Proof.
  intros Hsec Hm Hfail.
  unfold copydb_dump_source_schema, orfail, bind, file_exists, ret, pg_dump_db.
  destruct Hsec as [-> | ->]; cbv zeta;
    rewrite bool_decide_eq_false_2 by exact Hm; rewrite Hfail; reflexivity.
Qed.

(** X7. [copydb_write_restore_list] refuses every section but pre-data and
    post-data before doing anything; when it fails it has written no file;
    and in any case it leaves every file but the include-list of its section
    as it was. *)
Theorem X7_write_restore_list_touches_only_the_list
  (env : Env) (specs : CopyDataSpec) (section : PostgresDumpSection) (w : World) :
  (section <> PG_DUMP_SECTION_PRE_DATA -> section <> PG_DUMP_SECTION_POST_DATA ->
   copydb_write_restore_list env specs section w = (false, w))
  /\ (fst (copydb_write_restore_list env specs section w) = false ->
      files (snd (copydb_write_restore_list env specs section w)) = files w)
  /\ (forall d l p,
        section_files specs section = Some (d, l) -> p <> l ->
        files (snd (copydb_write_restore_list env specs section w)) !! p
        = files w !! p).
Proof.
  pose proof (write_restore_list_cases env specs section w) as Hc.
  split; [|split].
  - intros Hpre Hpost. destruct section; try contradiction; exact Hc.
  - destruct (section_files specs section) as [[d l]|].
    + destruct (pg_restore_list_out env w d) as [contents|]; rewrite Hc;
        [|reflexivity].
      unfold write_restore_list_result. split_ifs; cbn [fst snd files];
        intros Hr; try discriminate Hr; reflexivity.
    + rewrite Hc. reflexivity.
  - intros d l p Hsec Hp.
    exact (write_restore_list_files env specs section w d l p Hsec Hp).
Qed.

Lemma comma_separated_names (names : list string) (n : string) :
  In n names ->
  exists before after, comma_separated names = before +:+ n +:+ after.
Proof.
  induction names as [|m rest IH]; intros Hin; [contradiction|].
  destruct Hin as [-> | Hin].
  - destruct rest as [|m' rest'].
    + exists EmptyString, EmptyString. cbn [comma_separated].
      now rewrite append_empty_r.
    + exists EmptyString, (", " +:+ comma_separated (m' :: rest')). reflexivity.
  - destruct rest as [|m' rest']; [contradiction|].
    destruct (IH Hin) as (before & after & Heq).
    exists (m +:+ ", " +:+ before), after.
    change (comma_separated (m :: m' :: rest'))
      with (m +:+ ", " +:+ comma_separated (m' :: rest')).
    rewrite Heq, !append_assoc. reflexivity.
Qed.

(** X8. Every statement [copydb_target_drop_tables] sends names every table of
    the source table array, qualified by its schema and double-quoted; it
    sends at most one statement and sends it to the target. *)
Theorem X8_drop_statement_names_every_table
  (env : Env) (specs : CopyDataSpec) (w : World) (t : SourceTable) :
  In t (sourceTableArray specs) ->
  let evs := new_events w (snd (copydb_target_drop_tables env specs w)) in
  (evs = []
   \/ evs = [EvSqlExecute (target_pguri specs)
               (drop_statement (sourceTableArray specs))])
  /\ exists before after,
       drop_statement (sourceTableArray specs)
       = before +:+ quoted_table t +:+ after.
Proof.
  intros Hin evs. split.
  - subst evs. rewrite drop_tables_result. cbv zeta.
    split_ifs; events_of_run; auto.
  - destruct (comma_separated_names (map quoted_table (sourceTableArray specs))
                (quoted_table t) (in_map _ _ _ Hin)) as (before & after & Heq).
    exists ("DROP TABLE IF EXISTS  " +:+ before), (after +:+ "CASCADE").
    unfold drop_statement. rewrite Heq, !append_assoc. reflexivity.
Qed.

(** X9. [copydb_target_prepare_namespaces] has no guard of its own: with an
    empty inclusion list it still connects to the target and sends an empty
    query, and returns what executing it returns. *)
Theorem X9_prepare_namespaces_empty_list_sends_empty_query
  (env : Env) (specs : CopyDataSpec) (w : World) :
  includeOnlySchemaList (filters specs) = [] ->
  PQExpBufferBroken env w EmptyString = false ->
  pgsql_init_ok env w (target_pguri specs) = true ->
  copydb_target_prepare_namespaces env specs w
  = (pgsql_execute_ok env w (target_pguri specs) EmptyString,
     {| files := files w;
        trace := trace w ++ [EvSqlExecute (target_pguri specs) EmptyString] |}).
Proof.
  intros Hempty Hbuf Hinit. rewrite prepare_namespaces_result, Hempty.
  cbv zeta. change (create_schema_statements []) with EmptyString.
  rewrite Hbuf, Hinit. reflexivity.
Qed.

Lemma length_append (a b : string) :
  String.length (a +:+ b) = String.length a + String.length b.
Proof.
  induction a as [|ch a IH]; [reflexivity|].
  change (S (String.length (a +:+ b)) = S (String.length a + String.length b)).
  now rewrite IH.
Qed.

Lemma append_cancel_r (a b s : string) : a +:+ s = b +:+ s -> a = b.
Proof.
  revert b. induction a as [|ch a IH]; intros b Heq.
  - destruct b as [|ch' b]; [reflexivity|].
    apply (f_equal String.length) in Heq.
    change (EmptyString +:+ s) with s in Heq.
    change (String ch' b +:+ s) with (String ch' (b +:+ s)) in Heq.
    cbn [String.length] in Heq. rewrite length_append in Heq. lia.
  - destruct b as [|ch' b].
    + apply (f_equal String.length) in Heq.
      change (EmptyString +:+ s) with s in Heq.
      change (String ch a +:+ s) with (String ch (a +:+ s)) in Heq.
      cbn [String.length] in Heq. rewrite length_append in Heq. lia.
    + change (String ch (a +:+ s) = String ch' (b +:+ s)) in Heq.
      inversion Heq; subst. f_equal. apply IH. assumption.
Qed.

Lemma done_marker_path_inj specs o o' :
  done_marker_path specs o = done_marker_path specs o' -> o = o'.
Proof.
  unfold done_marker_path. intros Heq.
  apply String.app_inj in Heq. apply String.app_inj in Heq.
  apply append_cancel_r in Heq. apply (inj pretty) in Heq. exact Heq.
Qed.

(** X10. The done-marker of one object never stands for another: when the
    marker paths fit in the path buffer, a work directory that holds the
    marker of object [o] and no other file makes
    [copydb_objectid_has_been_processed_already] answer true for [o] and
    false for every other object. *)
Theorem X10_done_marker_identifies_its_object
  (specs : CopyDataSpec) (o o' : N) (w : World) :
  (String.length (done_marker_path specs o) < MAXPGPATH)%nat ->
  (String.length (done_marker_path specs o') < MAXPGPATH)%nat ->
  (forall p, marker_exists w p <-> p = done_marker_path specs o) ->
  fst (copydb_objectid_has_been_processed_already specs o' w) = true <-> o' = o.
Proof.
  intros Hlen Hlen' Honly.
  rewrite (processed_already_is_done_marker specs o' w Hlen').
  rewrite Honly. split.
  - apply done_marker_path_inj.
  - intros ->. reflexivity.
Qed.

(** X11. When the statement of [--drop-if-exists] cannot be executed, the
    pre-data restore does not run the restorer. *)
Theorem X11_failed_drop_prevents_the_restore
  (env : Env) (specs : CopyDataSpec) (w : World) :
  dropIfExists (restoreOptions specs) = true ->
  sourceTableArray specs <> [] ->
  (forall w0, pgsql_execute_ok env w0 (target_pguri specs)
                (drop_statement (sourceTableArray specs)) = false) ->
  ~ restore_invoked w (snd (copydb_target_prepare_schema env specs w)).
Proof.
  intros Hdrop Htables Hfail. unfold restore_invoked.
  unfold copydb_target_prepare_schema, orfail, bind, file_exists, ret.
  destruct (bool_decide _); [|cbn [snd]; rewrite new_events_self; discriminate].
  destruct (bool_decide _); [cbn [snd]; rewrite new_events_self; discriminate|].
  destruct (write_restore_list_events env specs PG_DUMP_SECTION_PRE_DATA w)
    as (evs & Htr & Hnr & Hsql & Hex).
  destruct (copydb_write_restore_list env specs PG_DUMP_SECTION_PRE_DATA w)
    as [listed w1].
  cbn [snd] in Htr.
  destruct listed; cbn [negb].
  2: { cbn [snd]. rewrite (new_events_app _ _ _ Htr), Hnr. discriminate. }
  rewrite Hdrop, drop_tables_result. cbv zeta.
  destruct (sourceTableArray specs) as [|t rest] eqn:Harr; [contradiction|].
  cbn [length Nat.eqb]. rewrite Hfail.
  split_ifs; unfold new_events; cbn [snd trace];
    rewrite ?Htr, <- ?app_assoc, ?drop_app_length, ?Hex, ?Hnr;
    cbn [app existsb is_restore orb]; discriminate.
Qed.

(** ** Runs of the examples *)

Lemma X1_driver_never_removes_a_file_witness :
  marker_exists
    (snd (copydb_target_prepare_schema env_ok
            (example_specs true example_tables example_schemas)
            (world_with ["/w/schema/pre.dump"])))
    "/w/schema/pre.dump".
Proof.
  assert (Hp : marker_exists (world_with ["/w/schema/pre.dump"])
                 "/w/schema/pre.dump")
    by (unfold marker_exists; vm_compute; eauto).
  destruct (X1_driver_never_removes_a_file env_ok
              (example_specs true example_tables example_schemas) "snapshot"
              PG_DUMP_SECTION_PRE_DATA (world_with ["/w/schema/pre.dump"])
              "/w/schema/pre.dump" Hp) as (_ & _ & _ & _ & Hkept & _).
  exact Hkept.
Defined.

Example prepare_schema_takes_the_whole_sequence :
  new_events (world_with ["/w/schema/pre.dump"])
    (snd (copydb_target_prepare_schema env_ok
            (example_specs true example_tables example_schemas)
            (world_with ["/w/schema/pre.dump"])))
  = prepare_schema_sequence (example_specs true example_tables example_schemas)
      (include_list env_ok (example_specs true example_tables example_schemas)
         (world_with ["/w/schema/pre.dump"]) "/w/schema/pre.dump").
Proof. vm_compute. reflexivity. Qed.

Lemma X2_prepare_schema_order_of_actions_witness :
  let specs := example_specs true example_tables example_schemas in
  let w := world_with ["/w/schema/pre.dump"] in
  new_events w (snd (copydb_target_prepare_schema env_ok specs w))
  = prepare_schema_sequence specs (include_list env_ok specs w "/w/schema/pre.dump")
  /\ last (trace (snd (copydb_target_prepare_schema env_tools_fail specs w)))
     = Some (EvPgRestore "/w/schema/pre.dump" "/w/schema/pre.list").
Proof.
  intros specs w. split.
  - apply (X2_prepare_schema_order_of_actions env_ok specs w);
      vm_compute; reflexivity.
  - destruct (X2_prepare_schema_order_of_actions env_tools_fail specs w)
      as (_ & _ & Hfail).
    assert (Hrun : restore_invoked w
              (snd (copydb_target_prepare_schema env_tools_fail specs w)))
      by (vm_compute; reflexivity).
    exact (proj2 (Hfail Hrun eq_refl)).
Defined.

Lemma X4_restore_rerun_is_noop_witness :
  let w' := snd (copydb_target_prepare_schema env_ok
                   (example_specs true example_tables example_schemas)
                   (world_with ["/w/schema/pre.dump"])) in
  copydb_target_prepare_schema env_write_fails
    (example_specs true example_tables example_schemas) w'
  = (true, w').
Proof.
  destruct (X4_restore_rerun_is_noop env_ok env_write_fails
              (example_specs true example_tables example_schemas)
              (world_with ["/w/schema/pre.dump"])) as [Hpre _].
  apply Hpre; vm_compute; reflexivity.
Defined.

Lemma X5_dump_rerun_skips_the_dumper_witness :
  let w' := snd (copydb_dump_source_schema env_ok
                   (example_specs false example_tables []) "snapshot"
                   PG_DUMP_SECTION_SCHEMA (world_with [])) in
  Forall (marker_exists w')
    ["/w/run/done/pre-data-dump"; "/w/run/done/post-data-dump"]
  /\ existsb is_dump
       (new_events w'
          (snd (copydb_dump_source_schema env_tools_fail
                  (example_specs false example_tables []) "snapshot"
                  PG_DUMP_SECTION_SCHEMA w')))
     = false.
Proof.
  apply (X5_dump_rerun_skips_the_dumper env_ok env_tools_fail
           (example_specs false example_tables []) "snapshot"
           PG_DUMP_SECTION_SCHEMA (world_with [])).
  vm_compute. reflexivity.
Defined.

Lemma X6_failed_pre_data_dump_stops_the_dump_witness :
  copydb_dump_source_schema env_tools_fail
    (example_specs false example_tables []) "snapshot" PG_DUMP_SECTION_ALL
    (world_with [])
  = (false,
     {| files := files (world_with []);
        trace := [EvPgDump "pre-data" "/w/schema/pre.dump"] |}).
Proof.
  apply (X6_failed_pre_data_dump_stops_the_dump env_tools_fail
           (example_specs false example_tables []) "snapshot"
           PG_DUMP_SECTION_ALL (world_with [])).
  - right. reflexivity.
  - unfold marker_exists. vm_compute. intros [x Hx]. discriminate Hx.
  - reflexivity.
Defined.

Lemma X7_write_restore_list_touches_only_the_list_witness :
  let specs := example_specs false example_tables [] in
  let w := world_with ["/w/schema/pre.dump"; "/w/run/done/pre-data-dump"] in
  let run := copydb_write_restore_list env_ok specs PG_DUMP_SECTION_PRE_DATA w in
  fst run = true
  /\ files (snd run) !! "/w/schema/pre.list"
     = Some (include_list env_ok specs w "/w/schema/pre.dump")
  /\ files (snd run) !! "/w/schema/pre.dump" = files w !! "/w/schema/pre.dump"
  /\ files (snd run) !! "/w/run/done/pre-data-dump"
     = files w !! "/w/run/done/pre-data-dump"
  /\ copydb_write_restore_list env_ok specs PG_DUMP_SECTION_ALL w = (false, w).
Proof.
  intros specs w run.
  destruct (X7_write_restore_list_touches_only_the_list env_ok specs
              PG_DUMP_SECTION_PRE_DATA w) as (_ & _ & Hothers).
  destruct (X7_write_restore_list_touches_only_the_list env_ok specs
              PG_DUMP_SECTION_ALL w) as (Hrefused & _ & _).
  assert (Hne : forall p : string,
             String.eqb p "/w/schema/pre.list" = false -> p <> "/w/schema/pre.list").
  { intros p Hp Heq. apply String.eqb_eq in Heq. congruence. }
  split; [vm_compute; reflexivity|].
  split; [vm_compute; reflexivity|].
  split; [exact (Hothers "/w/schema/pre.dump" "/w/schema/pre.list"
                   "/w/schema/pre.dump" eq_refl (Hne "/w/schema/pre.dump" eq_refl))|].
  split; [exact (Hothers "/w/schema/pre.dump" "/w/schema/pre.list"
                   "/w/run/done/pre-data-dump" eq_refl
                   (Hne "/w/run/done/pre-data-dump" eq_refl))|].
  apply Hrefused; discriminate.
Defined.

Lemma X8_drop_statement_names_every_table_witness :
  exists before after,
    drop_statement example_tables
    = before +:+
      quoted_table {| oid := 16390; nspname := "app"; relname := "t2" |} +:+
      after.
Proof.
  destruct (X8_drop_statement_names_every_table env_ok
              (example_specs true example_tables []) (world_with [])
              {| oid := 16390; nspname := "app"; relname := "t2" |})
    as [_ Hnamed].
  - right. left. reflexivity.
  - exact Hnamed.
Defined.

Lemma X9_prepare_namespaces_empty_list_sends_empty_query_witness :
  copydb_target_prepare_namespaces env_ok (example_specs false example_tables [])
    (world_with [])
  = (true,
     {| files := files (world_with []);
        trace := [EvSqlExecute "postgres://target/db" EmptyString] |}).
Proof.
  apply (X9_prepare_namespaces_empty_list_sends_empty_query env_ok
           (example_specs false example_tables []) (world_with []));
    reflexivity.
Defined.

Lemma world_with_one (p0 p : string) :
  marker_exists (world_with [p0]) p <-> p = p0.
Proof.
  unfold marker_exists, world_with. cbn [files map list_to_map foldr].
  cbn. rewrite lookup_insert_is_Some'. split.
  - intros [Heq | Hin]; [now symmetry|].
    rewrite lookup_empty in Hin. destruct Hin as [x Hx]. discriminate Hx.
  - intros ->. left. reflexivity.
Qed.

Lemma X10_done_marker_identifies_its_object_witness :
  fst (copydb_objectid_has_been_processed_already
         (example_specs false example_tables []) 16403
         (world_with ["/w/run/indexes/16401.done"])) = true
  <-> 16403%N = 16401%N.
Proof.
  apply (X10_done_marker_identifies_its_object
           (example_specs false example_tables []) 16401 16403
           (world_with ["/w/run/indexes/16401.done"])).
  - vm_compute. lia.
  - vm_compute. lia.
  - intros p. apply world_with_one.
Defined.

Lemma X11_failed_drop_prevents_the_restore_witness :
  ~ restore_invoked (world_with ["/w/schema/pre.dump"])
      (snd (copydb_target_prepare_schema env_sql_fails
              (example_specs true example_tables [])
              (world_with ["/w/schema/pre.dump"]))).
Proof.
  apply (X11_failed_drop_prevents_the_restore env_sql_fails
           (example_specs true example_tables [])
           (world_with ["/w/schema/pre.dump"])).
  - reflexivity.
  - discriminate.
  - intros w0. reflexivity.
Defined.

End DumpRestoreBehaviour.

(** * More on extensions.c: what the copy does *)

Module ExtensionsBehaviour.

Import Extensions.

Lemma copy_config_loop_all_copied env array :
  (forall tr sql q, pg_copy_ok env tr sql q = true) ->
  forall tr, copy_config_loop env array tr = (true, tr ++ map config_copy array).
Proof.
  intros Hok. induction array as [|c rest IH]; intros tr.
  - cbn. now rewrite app_nil_r.
  - cbn [copy_config_loop map]. unfold orfail, bind, pg_copy. rewrite Hok.
    rewrite IH, <- app_assoc. reflexivity.
Qed.

Lemma copy_extensions_loop_all_copied env array :
  (forall tr sql q, pg_copy_ok env tr sql q = true) ->
  forall errors tr,
    copy_extensions_loop env false array errors tr
    = (Some errors, tr ++ map config_copy (flat_map config array)).
Proof.
  intros Hok. induction array as [|ext rest IH]; intros errors tr.
  - cbn. now rewrite app_nil_r.
  - cbn [copy_extensions_loop flat_map]. unfold bind, ret.
    destruct (Nat.ltb 0 (length (config ext))) eqn:Hlen.
    + rewrite copy_config_loop_all_copied by exact Hok.
      rewrite IH, map_app, app_assoc. reflexivity.
    + destruct (config ext); [|discriminate Hlen].
      rewrite IH. reflexivity.
Qed.

(** X12. When the connection opens and every copy succeeds,
    [copydb_copy_extensions] without [createExtensions] copies every
    configuration table of every extension once, in the order of the catalog,
    creates nothing, closes the connection last and returns success. *)
Theorem X12_every_configuration_table_is_copied
  (env : Env) (copySpecs : CopyDataSpec) (tr : list Event) :
  pgsql_init_ok env tr (target_pguri copySpecs) = true ->
  (forall tr' sql q, pg_copy_ok env tr' sql q = true) ->
  copydb_copy_extensions env copySpecs false tr
  = (true,
     tr ++ map config_copy (flat_map config (extensionArray copySpecs))
        ++ [EvPgsqlFinish]).
Proof.
  intros Hinit Hok. unfold copydb_copy_extensions, orfail, bind, pgsql_init.
  rewrite Hinit, copy_extensions_loop_all_copied by exact Hok.
  unfold emit, ret. cbn [Nat.eqb]. now rewrite <- app_assoc.
Qed.

Lemma copies_succeed_app env evs : forall tr evs',
  copies_succeed env tr (evs ++ evs')
  = copies_succeed env tr evs && copies_succeed env (tr ++ evs) evs'.
Proof.
  induction evs as [|e evs IH]; intros tr evs'.
  - cbn. now rewrite app_nil_r.
  - cbn [app copies_succeed]. rewrite IH, <- app_assoc, andb_assoc. reflexivity.
Qed.

Lemma stopped_at_failed_copy_app env tr evs evs' :
  copies_succeed env tr evs = true ->
  stopped_at_failed_copy env (tr ++ evs) evs' ->
  stopped_at_failed_copy env tr (evs ++ evs').
Proof.
  intros Hok (done & sql & q & -> & Hdone & Hfail).
  exists (evs ++ done), sql, q. rewrite copies_succeed_app, Hok, Hdone.
  rewrite <- !app_assoc in *. repeat split; auto.
Qed.

Lemma copy_config_loop_outcome env array : forall tr,
  exists evs,
    copy_config_loop env array tr = (copies_succeed env tr evs, tr ++ evs)
    /\ existsb is_sql evs = false /\ existsb is_finish evs = false
    /\ (copies_succeed env tr evs = false -> stopped_at_failed_copy env tr evs).
Proof.
  induction array as [|c rest IH]; intros tr.
  - exists []. cbn. rewrite app_nil_r. repeat split; auto. discriminate.
  - cbn [copy_config_loop]. unfold orfail, bind, pg_copy.
    destruct (pg_copy_ok env tr _ _) eqn:Hcopy.
    + destruct (IH (tr ++ [config_copy c])) as (evs & Heq & Hs & Hf & Hstop).
      exists (config_copy c :: evs).
      change (copy_config_loop env rest (tr ++ [config_copy c])
              = (copies_succeed env tr (config_copy c :: evs),
                 tr ++ config_copy c :: evs)
              /\ existsb is_sql (config_copy c :: evs) = false
              /\ existsb is_finish (config_copy c :: evs) = false
              /\ (copies_succeed env tr (config_copy c :: evs) = false ->
                  stopped_at_failed_copy env tr (config_copy c :: evs))).
      assert (Hhead : copies_succeed env tr (config_copy c :: evs)
                      = copies_succeed env (tr ++ [config_copy c]) evs).
      { cbn [copies_succeed config_copy]. unfold config_copy in Hcopy |- *.
        cbv zeta. unfold quoted_name. rewrite Hcopy. reflexivity. }
      rewrite Hhead, Heq, <- app_assoc.
      split; [reflexivity|]. split; [exact Hs|]. split; [exact Hf|].
      intros Hfail.
      apply (stopped_at_failed_copy_app env tr [config_copy c] evs).
      * cbn [copies_succeed config_copy]. unfold config_copy in Hcopy |- *.
        cbv zeta. unfold quoted_name. rewrite Hcopy. reflexivity.
      * exact (Hstop Hfail).
    + exists [config_copy c].
      change ((false, tr ++ [config_copy c])
              = (copies_succeed env tr [config_copy c], tr ++ [config_copy c])
              /\ existsb is_sql [config_copy c] = false
              /\ existsb is_finish [config_copy c] = false
              /\ (copies_succeed env tr [config_copy c] = false ->
                  stopped_at_failed_copy env tr [config_copy c])).
      assert (Hhead : copies_succeed env tr [config_copy c] = false).
      { cbn [copies_succeed config_copy]. unfold config_copy.
        cbv zeta. unfold quoted_name. rewrite Hcopy. reflexivity. }
      rewrite Hhead. repeat split; auto. intros _.
      unfold stopped_at_failed_copy. eexists [], _, _.
      split; [reflexivity|]. split; [reflexivity|].
      rewrite app_nil_r. exact Hcopy.
Qed.

Lemma copy_extensions_loop_outcome env array : forall errors tr,
  exists evs,
    copy_extensions_loop env false array errors tr
    = (if copies_succeed env tr evs then Some errors else None, tr ++ evs)
    /\ existsb is_sql evs = false /\ existsb is_finish evs = false
    /\ (copies_succeed env tr evs = false -> stopped_at_failed_copy env tr evs).
Proof.
  induction array as [|ext rest IH]; intros errors tr.
  - exists []. cbn. rewrite app_nil_r. repeat split; auto. discriminate.
  - cbn [copy_extensions_loop]. unfold bind, ret.
    destruct (Nat.ltb 0 (length (config ext))).
    + destruct (copy_config_loop_outcome env (config ext) tr)
        as (evs & Heq & Hs & Hf & Hstop).
      rewrite Heq.
      destruct (copies_succeed env tr evs) eqn:Hok.
      * destruct (IH errors (tr ++ evs)) as (evs2 & Heq2 & Hs2 & Hf2 & Hstop2).
        exists (evs ++ evs2).
        rewrite Heq2, copies_succeed_app, Hok, <- app_assoc, !existsb_app,
          Hs, Hs2, Hf, Hf2.
        repeat split; auto. cbn [andb]. intros Hfail.
        exact (stopped_at_failed_copy_app env tr evs evs2 Hok (Hstop2 Hfail)).
      * exists evs. rewrite Hok. repeat split; auto.
    + apply IH.
Qed.

(** X13. Without [createExtensions], [copydb_copy_extensions] sends no SQL
    statement and closes its connection exactly when it succeeds.  It
    succeeds exactly when the connection opened and every copy it attempted
    succeeded: with a connection that does not open it does nothing, and
    with a copy that fails it returns at once, that copy being its last
    action, so that the tables that follow are not copied and the connection
    is left as it is. *)
Theorem X13_copy_closes_the_connection_only_on_success
  (env : Env) (copySpecs : CopyDataSpec) (tr : list Event) :
  let run := copydb_copy_extensions env copySpecs false tr in
  let connected := pgsql_init_ok env tr (target_pguri copySpecs) in
  exists evs,
    snd run = tr ++ evs
    /\ existsb is_sql evs = false
    /\ existsb is_finish evs = fst run
    /\ fst run = connected && copies_succeed env tr evs
    /\ (connected = false -> evs = [])
    /\ (connected = true -> fst run = false -> stopped_at_failed_copy env tr evs).
Proof.
  cbv zeta. unfold copydb_copy_extensions, orfail, bind, pgsql_init.
  destruct (pgsql_init_ok env tr _).
  - destruct (copy_extensions_loop_outcome env (extensionArray copySpecs) 0 tr)
      as (evs & Heq & Hs & Hf & Hstop).
    rewrite Heq. destruct (copies_succeed env tr evs) eqn:Hok.
    + unfold emit, ret. cbn [fst snd Nat.eqb].
      exists (evs ++ [EvPgsqlFinish]).
      rewrite app_assoc, !existsb_app, Hs, Hf, copies_succeed_app, Hok.
      repeat split; try reflexivity; discriminate.
    + exists evs. cbn [fst snd andb ret]. rewrite Hok.
      repeat split; auto. discriminate.
  - exists []. cbn. rewrite app_nil_r. repeat split; auto. discriminate.
Qed.

Lemma copy_extensions_loop_creates_fail env array :
  (forall tr sql, pgsql_execute_ok env tr sql = false) ->
  (forall tr sql q, pg_copy_ok env tr sql q = true) ->
  forall errors tr,
    copy_extensions_loop env true array errors tr
    = (Some (errors + length array),
       tr ++ flat_map (fun ext => EvSqlExecute (create_extension_sql ext)
                                  :: map config_copy (config ext)) array).
Proof.
  intros Hex Hok. induction array as [|ext rest IH]; intros errors tr.
  - cbn. rewrite app_nil_r, Nat.add_0_r. reflexivity.
  - cbn [copy_extensions_loop flat_map length]. unfold bind, ret, pgsql_execute.
    rewrite Hex.
    destruct (Nat.ltb 0 (length (config ext))) eqn:Hlen.
    + rewrite copy_config_loop_all_copied by exact Hok.
      rewrite IH. f_equal; [f_equal; lia|].
      unfold create_extension_sql. rewrite <- !app_assoc. reflexivity.
    + destruct (config ext); [|discriminate Hlen].
      rewrite IH. f_equal; [f_equal; lia|].
      unfold create_extension_sql. rewrite <- !app_assoc. reflexivity.
Qed.

(** X14. With [createExtensions], a [create extension] that fails is counted
    and does not stop the work: even when every one of them fails, each
    extension is still tried and its configuration tables copied, in order,
    and the connection is closed; the function then returns [false], unless
    there was no extension at all. *)
Theorem X14_failed_create_extension_is_counted_not_fatal
  (env : Env) (copySpecs : CopyDataSpec) (tr : list Event) :
  pgsql_init_ok env tr (target_pguri copySpecs) = true ->
  (forall tr' sql, pgsql_execute_ok env tr' sql = false) ->
  (forall tr' sql q, pg_copy_ok env tr' sql q = true) ->
  copydb_copy_extensions env copySpecs true tr
  = (Nat.eqb (length (extensionArray copySpecs)) 0,
     tr ++ flat_map (fun ext => EvSqlExecute (create_extension_sql ext)
                                :: map config_copy (config ext))
             (extensionArray copySpecs)
        ++ [EvPgsqlFinish]).
Proof.
  intros Hinit Hex Hok. unfold copydb_copy_extensions, orfail, bind, pgsql_init.
  rewrite Hinit, copy_extensions_loop_creates_fail by assumption.
  unfold emit, ret. cbn [Nat.add]. now rewrite <- app_assoc.
Qed.

(** X15. The parent never copies anything itself: whenever
    [copydb_start_extension_data_process] returns to its caller, it has done
    nothing, or it has only flushed the output and forked; it returns [false]
    only when the fork failed; and with [skipExtensions] it does not even
    fork. *)
Theorem X15_caller_only_forks
  (env : Env) (specs : CopyDataSpec) (tr : list Event) (b : bool) :
  fst (copydb_start_extension_data_process env specs tr) = Returns b ->
  (skipExtensions specs = true ->
   copydb_start_extension_data_process env specs tr = (Returns true, tr))
  /\ (skipExtensions specs = false ->
      snd (copydb_start_extension_data_process env specs tr)
      = ((tr ++ [EvFflush]) ++ [EvFflush]) ++ [EvFork]
      /\ (b = false <->
          fork_result env ((tr ++ [EvFflush]) ++ [EvFflush]) = (-1)%Z)).
Proof.
  unfold copydb_start_extension_data_process.
  destruct (skipExtensions specs).
  - intros _. split; [reflexivity|discriminate].
  - unfold bind, emit, fork.
    destruct (Z.eqb_spec (fork_result env ((tr ++ [EvFflush]) ++ [EvFflush])) (-1))
      as [Hf|Hf].
    + cbn. intros Hb. inversion Hb; subst. split; [discriminate|].
      intros _. split; [reflexivity|]. split; auto.
    + destruct (Z.eqb_spec (fork_result env ((tr ++ [EvFflush]) ++ [EvFflush])) 0)
        as [Hc|Hc].
      * destruct (copydb_copy_extensions env specs false _) as [[] tr'];
          cbn; discriminate.
      * cbn. intros Hb. inversion Hb; subst. split; [discriminate|].
        intros _. split; [reflexivity|]. split; [discriminate|contradiction].
Qed.

Lemma sformat_quoted_name c :
  short_names c -> sformat (NAMEDATALEN * 2 + 5) (quoted_name c) = quoted_name c.
Proof.
  intros [Hn Hr]. unfold sformat. apply DumpRestoreProofs.substring_whole.
  unfold quoted_name. rewrite !DumpRestoreBehaviour.length_append.
  cbn [String.length dquote].
  unfold NAMEDATALEN in *. change (String.length (String (ascii_of_nat 34) "")) with 1.
  lia.
Qed.

Lemma config_copy_whole c : short_names c -> config_copy c = whole_copy c.
Proof.
  intros Hshort. unfold config_copy, whole_copy. cbv zeta.
  now rewrite (sformat_quoted_name c Hshort).
Qed.

(** X16. The buffer of the qualified name is large enough: configuration
    tables whose schema and table names are shorter than [NAMEDATALEN] are
    copied under their whole quoted names, one after the other: what
    [pg_copy] receives, as the name of the target table and inside the
    query, is the name with nothing cut off.  When every copy succeeds, all
    the tables are copied so. *)
Theorem X16_short_names_are_copied_whole
  (env : Env) (array : list SourceExtensionConfig) (tr : list Event) :
  Forall short_names array ->
  (exists n, snd (copy_config_loop env array tr) = tr ++ map whole_copy (firstn n array))
  /\ ((forall tr' sql q, pg_copy_ok env tr' sql q = true) ->
      copy_config_loop env array tr = (true, tr ++ map whole_copy array)).
Proof.
  intros Hshort. split.
  - revert tr. induction Hshort as [|c rest Hc Hrest IH]; intros tr.
    + exists 0. cbn. now rewrite app_nil_r.
    + cbn [copy_config_loop]. unfold orfail, bind, pg_copy.
      change (EvPgCopy _ _ false) with (config_copy c).
      rewrite (config_copy_whole c Hc).
      destruct (pg_copy_ok env tr _ _).
      * destruct (IH (tr ++ [whole_copy c])) as [n Hn].
        exists (S n). rewrite Hn, <- app_assoc. reflexivity.
      * exists 1. reflexivity.
  - intros Hok. rewrite (copy_config_loop_all_copied env array Hok).
    f_equal. f_equal. induction Hshort as [|c rest Hc Hrest IH]; [reflexivity|].
    cbn [map]. now rewrite IH, (config_copy_whole c Hc).
Qed.

(** ** Runs of the examples *)

Lemma X12_every_configuration_table_is_copied_witness :
  copydb_copy_extensions env_creates_fail example_specs false []
  = (true,
     map config_copy (flat_map config (extensionArray example_specs))
     ++ [EvPgsqlFinish]).
Proof.
  apply (X12_every_configuration_table_is_copied env_creates_fail
           example_specs []); reflexivity.
Defined.

Lemma X14_failed_create_extension_is_counted_not_fatal_witness :
  copydb_copy_extensions env_creates_fail example_specs true []
  = (false,
     flat_map (fun ext => EvSqlExecute (create_extension_sql ext)
                          :: map config_copy (config ext))
       (extensionArray example_specs)
     ++ [EvPgsqlFinish]).
Proof.
  apply (X14_failed_create_extension_is_counted_not_fatal env_creates_fail
           example_specs []); reflexivity.
Defined.

Lemma X15_caller_only_forks_witness :
  snd (copydb_start_extension_data_process (env_copy_fails 4242) example_specs [])
  = [EvFflush; EvFflush; EvFork]
  /\ (true = false <-> 4242%Z = (-1)%Z).
Proof.
  destruct (X15_caller_only_forks (env_copy_fails 4242) example_specs [] true
              eq_refl) as [_ Hforks].
  apply Hforks. reflexivity.
Defined.

Lemma X13_copy_closes_the_connection_only_on_success_witness :
  exists evs,
    snd (copydb_copy_extensions (env_copy_fails 0) example_specs false []) = evs
    /\ fst (copydb_copy_extensions (env_copy_fails 0) example_specs false []) = false
    /\ existsb is_finish evs = false
    /\ stopped_at_failed_copy (env_copy_fails 0) [] evs.
Proof.
  destruct (X13_copy_closes_the_connection_only_on_success (env_copy_fails 0)
              example_specs []) as (evs & Heq & _ & Hfinish & _ & _ & Hstop).
  exists evs. split; [exact Heq|]. split; [reflexivity|].
  split; [exact Hfinish|]. apply Hstop; reflexivity.
Defined.

Lemma X16_short_names_are_copied_whole_witness :
  let c := {| nspname := "public"; relname := "spatial_ref_sys";
              condition := "WHERE srid > 900000" |} in
  copy_config_loop env_creates_fail [c] [] = (true, [whole_copy c]).
Proof.
  intros c.
  assert (Hshort : Forall short_names [c]).
  { repeat constructor; vm_compute; lia. }
  destruct (X16_short_names_are_copied_whole env_creates_fail [c] [] Hshort)
    as [_ Hall].
  apply Hall. reflexivity.
Defined.

End ExtensionsBehaviour.

(** * More on ld_replay.c: the rate limit, the drain, the setup *)

Module LdReplayBehaviour.

Import LdReplay LdReplayProofs.

Local Open Scope Z_scope.

Lemma progress_call_rate_limit (a : StreamAction) (c : StreamApplyContext) (now : Z) :
  is_progress_point a = true ->
  sentinelQueryInProgress c = false ->
  0 <= now < uint64_modulus ->
  0 <= sentinelSyncTime c < uint64_modulus ->
  progress_call a c now
  = if held_back now (sentinelSyncTime c) then [] else [EvSendSyncSentinel now].
Proof.
  intros Hpt Hflag Hnow Hsync. unfold progress_call, held_back. rewrite Hpt, Hflag.
  unfold uint64_sub, uint64_modulus in *.
  change (2 ^ 64) with 18446744073709551616 in *.
  destruct (Z.ltb_spec 1 ((now - sentinelSyncTime c) mod 18446744073709551616))
    as [Hlt|Hge];
  destruct (Z.eqb_spec now (sentinelSyncTime c)) as [He1|He1];
  destruct (Z.eqb_spec now ((sentinelSyncTime c + 1) mod 18446744073709551616))
    as [He2|He2]; cbn [orb]; try reflexivity; exfalso;
    revert Hlt || revert Hge; try revert He2; Z.div_mod_to_equations; lia.
Qed.

Section More.
Context {X : Type}.
Variable H : Helpers X.

(** X17. The rate limit works on unsigned 64-bit seconds: once
    [stream_replay_line] has replayed a COMMIT or a KEEPALIVE with no update
    in flight, it sends an update of the sentinel, and makes no other call,
    unless the clock reads the second of the last sync or the one after it,
    modulo 2^64; then it makes no call at all.  In particular it sends the
    update when the clock reads a time before the last sync. *)
Theorem X17_rate_limit_holds_back_two_seconds
  (line : string) (m : LogicalMessageMetadata) (st : RState X) :
  let replayed :=
    call (stream_apply_sql H m line) (EvApplySql (action m) line) st in
  let c := context (snd replayed) in
  let now := time H (outside (snd replayed)) in
  parseSQLAction H line = Some m ->
  is_progress_point (action m) = true ->
  fst replayed = true ->
  sentinelQueryInProgress c = false ->
  0 <= now < uint64_modulus ->
  0 <= sentinelSyncTime c < uint64_modulus ->
  events (snd (stream_replay_line H line st))
  = events (snd replayed)
    ++ (if held_back now (sentinelSyncTime c) then [] else [EvSendSyncSentinel now])
  /\ (now < sentinelSyncTime c -> 0 < now ->
      events (snd (stream_replay_line H line st))
      = events (snd replayed) ++ [EvSendSyncSentinel now]).
Proof.
  intros replayed c now Hparse Hpt Hok Hflag Hnow Hsync.
  assert (Hev : events (snd (stream_replay_line H line st))
                = events (snd replayed)
                  ++ progress_call (action m) c (now mod uint64_modulus)).
  { subst replayed c now.
    rewrite (stream_replay_line_steps H line m st Hparse).
    destruct (call (stream_apply_sql H m line) (EvApplySql (action m) line) st)
      as [applied st1].
    cbn [fst snd] in *. subst applied. cbn [negb].
    pose proof (after_progress_call_events H m st1) as Hev.
    destruct (after_progress_call H m st1) as [reported st2]. cbn [snd] in Hev.
    destruct reported; cbn [negb snd]; [|exact Hev].
    now rewrite final_check_events. }
  rewrite Z.mod_small in Hev by exact Hnow.
  rewrite (progress_call_rate_limit _ _ _ Hpt Hflag Hnow Hsync) in Hev.
  split; [exact Hev|]. intros Hback Hpos. rewrite Hev.
  assert (Hnot : held_back now (sentinelSyncTime c) = false).
  { unfold held_back, uint64_modulus in *.
    change (2 ^ 64) with 18446744073709551616 in *.
    destruct (Z.eqb_spec now (sentinelSyncTime c)); [lia|].
    destruct (Z.eqb_spec now ((sentinelSyncTime c + 1) mod 18446744073709551616))
      as [He2|He2]; [|reflexivity].
    exfalso. revert He2. Z.div_mod_to_equations. lia. }
  now rewrite Hnot.
Qed.

Lemma drain_sentinel_query_result fuel : forall (st : RState X) r st',
  drain_sentinel_query H fuel st = Some (r, st') ->
  (r = true -> sentinelQueryInProgress (context st') = false)
  /\ exists evs,
       events st' = events st ++ evs /\ forallb is_drain_event evs = true.
Proof.
  induction fuel as [|fuel IH]; intros st r st' Hrun.
  - cbn [drain_sentinel_query] in Hrun.
    destruct (sentinelQueryInProgress (context st)) eqn:Hflag; [discriminate|].
    inversion Hrun; subst. split; [auto|]. exists []. now rewrite app_nil_r.
  - cbn [drain_sentinel_query] in Hrun.
    destruct (sentinelQueryInProgress (context st)) eqn:Hflag.
    + pose proof (call_events (stream_apply_fetch_sync_sentinel H)
                    EvFetchSyncSentinel st) as Hev.
      destruct (call (stream_apply_fetch_sync_sentinel H) EvFetchSyncSentinel st)
        as [ok st1].
      cbn [snd] in Hev. destruct ok; cbn [negb] in Hrun.
      * unfold act in Hrun.
        destruct (IH _ r st' Hrun) as (Hr & evs & Heq & Hall).
        split; [exact Hr|].
        exists ([EvFetchSyncSentinel; EvSleep (100 * 1000)] ++ evs).
        cbn [events] in Heq. rewrite Heq, Hev, <- !app_assoc.
        split; [reflexivity|exact Hall].
      * inversion Hrun; subst. split; [discriminate|].
        exists [EvFetchSyncSentinel]. split; [exact Hev|reflexivity].
    + inversion Hrun; subst. split; [auto|]. exists []. now rewrite app_nil_r.
Qed.

(** X18. Draining the sentinel query: with no query in flight the loop does
    nothing; when it ends with success no query is in flight any more; and
    all it ever does is fetch the result and sleep. *)
Theorem X18_drain_leaves_no_query_in_flight
  (fuel : nat) (st : RState X) :
  (sentinelQueryInProgress (context st) = false ->
   drain_sentinel_query H fuel st = Some (true, st))
  /\ forall r st',
       drain_sentinel_query H fuel st = Some (r, st') ->
       (r = true -> sentinelQueryInProgress (context st') = false)
       /\ exists evs,
            events st' = events st ++ evs /\ forallb is_drain_event evs = true.
Proof.
  split.
  - intros Hflag. destruct fuel; cbn [drain_sentinel_query]; now rewrite Hflag.
  - intros r st'. apply drain_sentinel_query_result.
Qed.

(** X19. Before it reads its input, [stream_apply_replay] calls its helpers in
    one order and returns at the first that fails: it waits for the sentinel,
    reads the stream context when the timeline is not known, sets up the
    replication origin and opens the source connection.  Without [stdIn] it
    calls nothing at all.  When waiting for the sentinel fails, it returns
    failure after that call; when reading the context fails, after that
    call; when setting up the origin fails, after that call; when the origin
    is set up and [endpos] is already reached, it returns success there;
    otherwise it opens the connection, and goes on to read its input exactly
    when that succeeds. *)
Theorem X19_setup_order_of_calls (specs : StreamSpecs) (x : X) :
  (match replay_setup H specs x with
   | SetupReturns _ st => events st `prefix_of` setup_sequence specs
   | SetupDone st => events st = setup_sequence specs
   end)
  /\ (stdIn specs = false ->
      replay_setup H specs x
      = SetupReturns false {| context := zero_context; outside := x; events := [] |})
  /\ (stdIn specs = true ->
      forall c1 x1,
        stream_apply_wait_for_sentinel H specs zero_context x = (false, c1, x1) ->
        replay_setup H specs x
        = SetupReturns false
            {| context := c1; outside := x1; events := [EvWaitForSentinel] |})
  /\ (stdIn specs = true ->
      forall c1 x1 specs1 x2,
        stream_apply_wait_for_sentinel H specs zero_context x = (true, c1, x1) ->
        system_timeline specs = 0 ->
        stream_read_context H specs x1 = (false, specs1, x2) ->
        replay_setup H specs x
        = SetupReturns false
            {| context := c1; outside := x2;
               events := [EvWaitForSentinel; EvReadContext] |})
  /\ (stdIn specs = true ->
      forall c1 x1 specs1 x2 ok3 c3 x3,
        stream_apply_wait_for_sentinel H specs zero_context x = (true, c1, x1) ->
        read_context_if_needed H specs x1 = (true, specs1, x2) ->
        setupReplicationOrigin H specs1
          (set_system c1 (system_timeline specs1) (WalSegSz specs1)) x2
        = (ok3, c3, x3) ->
        let origin_set :=
          {| context := c3; outside := x3;
             events := removelast (setup_sequence specs) |} in
        (ok3 = false -> replay_setup H specs x = SetupReturns false origin_set)
        /\ (ok3 = true -> endpos_reached c3 = true ->
            replay_setup H specs x = SetupReturns true origin_set)
        /\ (ok3 = true -> endpos_reached c3 = false ->
            replay_setup H specs x
            = (if fst (pgsql_init H c3 x3)
               then SetupDone
               else SetupReturns false)
                {| context := c3; outside := snd (pgsql_init H c3 x3);
                   events := setup_sequence specs |})).
Proof.
  unfold replay_setup, replay_origin, setup_sequence, read_context_if_needed,
    endpos_reached.
  split; [|split; [|split; [|split]]].
  - destruct (stdIn specs); cbn [negb];
      [|exists ([EvWaitForSentinel]
                  ++ (if Z.eqb (system_timeline specs) 0
                      then [EvReadContext] else [])
                  ++ [EvSetupReplicationOrigin; EvPgsqlInit]); reflexivity].
    unfold call, modify. cbn [context outside events].
    destruct (stream_apply_wait_for_sentinel H specs zero_context x) as [[ok1 c1] x1].
    destruct ok1; cbn [negb]; [|cbn [events app]; eexists; reflexivity].
    destruct (system_timeline specs =? 0); cbn [context outside events].
    + destruct (stream_read_context H specs x1) as [[ok2 specs1] x2].
      destruct ok2; cbn [negb context outside events];
        [|cbn [app]; eexists; reflexivity].
      destruct (setupReplicationOrigin H specs1 _ x2) as [[ok3 c3] x3].
      destruct ok3; cbn [negb context outside events];
        [|cbn [app]; eexists; reflexivity].
      destruct (negb (endpos c3 =? InvalidXLogRecPtr) && (endpos c3 <=? previousLSN c3));
        [cbn [app events]; eexists; reflexivity|].
      destruct (pgsql_init H c3 x3) as [ok5 x5].
      destruct ok5; cbn [negb events app]; [reflexivity|exists []; reflexivity].
    + destruct (setupReplicationOrigin H specs _ x1) as [[ok3 c3] x3].
      destruct ok3; cbn [negb context outside events];
        [|cbn [app]; eexists; reflexivity].
      destruct (negb (endpos c3 =? InvalidXLogRecPtr) && (endpos c3 <=? previousLSN c3));
        [cbn [app events]; eexists; reflexivity|].
      destruct (pgsql_init H c3 x3) as [ok5 x5].
      destruct ok5; cbn [negb events app]; [reflexivity|exists []; reflexivity].
  - intros ->. reflexivity.
  - intros -> c1 x1 Hwait. cbn [negb]. unfold call. cbn [context outside events].
    rewrite Hwait. reflexivity.
  - intros -> c1 x1 specs1 x2 Hwait Htl Hread. cbn [negb]. unfold call.
    cbn [context outside events]. rewrite Hwait. cbn [negb].
    rewrite Htl. cbn [Z.eqb context outside events]. rewrite Hread. reflexivity.
  - intros -> c1 x1 specs1 x2 ok3 c3 x3 Hwait Hread Horigin. cbn [negb].
    unfold call, modify. cbn [context outside events]. rewrite Hwait. cbn [negb].
    destruct (system_timeline specs =? 0); cbn [context outside events];
      [rewrite Hread|inversion Hread; subst specs1 x2];
      cbn [negb context outside events]; rewrite Horigin;
      cbn [context outside events app removelast];
      (split; [intros ->; reflexivity|]);
      (split; [intros -> Hreached; cbn [negb]; rewrite Hreached; reflexivity|]);
      intros -> Hnot; cbn [negb]; rewrite Hnot;
      destruct (pgsql_init H c3 x3) as [ok5 x5]; destruct ok5; reflexivity.
Qed.

(** X20. Reading the stream ends with success in two cases only: the stream
    has ended, the last action being the read that found its end, or the
    callback asked to stop, and then [reachedEndPos] is set. *)
Theorem X20_reading_succeeds_at_end_of_stream_or_endpos
  (fuel : nat) (st st' : RState X) :
  read_from_stream H fuel st = Some (true, st') ->
  reachedEndPos (context st') = true
  \/ (last (events st') = Some EvReadLine
      /\ exists x0, read_line H x0 = (ReadEOF, outside st')).
Proof.
  revert st. induction fuel as [|fuel IH]; intros st Hrun; [discriminate|].
  cbn [read_from_stream] in Hrun.
  destruct (read_line H (outside st)) as [res x1] eqn:Hread.
  destruct res as [line| |].
  - destruct (stream_replay_line H line _) as [[ok stop] st2] eqn:Hline.
    destruct ok; cbn [negb] in Hrun; [|discriminate].
    destruct stop.
    + inversion Hrun; subst. left.
      destruct (replay_line_ends_in_final_check H _ _ _ _ Hline) as [sta Hfinal].
      destruct (final_check_stop _ _ _ Hfinal) as (_ & Hstop & _). auto.
    + apply (IH st2 Hrun).
  - inversion Hrun; subst. right. cbn [events outside]. split.
    + apply last_snoc.
    + exists (outside st). exact Hread.
  - discriminate.
Qed.

End More.

(** ** Runs of the examples *)

Lemma X17_rate_limit_holds_back_two_seconds_witness :
  events (snd (stream_replay_line example_helpers "KEEPALIVE 45" example_clock_behind))
  = [EvApplySql STREAM_ACTION_KEEPALIVE "KEEPALIVE 45"; EvSendSyncSentinel 5].
Proof.
  assert (Hnow : 0 <= 5 < uint64_modulus) by (unfold uint64_modulus; lia).
  assert (Hsync : 0 <= 1000 < uint64_modulus) by (unfold uint64_modulus; lia).
  destruct (X17_rate_limit_holds_back_two_seconds example_helpers "KEEPALIVE 45"
              (message STREAM_ACTION_KEEPALIVE 45 0) example_clock_behind
              eq_refl eq_refl eq_refl eq_refl Hnow Hsync) as [_ Hback].
  rewrite Hback; [reflexivity|reflexivity|reflexivity].
Defined.

Lemma X18_drain_leaves_no_query_in_flight_witness :
  match drain_sentinel_query example_helpers 5 example_inflight with
  | Some (r, st') =>
      r = true
      /\ sentinelQueryInProgress (context st') = false
      /\ events st' = [EvFetchSyncSentinel; EvSleep (100 * 1000)]
  | None => False
  end.
Proof.
  destruct (X18_drain_leaves_no_query_in_flight example_helpers 5 example_inflight)
    as [_ Hres].
  destruct (drain_sentinel_query example_helpers 5 example_inflight)
    as [[r st']|] eqn:Hrun; [|vm_compute in Hrun; discriminate Hrun].
  destruct (Hres r st' eq_refl) as [Hflag _].
  vm_compute in Hrun. injection Hrun as Hr Hst. subst r.
  split; [reflexivity|]. split; [exact (Hflag eq_refl)|].
  rewrite <- Hst. reflexivity.
Defined.

Lemma X19_setup_order_of_calls_witness :
  replay_setup example_helpers example_specs example_paused
  = SetupReturns false
      {| context := with_sentinel zero_context false 0 false 0;
         outside := example_paused; events := [EvWaitForSentinel] |}
  /\ replay_setup example_helpers example_specs
       (example_outside 0 0 four_transactions)
     = SetupDone
         {| context := set_system (with_sentinel zero_context true 0 false 0)
                         1 16777216;
            outside := example_outside 0 0 four_transactions;
            events := [EvWaitForSentinel; EvSetupReplicationOrigin; EvPgsqlInit] |}.
Proof.
  split.
  - destruct (X19_setup_order_of_calls example_helpers example_specs example_paused)
      as (_ & _ & Hwait & _).
    apply Hwait; reflexivity.
  - destruct (X19_setup_order_of_calls example_helpers example_specs
                (example_outside 0 0 four_transactions))
      as (_ & _ & _ & _ & Hrest).
    destruct (Hrest eq_refl _ _ _ _ _ _ _ eq_refl eq_refl eq_refl)
      as (_ & _ & Hdone).
    rewrite (Hdone eq_refl eq_refl). reflexivity.
Defined.

Example setup_reads_the_context_when_timeline_unknown :
  match replay_setup example_helpers
          {| stdIn := true; system_timeline := 0; WalSegSz := 0;
             specs_endpos := 0 |}
          (example_outside 0 0 four_transactions) with
  | SetupDone st =>
      events st = [EvWaitForSentinel; EvReadContext; EvSetupReplicationOrigin;
                   EvPgsqlInit]
      /\ ctx_timeline (context st) = 1
  | SetupReturns _ _ => False
  end.
Proof. vm_compute. split; reflexivity. Qed.

Lemma X20_reading_succeeds_at_end_of_stream_or_endpos_witness :
  match read_from_stream example_helpers 100
          (example_ready (example_outside 30 0 four_transactions)) with
  | Some (true, st') =>
      reachedEndPos (context st') = true
      \/ (last (events st') = Some EvReadLine
          /\ exists x0, read_line example_helpers x0 = (ReadEOF, outside st'))
  | _ => False
  end.
Proof.
  destruct (read_from_stream example_helpers 100
              (example_ready (example_outside 30 0 four_transactions)))
    as [[[] st']|] eqn:Hrun.
  - exact (X20_reading_succeeds_at_end_of_stream_or_endpos example_helpers 100
             _ st' Hrun).
  - vm_compute in Hrun. discriminate Hrun.
  - vm_compute in Hrun. discriminate Hrun.
Defined.

End LdReplayBehaviour.
